(** * utils/process.py: the processing scheduler of CAPE

    A shallow embedding of [utils/process.py]: the resource guard
    ([get_memory], [memory_limit]), the job runner ([process]), the
    completion callback ([processing_finished]), the scheduling loop
    ([autoprocess]) and the command line entry point ([main]).

    Python's implicit effects are made explicit:
    - the two module-level dictionaries, the locals of [autoprocess] that
      outlive a statement ([count], [pool]), the files the scheduler looks
      at and the address-space limit live in a [state] record;
    - every call that leaves the module (database, worker pool, logging,
      sleeping, the file system) is recorded as an [event] in the trace of
      the state, in program order;
    - what such a call answers is read from an input record (an oracle),
      so that the embedding stays executable;
    - exceptions, [sys.exit] and "still running" are the three ways a
      computation of the monad [M] can fail to return. *)

From Stdlib Require Import ZArith QArith Lia Ascii String.
From stdpp Require Import base gmap sets list strings pretty.

Local Open Scope string_scope.
Local Open Scope Z_scope.

(** ** Python values used by the module *)

(** The exception classes the module raises, catches or can receive from
    a collaborator.  [SystemExit] is kept apart (see [result]). *)
Inductive exn :=
| KeyboardInterrupt
| MemoryError
| OSError
| PermissionError
| ValueError
| IndexError
| KeyError
| TypeError
| AttributeError
| UnboundLocalError
| ESRequestError
| OverflowError.

(** The argument of [sys.exit]: an integer status, or any other object,
    which is printed to stderr and gives status 1. *)
Inductive exit_arg :=
| ExitCode (n : Z)
| ExitMsg (msg : string).


(** What an external call answers. *)
Inductive call_result (A : Type) :=
| Ret (a : A)
| Raise (e : exn).
Arguments Ret {A} a.
Arguments Raise {A} e.

(** Row states of the task table ([lib.cuckoo.core.database]). *)
Inductive status := TASK_COMPLETED | TASK_FAILED_PROCESSING | TASK_REPORTED.

(** Paths are kept as the components handed to [os.path.join]. *)
Definition path := list string.

(** A row of the task table, as far as this module reads it. *)
Record Task := mkTask {
  task_id : Z;
  category : string;
  target : string;
  sample_id : option Z }.

Record Sample := mkSample { sha256 : string }.

(** A future is a fresh object, hashed by identity: a serial number. *)
Abbreviation future := nat.

(** The four ways [future.result()] behaves in [processing_finished]. *)
Inductive resolution :=
| ResSuccess
| ResTimeout
| ResProcessExpired
| ResException.

(** JSON-like data: the results container and stored reports.  A dict is
    an association list, in insertion order. *)
#[local] Set Warnings "-register-all".
Inductive value :=
| VNone
| VBool (b : bool)
| VInt (n : Z)
| VStr (s : string)
| VList (l : list value)
| VDict (d : list (string * value)).

(** Truth value of a Python object. *)
Definition truthy (v : value) : bool :=
  match v with
  | VNone => false
  | VBool b => b
  | VInt n => negb (Z.eqb n 0)
  | VStr s => negb (String.eqb s "")
  | VList l => match l with [] => false | _ => true end
  | VDict d => match d with [] => false | _ => true end
  end.

(** ** Events *)

Inductive event :=
| EvPrint (msg : string)
| EvPrintRemain (kb : Z)
| EvStderr (msg : string)
| EvLogInfo (msg : string)
| EvLogError (msg : string)
| EvGcLog (tid : Z) (point : string)
| EvTraceback (e : exn)
| EvSleep (secs : Z)
| EvGetRlimit
| EvSetRlimit (soft hard : Z)
| EvFreeSpaceMonitor (dir : path)
| EvListTasks (st : status) (limit : Z)
| EvViewSample (sid : option Z)
| EvViewTask (tid : Z)
| EvPoolCreate (max_workers max_tasks : Z)
| EvSchedule (f : future) (t : Task) (copy_path : option path) (timeout : Z)
| EvAddDoneCallback (f : future)
| EvCallback (f : future) (r : resolution)
| EvPoolExit
| EvPoolClose
| EvPoolJoin
| EvSetStatus (tid : option Z) (st : status)
| EvUnlink (p : path)
| EvRunProcessing (tid : Z) (results : value)
| EvRunSignatures (tid : Z) (results : value) (only : option string)
| EvRunReporting (tid : Z) (results : value) (reprocess : bool)
| EvInitYara
| EvInitModules
| EvOpenLog (auto : bool)
| EvMongoFindOne (tid : Z)
| EvMongoCalls
| EvMongoFind (tid : Z)
| EvEsSearch (tid : Z)
| EvJsonLoad (p : path).

(** ** State *)

Record state := mkState {
  pending_future_map : gmap nat Z;      (* future -> task id *)
  pending_task_id_map : gmap Z nat;     (* task id -> future *)
  futures_created : nat;                (* next fresh future object *)
  count : Z;                            (* local of autoprocess *)
  pool : bool;                          (* is local [pool] bound *)
  files : gset path;                    (* existing paths *)
  rlimit_as : Z * Z;                    (* (soft, hard) of RLIMIT_AS *)
  trace : list event }.

Definition set_pfm (m : gmap nat Z) (s : state) : state :=
  mkState m (pending_task_id_map s) (futures_created s) (count s) (pool s)
          (files s) (rlimit_as s) (trace s).
Definition set_ptm (m : gmap Z nat) (s : state) : state :=
  mkState (pending_future_map s) m (futures_created s) (count s) (pool s)
          (files s) (rlimit_as s) (trace s).
Definition set_futures_created (n : nat) (s : state) : state :=
  mkState (pending_future_map s) (pending_task_id_map s) n (count s) (pool s)
          (files s) (rlimit_as s) (trace s).
Definition set_count (c : Z) (s : state) : state :=
  mkState (pending_future_map s) (pending_task_id_map s) (futures_created s) c
          (pool s) (files s) (rlimit_as s) (trace s).
Definition set_pool (b : bool) (s : state) : state :=
  mkState (pending_future_map s) (pending_task_id_map s) (futures_created s)
          (count s) b (files s) (rlimit_as s) (trace s).
Definition set_files (fs : gset path) (s : state) : state :=
  mkState (pending_future_map s) (pending_task_id_map s) (futures_created s)
          (count s) (pool s) fs (rlimit_as s) (trace s).
Definition set_rlimit_as (r : Z * Z) (s : state) : state :=
  mkState (pending_future_map s) (pending_task_id_map s) (futures_created s)
          (count s) (pool s) (files s) r (trace s).
Definition add_event (e : event) (s : state) : state :=
  mkState (pending_future_map s) (pending_task_id_map s) (futures_created s)
          (count s) (pool s) (files s) (rlimit_as s) (trace s ++ [e])%list.

(** The module as imported: both dictionaries empty. *)
Definition initial_state (fs : gset path) (rl : Z * Z) : state :=
  mkState ∅ ∅ 0%nat 0 false fs rl [].

(** ** The monad *)

(** [Pending]: the inputs ran out while the loop was still running; no
    handler and no [finally] clause sees it. *)
Inductive result (A : Type) :=
| Ok (a : A)
| Exc (e : exn)
| Exit (a : exit_arg)
| Pending.
Arguments Ok {A} a.
Arguments Exc {A} e.
Arguments Exit {A} a.
Arguments Pending {A}.

Definition M (A : Type) : Type := state -> result A * state.

Definition ret {A} (a : A) : M A := fun s => (Ok a, s).

Definition bind {A B} (m : M A) (k : A -> M B) : M B :=
  fun s =>
    match m s with
    | (Ok a, s') => k a s'
    | (Exc e, s') => (Exc e, s')
    | (Exit a, s') => (Exit a, s')
    | (Pending, s') => (Pending, s')
    end.

Notation "x <- m ;; k" := (bind m (fun x => k))
  (at level 100, m at next level, right associativity).
Notation "m ;; k" := (bind m (fun _ => k))
  (at level 100, right associativity).

Definition raise {A} (e : exn) : M A := fun s => (Exc e, s).
Definition sys_exit {A} (a : exit_arg) : M A := fun s => (Exit a, s).
Definition gets {A} (f : state -> A) : M A := fun s => (Ok (f s), s).
Definition modify (f : state -> state) : M unit := fun s => (Ok tt, f s).
Definition emit (e : event) : M unit := modify (add_event e).

(** An external call: log it, then return or raise what it answers. *)
Definition call {A} (e : event) (r : call_result A) : M A :=
  emit e ;; match r with Ret a => ret a | Raise x => raise x end.

(** [try: body / except ...: handler]: the handler receives every
    exception; a clause that does not match re-raises. *)
Definition try_except {A} (body : M A) (handler : exn -> M A) : M A :=
  fun s =>
    match body s with
    | (Exc e, s') => handler e s'
    | r => r
    end.

(** [try: body / finally: fin]. *)
Definition try_finally {A} (body : M A) (fin : M unit) : M A :=
  fun s =>
    match body s with
    | (Pending, s') => (Pending, s')
    | (r, s') =>
        match fin s' with
        | (Ok _, s'') => (r, s'')
        | (Exc e, s'') => (Exc e, s'')
        | (Exit a, s'') => (Exit a, s'')
        | (Pending, s'') => (Pending, s'')
        end
    end.

(** ** Strings: [str.split()] and [int()] *)

Definition is_space (c : ascii) : bool :=
  let n := nat_of_ascii c in
  ((9 <=? n)%nat && (n <=? 13)%nat) || ((28 <=? n)%nat && (n <=? 32)%nat).

(** [s.split()]: maximal runs of non-blank characters. *)
Fixpoint split_aux (s : string) (cur : option string) : list string :=
  match s with
  | EmptyString => match cur with Some w => [w] | None => [] end
  | String c s' =>
      if is_space c then
        match cur with
        | Some w => w :: split_aux s' None
        | None => split_aux s' None
        end
      else
        split_aux s' (Some (match cur with
                            | Some w => w +:+ String c EmptyString
                            | None => String c EmptyString
                            end))
  end.

Definition split (s : string) : list string := split_aux s None.

Definition digit_of (c : ascii) : option Z :=
  let n := Z.of_nat (nat_of_ascii c) in
  if (48 <=? n) && (n <=? 57) then Some (n - 48) else None.

(** Decimal digits, single underscores allowed between two digits. *)
Fixpoint digits_go (s : string) (acc : Z) (after_digit : bool) : option Z :=
  match s with
  | EmptyString => if after_digit then Some acc else None
  | String c s' =>
      match digit_of c with
      | Some d => digits_go s' (10 * acc + d) true
      | None =>
          if after_digit && Ascii.eqb c "_"%char then digits_go s' acc false
          else None
      end
  end.

(** [int(tok)] on a token without blanks; [None] is [ValueError]. *)
Definition py_int (tok : string) : option Z :=
  match tok with
  | String "-"%char s' => Z.opp <$> digits_go s' 0 false
  | String "+"%char s' => digits_go s' 0 false
  | _ => digits_go tok 0 false
  end.

(** [int(x)] on a number: truncation toward zero.  The product that
    [memory_limit] truncates is a float in Python; it is taken here as
    the exact rational product. *)
Definition int_of_Q (q : Q) : Z := Z.quot (Qnum q) (Zpos (Qden q)).

(** ** ResourceGuard: get_memory, memory_limit *)

(** The [for i in mem] loop of [get_memory]. *)
Fixpoint get_memory_lines (lines : list string) : call_result Z :=
  match lines with
  | [] => Ret 0
  | i :: rest =>
      match split i with
      | [] => Raise IndexError
      | w0 :: tl =>
          if String.eqb w0 "MemAvailable:" then
            match tl with
            | [] => Raise IndexError
            | w1 :: _ =>
                match py_int w1 with
                | Some n => Ret n
                | None => Raise ValueError
                end
            end
          else get_memory_lines rest
      end
  end.

(** [meminfo]: the lines of /proc/meminfo, or [None] when [open] fails. *)
Definition get_memory (meminfo : option (list string)) : M Z :=
  match meminfo with
  | None => raise OSError
  | Some lines =>
      match get_memory_lines lines with
      | Ret n => ret n
      | Raise e => raise e
      end
  end.

Definition default_percentage : Q := 8 # 10.

(** A limit as the system holds it: a C [rlim_t], unsigned and 64 bits
    wide.  [RLIM_INFINITY] is its largest value, which Python shows as
    -1. *)
Definition rlim_t (v : Z) : Z := v mod 2 ^ 64.

(** [resource.setrlimit(RLIMIT_AS, (soft, hard))]: a soft limit that
    does not fit a signed 64-bit C integer raises [OverflowError]; the
    system refuses a soft limit above the hard one, which the module
    reports as [ValueError].  [hard] is what [getrlimit] answered: it
    fits, and it does not raise the hard limit. *)
Definition setrlimit (soft hard : Z) : call_result unit :=
  if (soft <? - 2 ^ 63) || (2 ^ 63 <=? soft) then Raise OverflowError
  else if rlim_t soft <=? rlim_t hard then Ret tt
  else Raise ValueError.

Definition memory_limit (platform_system : string)
    (meminfo : option (list string)) (percentage : Q) : M unit :=
  if negb (String.eqb platform_system "Linux") then
    emit (EvPrint "Only works on linux!")
  else
    hard <- (emit EvGetRlimit ;; gets (fun s => snd (rlimit_as s))) ;;
    free <- get_memory meminfo ;;
    let soft := int_of_Q (inject_Z (free * 1024) * percentage) in
    call (EvSetRlimit soft hard) (setrlimit soft hard) ;;
    modify (set_rlimit_as (soft, hard)).

(** ** Configuration *)

(** [cfg.cuckoo.*] and [CUCKOO_ROOT]. *)
Record config := mkConfig {
  CUCKOO_ROOT : string;
  max_analysis_count : Z;
  freespace : Z;
  delete_original : bool;
  delete_bin_copy : bool }.

(** The keyword arguments of [autoprocess]. *)
Record auto_args := mkAutoArgs {
  parallel : Z;
  failed_processing : bool;
  maxtasksperchild : Z;
  memory_debugging : bool;
  processing_timeout : Z }.

(** The processing, signature and reporting modules
    ([lib.cuckoo.core.plugins]) are collaborators: each receives the
    results container and leaves it changed, or raises. *)
Record stages := mkStages {
  RunProcessing : value -> call_result value;
  RunSignatures : option string -> value -> call_result value;
  RunReporting : bool -> value -> call_result value }.

(** ** File system helpers *)

Definition exists_path (p : path) : M bool := gets (fun s => bool_decide (p ∈ files s)).

Definition unlink (p : path) : M unit :=
  emit (EvUnlink p) ;; modify (fun s => set_files (files s ∖ {[p]}) s).

(** ** JobRunner: process *)

(** The container [process] starts from. *)
Definition seed_results : value :=
  VDict [("statistics",
          VDict [("processing", VList []);
                 ("signatures", VList []);
                 ("reporting", VList [])])].

(** [task_dict.get("id") or 0], the dict being [task.to_dict()], whose
    "id" entry is the id column of the row. *)
Definition dict_id_or_0 (t : Task) : Z :=
  if Z.eqb (task_id t) 0 then 0 else task_id t.

Definition gc_log (memory_debugging : bool) (tid : Z) (point : string) : M unit :=
  if memory_debugging then emit (EvGcLog tid point) else ret tt.

(** [task = None] makes [task.to_dict()] raise; [target = None] makes
    [os.path.exists(target)] raise. *)
Definition process (cfg : config) (st : stages)
    (target : option path) (copy_path : option path) (task : option Task)
    (report auto capeproc memory_debugging : bool) : M unit :=
  match task with
  | None => raise AttributeError
  | Some t =>
      let tid := dict_id_or_0 t in
      let results := seed_results in
      gc_log memory_debugging tid "1" ;;
      gc_log memory_debugging tid "2" ;;
      results <- call (EvRunProcessing tid results) (RunProcessing st results) ;;
      gc_log memory_debugging tid "3" ;;
      results <- call (EvRunSignatures tid results None) (RunSignatures st None results) ;;
      gc_log memory_debugging tid "4" ;;
      (if report then
         let reprocess := if auto || capeproc then false else report in
         results <- call (EvRunReporting tid results reprocess)
                         (RunReporting st reprocess results) ;;
         emit (EvSetStatus (Some tid) TASK_REPORTED) ;;
         if auto then
           (if delete_original cfg then
              match target with
              | None => raise TypeError
              | Some tg =>
                  ex <- exists_path tg ;;
                  if ex then unlink tg else ret tt
              end
            else ret tt) ;;
           match copy_path with
           | Some cp =>
               if delete_bin_copy cfg then
                 ex <- exists_path cp ;;
                 if ex then unlink cp else ret tt
               else ret tt
           | None => ret tt
           end
         else ret tt
       else ret tt) ;;
      gc_log memory_debugging tid "5"
  end.

(** ** Completion callback: processing_finished *)

(** [del d[k]]: [KeyError] when the key is missing. *)
Definition del_pending_future (f : future) : M unit :=
  cur <- gets (fun s => pending_future_map s !! f) ;;
  match cur with
  | Some _ => modify (fun s => set_pfm (delete f (pending_future_map s)) s)
  | None => raise KeyError
  end.

Definition del_pending_task (tid : option Z) : M unit :=
  match tid with
  | None => raise KeyError
  | Some i =>
      cur <- gets (fun s => pending_task_id_map s !! i) ;;
      match cur with
      | Some _ => modify (fun s => set_ptm (delete i (pending_task_id_map s)) s)
      | None => raise KeyError
      end
  end.

Definition processing_finished (f : future) (r : resolution) : M unit :=
  tid <- gets (fun s => pending_future_map s !! f) ;;
  match r with
  | ResSuccess => emit (EvLogInfo "Task #%d: reports generation completed")
  | ResTimeout =>
      emit (EvLogError "Processing Timeout %s - Task ID: %d") ;;
      emit (EvSetStatus tid TASK_FAILED_PROCESSING)
  | ResProcessExpired =>
      emit (EvLogError "Exception when processing task %s: %s") ;;
      emit (EvSetStatus tid TASK_FAILED_PROCESSING)
  | ResException =>
      emit (EvLogError "Exception when processing task %s: %s") ;;
      emit (EvSetStatus tid TASK_FAILED_PROCESSING)
  end ;;
  del_pending_future f ;;
  del_pending_task tid.

(** The pool resolving a future: it calls the registered callback and
    logs, without re-raising, an exception that leaves it. *)
Definition deliver1 (fr : future * resolution) : M unit :=
  emit (EvCallback (fst fr) (snd fr)) ;;
  try_except (processing_finished (fst fr) (snd fr)) (fun _ => ret tt).

Fixpoint deliver (l : list (future * resolution)) : M unit :=
  match l with
  | [] => ret tt
  | fr :: rest => deliver1 fr ;; deliver rest
  end.

(** ** Scheduler: autoprocess *)

(** What the outside answers during one pass of the [while] loop.
    The pool resolves futures on a thread of its own, so completions can
    arrive at any time: [it_before] holds those delivered before the
    pass, [it_during] those delivered between the test on the number of
    pending tasks and the query, and [it_resolved] those delivered
    during a dispatch once the callback is registered, before the rest
    of the loop body runs; among these is the callback that
    [add_done_callback] runs at once on a future that is already done.
    A completion that arrives later in the pass is one delivered before
    the next pass: the rest of the body does not read the two
    dictionaries. *)
Record iter_input := mkIter {
  it_before : list (future * resolution);
  it_free_space : call_result (bool * Z);
  it_during : list (future * resolution);
  it_tasks : call_result (list Task);
  it_view_sample : option Z -> option Sample;
  it_sleep : call_result unit;
  it_resolved : list (future * resolution) }.

Definition sleep (secs : Z) (inp : iter_input) : M unit :=
  call (EvSleep secs) (it_sleep inp).

Definition analyses_dir (cfg : config) : path :=
  [CUCKOO_ROOT cfg; "storage"; "analyses"].

Definition bin_copy_path (cfg : config) (t : Task) (smp : Sample) : path :=
  [CUCKOO_ROOT cfg; "storage"; "binaries"; pretty (task_id t); sha256 smp].

Definition copy_origin_path (cfg : config) (smp : Sample) : path :=
  [CUCKOO_ROOT cfg; "storage"; "binaries"; sha256 smp].

(** [pool.schedule]: a new future. *)
Definition pool_schedule (t : Task) (copy_path : option path) (timeout : Z) : M future :=
  f <- gets futures_created ;;
  modify (set_futures_created (S f)) ;;
  emit (EvSchedule f t copy_path timeout) ;;
  ret f.

(** The body of the [for] loop from the log line to [break]. *)
Definition dispatch (cfg : config) (a : auto_args) (inp : iter_input) (t : Task) : M unit :=
  emit (EvLogInfo "Processing analysis data for Task #%d") ;;
  sample <- (if negb (String.eqb (category t) "url") then
               emit (EvViewSample (sample_id t)) ;;
               match it_view_sample inp (sample_id t) with
               | Some smp => ret (Some smp)
               | None => raise AttributeError
               end
             else ret None) ;;
  let copy_path := bin_copy_path cfg t <$> sample in
  gc_log (memory_debugging a) (task_id t) "before" ;;
  f <- pool_schedule t copy_path (processing_timeout a) ;;
  modify (fun s => set_pfm (<[f := task_id t]> (pending_future_map s)) s) ;;
  modify (fun s => set_ptm (<[task_id t := f]> (pending_task_id_map s)) s) ;;
  emit (EvAddDoneCallback f) ;;
  deliver (it_resolved inp) ;;
  gc_log (memory_debugging a) (task_id t) "after" ;;
  modify (fun s => set_count (count s + 1) s) ;;
  match sample with
  | Some smp =>
      if delete_bin_copy cfg then
        ex <- exists_path (copy_origin_path cfg smp) ;;
        if ex then unlink (copy_origin_path cfg smp) else ret tt
      else ret tt
  | None => ret tt
  end.

(** [for task in tasks]; the result is [added].  A future is an object
    without [__bool__] or [__len__], so [pending_task_id_map.get(task.id)]
    is true exactly when the key is present. *)
Fixpoint for_tasks (cfg : config) (a : auto_args) (inp : iter_input)
    (tasks : list Task) : M bool :=
  match tasks with
  | [] => ret false
  | t :: rest =>
      cur <- gets (fun s => pending_task_id_map s !! task_id t) ;;
      match cur with
      | Some _ => for_tasks cfg a inp rest
      | None => dispatch cfg a inp t ;; ret true
      end
  end.

Definition source_status (a : auto_args) : status :=
  if failed_processing a then TASK_FAILED_PROCESSING else TASK_COMPLETED.

(** The free-space test at the head of the [while] body; the result
    tells whether the pass ended there ([continue]). *)
Definition disk_backpressure (cfg : config) (inp : iter_input) : M bool :=
  if negb (Z.eqb (freespace cfg) 0) then
    fsr <- call (EvFreeSpaceMonitor (analyses_dir cfg)) (it_free_space inp) ;;
    if fst fsr then
      emit (EvLogError "Not enough free disk space! (Only %d MB!). You can change limits it in cuckoo.conf -> freespace") ;;
      sleep 60 inp ;;
      ret true
    else ret false
  else ret false.

(** The rest of the body once the table has room: query, [for] loop,
    and the sleep when nothing was added. *)
Definition admit_one (cfg : config) (a : auto_args) (inp : iter_input) : M unit :=
  deliver (it_during inp) ;;
  tasks <- call (EvListTasks (source_status a) (parallel a)) (it_tasks inp) ;;
  added <- for_tasks cfg a inp tasks ;;
  if negb added then sleep 5 inp else ret tt.

(** One pass of the [while] body. *)
Definition iteration (cfg : config) (a : auto_args) (inp : iter_input) : M unit :=
  deliver (it_before inp) ;;
  blocked <- disk_backpressure cfg inp ;;
  if (blocked : bool) then ret tt
  else
    n <- gets (fun s => size (pending_task_id_map s)) ;;
    if Z.of_nat n >=? parallel a then sleep 5 inp
    else admit_one cfg a inp.

(** [while count < maxcount or not maxcount]. *)
Definition loop_cond (cfg : config) (s : state) : bool :=
  (count s <? max_analysis_count cfg) || Z.eqb (max_analysis_count cfg) 0.

Fixpoint while_loop (cfg : config) (a : auto_args) (inputs : list iter_input) : M unit :=
  fun s =>
    if loop_cond cfg s then
      match inputs with
      | [] => (Pending, s)
      | inp :: rest => (iteration cfg a inp ;; while_loop cfg a rest) s
      end
    else (Ok tt, s).

(** What the outside answers during one call of [autoprocess]. *)
Record run_input := mkRun {
  run_platform : string;
  run_meminfo : option (list string);        (* read by memory_limit *)
  run_iters : list iter_input;
  run_drain : list (future * resolution);    (* completions while the pool is joined *)
  run_meminfo_oom : option (list string) }.  (* read by the MemoryError handler *)

(** [with pebble.ProcessPool(...) as pool]: leaving the block closes and
    joins the pool, also when the block raised. *)
Definition with_pool (a : auto_args) (drain : list (future * resolution))
    (body : M unit) : M unit :=
  emit (EvPoolCreate (parallel a) (maxtasksperchild a)) ;;
  modify (set_pool true) ;;
  try_finally body (emit EvPoolExit ;; deliver drain).

(** [pool.close()] and [pool.join()] of the [finally] clause: the name
    [pool] is a local that is bound by the [with] statement only. *)
Definition pool_method (e : event) : M unit :=
  b <- gets pool ;;
  if (b : bool) then emit e else raise UnboundLocalError.

(** The [try] block of [autoprocess]. *)
Definition autoprocess_try (cfg : config) (a : auto_args) (inp : run_input) : M unit :=
  memory_limit (run_platform inp) (run_meminfo inp) default_percentage ;;
  emit (EvLogInfo "Processing analysis data") ;;
  with_pool a (run_drain inp) (while_loop cfg a (run_iters inp)).

(** The [except] clauses of [autoprocess], in order. *)
Definition autoprocess_except (inp : run_input) (e : exn) : M unit :=
  match e with
  | KeyboardInterrupt => raise KeyboardInterrupt
  | MemoryError =>
      mem <- get_memory (run_meminfo_oom inp) ;;
      emit (EvPrintRemain mem) ;;
      emit (EvStderr "ERROR: Memory Exception") ;;
      sys_exit (ExitCode 1)
  | _ => emit (EvTraceback e)
  end.

Definition autoprocess (cfg : config) (a : auto_args) (inp : run_input) : M unit :=
  modify (set_count 0) ;;
  modify (set_pool false) ;;
  try_finally
    (try_except (autoprocess_try cfg a inp) (autoprocess_except inp))
    (pool_method EvPoolClose ;; pool_method EvPoolJoin).

(** ** Logging set-up: init_logging *)

(** [open_log] answers for the [try] block, which creates the log
    directory and opens the log file. *)
Definition init_logging (auto : bool) (open_log : call_result unit) : M unit :=
  try_except
    (call (EvOpenLog auto) open_log)
    (fun e =>
       match e with
       | PermissionError =>
           sys_exit (ExitMsg "Probably executed with wrong user, PermissionError to create/access log")
       | _ => raise e
       end).

(** ** Stored reports: _load_report *)

(** [repconf] and what the two report stores answer. *)
Record report_stores := mkStores {
  mongodb_enabled : bool;
  mongo_find_one : call_result (option value);
  mongo_calls : value -> call_result value;
  mongo_find : call_result value;
  elasticsearchdb_enabled : bool;
  elasticsearchdb_searchonly : bool;
  es_search : call_result (list value) }.

Definition _load_report (rs : report_stores) (tid : Z) (return_one : bool) : M value :=
  if mongodb_enabled rs then
    if return_one then
      analysis <- call (EvMongoFindOne tid) (mongo_find_one rs) ;;
      match analysis with
      | None => raise AttributeError
      | Some doc => call EvMongoCalls (mongo_calls rs doc)
      end
    else call (EvMongoFind tid) (mongo_find rs)
  else if elasticsearchdb_enabled rs && negb (elasticsearchdb_searchonly rs) then
    try_except
      (analyses <- call (EvEsSearch tid) (es_search rs) ;;
       match analyses with
       | [] => ret (VBool false)
       | first :: _ => ret (if return_one then first else VList analyses)
       end)
      (fun e =>
         match e with
         | ESRequestError => emit (EvPrint "RequestError") ;; ret (VBool false)
         | _ => raise e
         end)
  else ret (VBool false).

(** ** Entry point: main *)

Record args := mkArgs {
  arg_id : string;
  arg_caperesubmit : bool;
  arg_debug : bool;
  arg_report : bool;
  arg_parallel : Z;
  arg_failed_processing : bool;
  arg_maxtasksperchild : Z;
  arg_memory_debugging : bool;
  arg_processing_timeout : Z;
  arg_signatures : bool;
  arg_signature_name : option string;
  arg_json_report : option path }.

(** What the outside answers during one run of the program. *)
Record world := mkWorld {
  python_version : Z * Z;
  have_pebble : bool;
  open_log : call_result unit;
  view_task : Z -> option Task;
  stores : report_stores;
  json_load : path -> call_result value;
  auto_run : run_input }.

Definition analysis_dir (cfg : config) (id : string) : path :=
  (analyses_dir cfg ++ [id])%list.

Definition report_json (cfg : config) (id : string) : path :=
  (analyses_dir cfg ++ [id; "reports"; "report.json"])%list.

Definition msg_no_folder : string := "[-] Analysis folder doesn't exist anymore".
Definition msg_no_file : string := "File {} doest exist".

(** [json.load(open(report))]. *)
Definition load_json_file (w : world) (p : path) : M value :=
  ex <- exists_path p ;;
  if (ex : bool) then call (EvJsonLoad p) (json_load w p) else raise OSError.

(** The branch of [main] taken with [--signatures]. *)
Definition main_signatures (cfg : config) (st : stages) (w : world) (a : args)
    (tid : Z) (task : option Task) : M unit :=
  results <- _load_report (stores w) tid true ;;
  results <- (if negb (truthy results) then
                ex <- exists_path (report_json cfg (arg_id a)) ;;
                report <- (if negb ex then
                             match arg_json_report a with
                             | Some jr =>
                                 exj <- exists_path jr ;;
                                 if negb exj then ret jr
                                 else sys_exit (ExitMsg msg_no_file)
                             | None => sys_exit (ExitMsg msg_no_file)
                             end
                           else ret (report_json cfg (arg_id a))) ;;
                load_json_file w report
              else ret results) ;;
  match results with
  | VNone => ret tt
  | _ =>
      match task with
      | None => raise AttributeError
      | Some t =>
          call (EvRunSignatures (task_id t) results (arg_signature_name a))
               (RunSignatures st (arg_signature_name a) results) ;;
          ret tt
      end
  end.

(** What [parser.parse_args()] makes of the command line.  argparse is
    a collaborator: it returns the namespace, or it prints the usage
    with an error and ends the program with status 2 (an unknown option,
    no id, a value that is not an integer), or, for -h, it prints the
    help and ends the program with status 0. *)
Inductive parse_result :=
| Parsed (a : args)
| UsageError
| Help.

Definition msg_usage : string := "usage: process.py".

Definition parse_args (p : parse_result) : M args :=
  match p with
  | Parsed a => ret a
  | UsageError => emit (EvStderr msg_usage) ;; sys_exit (ExitCode 2)
  | Help => emit (EvPrint msg_usage) ;; sys_exit (ExitCode 0)
  end.

(** What [main] does with the namespace. *)
Definition main_body (cfg : config) (st : stages) (w : world) (a : args) : M unit :=
  emit EvInitYara ;;
  emit EvInitModules ;;
  if String.eqb (arg_id a) "auto" then
    init_logging true (open_log w) ;;
    autoprocess cfg
      (mkAutoArgs (arg_parallel a) (arg_failed_processing a) (arg_maxtasksperchild a)
                  (arg_memory_debugging a) (arg_processing_timeout a))
      (auto_run w)
  else
    ex <- exists_path (analysis_dir cfg (arg_id a)) ;;
    if negb ex then sys_exit (ExitMsg msg_no_folder)
    else
      init_logging false (open_log w) ;;
      tid <- match py_int (arg_id a) with
             | Some n => ret n
             | None => raise ValueError
             end ;;
      task <- (emit (EvViewTask tid) ;; ret (view_task w tid)) ;;
      if arg_signatures a then main_signatures cfg st w a tid task
      else process cfg st None None task (arg_report a) false
                   (arg_caperesubmit a) (arg_memory_debugging a).

Definition main (cfg : config) (st : stages) (w : world) (p : parse_result) : M unit :=
  a <- parse_args p ;;
  main_body cfg st w a.

(** The two checks made while the module is imported. *)
Definition module_import (w : world) : M unit :=
  let '(major, minor) := python_version w in
  if (major <? 3) || ((major =? 3) && (minor <? 6)) then
    sys_exit (ExitMsg "You are running an incompatible version of Python, please use >= 3.6")
  else if negb (have_pebble w) then
    sys_exit (ExitMsg "Missed dependency: pip3 install Pebble")
  else ret tt.

(** The script: imports, then [main()] under [except KeyboardInterrupt: pass]. *)
Definition program (cfg : config) (st : stages) (w : world) (p : parse_result) : M unit :=
  module_import w ;;
  try_except (main cfg st w p)
    (fun e => match e with KeyboardInterrupt => ret tt | _ => raise e end).


(** ** Observations on traces *)

(** The task ids handed to the pool, in order. *)
Definition scheduled (tr : list event) : list Z :=
  omap (fun e => match e with EvSchedule _ t _ _ => Some (task_id t) | _ => None end) tr.

(** How many jobs were dispatched. *)
Definition dispatched (tr : list event) : nat := length (scheduled tr).

(** The writes to the task table, in order. *)
Definition status_writes (tr : list event) : list (option Z * status) :=
  omap (fun e => match e with EvSetStatus i st => Some (i, st) | _ => None end) tr.

(** The queries for eligible tasks, in order. *)
Definition store_queries (tr : list event) : list (status * Z) :=
  omap (fun e => match e with EvListTasks st n => Some (st, n) | _ => None end) tr.

(** The stage runs and table writes of [process], in order. *)
Definition pipeline (tr : list event) : list event :=
  omap (fun e => match e with
                 | EvRunProcessing _ _ | EvRunSignatures _ _ _
                 | EvRunReporting _ _ _ | EvSetStatus _ _ => Some e
                 | _ => None
                 end) tr.

(** Events that neither dispatch a job nor resolve one. *)
Definition quiet_event (e : event) : Prop :=
  match e with
  | EvSchedule _ _ _ _ | EvCallback _ _ => False
  | _ => True
  end.

(** Events of a pass that neither asks the task table nor dispatches. *)
Definition idle_event (e : event) : Prop :=
  match e with
  | EvSchedule _ _ _ _ | EvListTasks _ _ | EvViewSample _ => False
  | _ => True
  end.

Definition not_status_write (e : event) : Prop :=
  match e with EvSetStatus _ _ => False | _ => True end.

Definition not_disk_backoff (e : event) : Prop :=
  match e with
  | EvFreeSpaceMonitor _ => False
  | EvSleep n => n <> 60
  | _ => True
  end.

Definition not_callback (e : event) : Prop :=
  match e with EvCallback _ _ => False | _ => True end.

(** The in-flight entries a trace leaves unresolved, replayed from the
    spec's words: a dispatch adds an entry for its job, a resolution
    removes the entry of its future, and dispatching a job that still
    has an entry is a violation ([None]). *)
Definition in_flight_step (acc : option (list (future * Z))) (e : event)
    : option (list (future * Z)) :=
  match acc with
  | None => None
  | Some l =>
      match e with
      | EvSchedule f t _ _ =>
          if bool_decide (task_id t ∈ l.*2) then None
          else Some ((f, task_id t) :: l)
      | EvCallback f _ => Some (filter (fun p => p.1 ≠ f) l)
      | _ => Some l
      end
  end.

Definition in_flight (tr : list event) : option (list (future * Z)) :=
  fold_left in_flight_step tr (Some []).

Definition at_most_one_in_flight (tr : list event) : Prop := is_Some (in_flight tr).

(** ** Relations between the state before and after a computation *)

(** Every state a computation can end in is related to the one it
    started from. *)
Definition steps (R : relation state) {A} (m : M A) : Prop :=
  forall s, R s (m s).2.

(** A projection of the state is left as it was. *)
Definition keeps {B} (proj : state -> B) : relation state :=
  fun s s' => proj s' = proj s.

(** The trace grows by events that satisfy [P]. *)
Definition emits (P : event -> Prop) : relation state :=
  fun s s' => exists new, trace s' = (trace s ++ new)%list /\ Forall P new.

(** No [sys.exit] other than those in [X]. *)
Definition exits_in (X : exit_arg -> Prop) {A} (m : M A) : Prop :=
  forall s x, (m s).1 = Exit x -> X x.

(** The scheduler's own bookkeeping. *)
Definition core (s : state) : gmap nat Z * gmap Z nat * nat * Z :=
  (pending_future_map s, pending_task_id_map s, futures_created s, count s).

(** The two dictionaries are inverse to each other, every pending future
    was created by the pool, and the dictionaries hold exactly the
    entries the trace leaves unresolved. *)
Record WF (s : state) : Prop := mkWF {
  wf_bij : forall f i,
    pending_future_map s !! f = Some i <-> pending_task_id_map s !! i = Some f;
  wf_fresh : forall f i,
    pending_future_map s !! f = Some i -> (f < futures_created s)%nat;
  wf_ghost : exists l,
    in_flight (trace s) = Some l /\
    forall f i, (f, i) ∈ l <-> pending_future_map s !! f = Some i }.

(** [count] is the number of dispatches since [autoprocess] started,
    [d0] being the number of dispatches the trace held before. *)
Definition Cnt (d0 : Z) (s : state) : Prop :=
  0 <= count s /\ Z.of_nat (dispatched (trace s)) = d0 + count s.

(** Delivering completions keeps [WF], never grows the table and leaves
    the dispatch counters alone. *)
Definition shrinks : relation state :=
  fun s s' =>
    (WF s -> WF s' /\ (size (pending_task_id_map s') <= size (pending_task_id_map s))%nat) /\
    count s' = count s /\ scheduled (trace s') = scheduled (trace s).

(** The events of a dispatch up to the registration of the callback. *)
Definition dispatch_head_events (cfg : config) (a : auto_args) (t : Task)
    (sample : option Sample) (f : future) : list event :=
  ([EvLogInfo "Processing analysis data for Task #%d"] ++
   (if negb (String.eqb (category t) "url") then [EvViewSample (sample_id t)] else []) ++
   (if memory_debugging a then [EvGcLog (task_id t) "before"] else []) ++
   [EvSchedule f t (bin_copy_path cfg t <$> sample) (processing_timeout a);
    EvAddDoneCallback f])%list.

(** The events of a dispatch after the completions that arrived
    meanwhile. *)
Definition dispatch_tail_events (cfg : config) (a : auto_args) (t : Task)
    (sample : option Sample) (fs : gset path) : list event :=
  ((if memory_debugging a then [EvGcLog (task_id t) "after"] else []) ++
   match sample with
   | Some smp =>
       if delete_bin_copy cfg && bool_decide (copy_origin_path cfg smp ∈ fs)
       then [EvUnlink (copy_origin_path cfg smp)] else []
   | None => []
   end)%list.

(** The state once the callback is registered. *)
Definition dispatch_head_state (cfg : config) (a : auto_args) (t : Task)
    (sample : option Sample) (s : state) : state :=
  mkState (<[futures_created s := task_id t]> (pending_future_map s))
          (<[task_id t := futures_created s]> (pending_task_id_map s))
          (S (futures_created s)) (count s) (pool s) (files s) (rlimit_as s)
          (trace s ++ dispatch_head_events cfg a t sample (futures_created s)).

(** What the rest of the loop body makes of the state the completions
    left. *)
Definition dispatch_tail_state (cfg : config) (a : auto_args) (t : Task)
    (sample : option Sample) (s : state) : state :=
  mkState (pending_future_map s) (pending_task_id_map s) (futures_created s)
          (count s + 1) (pool s)
          (match sample with
           | Some smp =>
               if delete_bin_copy cfg && bool_decide (copy_origin_path cfg smp ∈ files s)
               then files s ∖ {[copy_origin_path cfg smp]} else files s
           | None => files s
           end)
          (rlimit_as s)
          (trace s ++ dispatch_tail_events cfg a t sample (files s)).

(** The events of a completion: the callback and what it logs and
    writes. *)
Definition completion_event (e : event) : Prop :=
  match e with
  | EvCallback _ _ | EvLogInfo _ | EvLogError _ | EvSetStatus _ _ => True
  | _ => False
  end.

(** The completions a trace delivers, in order. *)
Definition callbacks (tr : list event) : list (future * resolution) :=
  omap (fun e => match e with EvCallback f r => Some (f, r) | _ => None end) tr.

(** [sample] is what the sample lookup of a dispatch yields for [t]. *)
Definition sample_for (inp : iter_input) (t : Task) (sample : option Sample) : Prop :=
  if negb (String.eqb (category t) "url")
  then exists smp, it_view_sample inp (sample_id t) = Some smp /\ sample = Some smp
  else sample = None.

(** An invariant that holds before still holds after. *)
Definition maintains (I : state -> Prop) : relation state :=
  fun s s' => I s -> I s'.

(** A pass of the loop keeps [WF], adds at most one entry to the table
    and at most one dispatch, counted by [count]. *)
Definition advances (s s' : state) : Prop :=
  WF s' /\
  (size (pending_task_id_map s') <= S (size (pending_task_id_map s)))%nat /\
  ((count s' = count s /\ scheduled (trace s') = scheduled (trace s)) \/
   (count s' = count s + 1 /\
    exists i, scheduled (trace s') = (scheduled (trace s) ++ [i])%list)).

(** Pre- and postcondition on the state, whatever the outcome. *)
Definition hoare {A} (P : state -> Prop) (m : M A) (Q : state -> Prop) : Prop :=
  forall s, P s -> Q (m s).2.

(** The bookkeeping invariant with explicit bounds on the table size
    and on [count]. *)
Definition J (b c d0 : Z) (s : state) : Prop :=
  WF s /\ Z.of_nat (size (pending_task_id_map s)) <= b /\ count s <= c /\ Cnt d0 s.

(** The invariant of the [while] loop. *)
Definition LInv (cfg : config) (a : auto_args) (d0 : Z) (s : state) : Prop :=
  WF s /\ Z.of_nat (size (pending_task_id_map s)) <= Z.max 0 (parallel a) /\
  Cnt d0 s /\
  (max_analysis_count cfg = 0 \/ count s <= Z.max 0 (max_analysis_count cfg)).

(** The candidate the spec asks for: the first task returned by the
    query whose id has no entry in the in-flight table. *)
Definition first_not_in_flight (table : gmap Z nat) (tasks : list Task) : option Task :=
  List.find (fun t => bool_decide (table !! task_id t = None)) tasks.

(** What the callback logs and writes for a resolution. *)
Definition completion_events (r : resolution) (tid : option Z) : list event :=
  match r with
  | ResSuccess => [EvLogInfo "Task #%d: reports generation completed"]
  | ResTimeout =>
      [EvLogError "Processing Timeout %s - Task ID: %d";
       EvSetStatus tid TASK_FAILED_PROCESSING]
  | ResProcessExpired | ResException =>
      [EvLogError "Exception when processing task %s: %s";
       EvSetStatus tid TASK_FAILED_PROCESSING]
  end.

(** ** Sample inputs *)

Definition ex_cfg : config := mkConfig "/opt/CAPEv2" 2 0 false true.
Definition ex_args : auto_args := mkAutoArgs 1 false 7 false 300.
Definition ex_task_A : Task := mkTask 1 "file" "/tmp/a.exe" (Some 10).
Definition ex_task_B : Task := mkTask 2 "file" "/tmp/b.exe" (Some 11).
Definition ex_sample : Sample := mkSample "9f86d081884c7d65".
Definition ex_iter : iter_input :=
  mkIter [] (Ret (false, 100)) [] (Ret [ex_task_A; ex_task_B])
         (fun _ => Some ex_sample) (Ret tt) [].
Definition ex_run : run_input := mkRun "Darwin" None [ex_iter] [] None.
Definition ex_files : gset path := {[ copy_origin_path ex_cfg ex_sample ]}.
Definition ex_initial : state := initial_state ex_files (-1, -1).
(** One pass done: job 1 is in flight under future 0. *)
Definition ex_state : state := (autoprocess ex_cfg ex_args ex_run ex_initial).2.



(** A pass during which the disk is reported full, under a configuration
    that asks for 2048 MB of free space. *)
Definition ex_cfg_space : config := mkConfig "/opt/CAPEv2" 0 2048 false true.

(** A configuration without a limit on the number of jobs. *)
Definition ex_cfg_unbounded : config := mkConfig "/opt/CAPEv2" 0 0 false true.
(** A run of three passes, each offering jobs 1 and 2, for three workers. *)
Definition ex_args_3 : auto_args := mkAutoArgs 3 false 7 false 300.
Definition ex_task_C : Task := mkTask 3 "url" "http://example.org/" None.
Definition ex_iter_3 : iter_input :=
  mkIter [] (Ret (false, 100)) [] (Ret [ex_task_A; ex_task_B; ex_task_C])
         (fun _ => Some ex_sample) (Ret tt) [].
Definition ex_run_3 : run_input :=
  mkRun "Darwin" None [ex_iter_3; ex_iter_3; ex_iter_3] [] None.

(** Stages that succeed and record their run in the container. *)
Definition ex_stages : stages :=
  mkStages
    (fun r => Ret (VDict [("processed", r)]))
    (fun _ r => Ret (VDict [("signed", r)]))
    (fun _ r => Ret r).

(** [reprocess] as [process] hands it to the reporting stage. *)
Definition reprocess_flag (report auto capeproc : bool) : bool :=
  if auto || capeproc then false else report.

(** A line of /proc/meminfo that is not blank and does not describe
    [MemAvailable]. *)
Definition other_meminfo_line (line : string) : bool :=
  match split line with
  | [] => false
  | w0 :: _ => negb (String.eqb w0 "MemAvailable:")
  end.

(** /proc/meminfo of a kernel that does not report [MemAvailable]. *)
Definition ex_meminfo_old : list string :=
  ["MemTotal:       16384256 kB"; "MemFree:         8123456 kB";
   "Buffers:          204800 kB"; "Cached:          2048000 kB"].

(** /proc/meminfo with 4000000 kB available. *)
Definition ex_meminfo : list string :=
  ["MemTotal:       16384256 kB"; "MemFree:         8123456 kB";
   "MemAvailable:    4000000 kB"; "Buffers:          204800 kB"].

(** A pass during which the free-space monitor fails. *)
Definition ex_iter_monitor_fails : iter_input :=
  mkIter [] (Raise OSError) [] (Ret [ex_task_A]) (fun _ => Some ex_sample) (Ret tt) [].

(** ** The exit situations of the program *)

Definition msg_log_denied : string :=
  "Probably executed with wrong user, PermissionError to create/access log".
Definition msg_python : string :=
  "You are running an incompatible version of Python, please use >= 3.6".
Definition msg_pebble : string := "Missed dependency: pip3 install Pebble".









(** No report store is enabled. *)
Definition no_report_store (rs : report_stores) : Prop :=
  mongodb_enabled rs = false /\
  (elasticsearchdb_enabled rs && negb (elasticsearchdb_searchonly rs)) = false.

Definition ex_args_replay : args :=
  mkArgs "1" false false false 1 false 7 false 300 true None None.
Definition ex_state_replay : state :=
  initial_state {[ analysis_dir ex_cfg "1" ]} (-1, -1).


(** A pass in which the job that is dispatched fails before the loop
    body goes on. *)
Definition ex_iter_resolved : iter_input :=
  mkIter [] (Ret (false, 100)) [] (Ret [ex_task_A; ex_task_B])
         (fun _ => Some ex_sample) (Ret tt) [(0%nat, ResException)].

(** Two passes done: jobs 1 and 2 are in flight under futures 0 and 1. *)
Definition ex_state_2 : state := (autoprocess ex_cfg ex_args_3 ex_run_3 ex_initial).2.

(** The events of the scheduler, with the arguments it gives them. *)
Definition scheduler_event (cfg : config) (a : auto_args) (e : event) : Prop :=
  match e with
  | EvListTasks st n => st = source_status a /\ n = parallel a
  | EvSchedule _ t cp tmo =>
      tmo = processing_timeout a /\
      if String.eqb (category t) "url" then cp = None
      else exists smp, cp = Some (bin_copy_path cfg t smp)
  | EvSetStatus _ st => st = TASK_FAILED_PROCESSING
  | EvUnlink p => delete_bin_copy cfg = true /\ exists smp, p = copy_origin_path cfg smp
  | EvFreeSpaceMonitor p => p = analyses_dir cfg /\ freespace cfg <> 0
  | EvPoolCreate n m => n = parallel a /\ m = maxtasksperchild a
  | EvRunProcessing _ _ | EvRunSignatures _ _ _ | EvRunReporting _ _ _
  | EvInitYara | EvInitModules | EvOpenLog _ | EvViewTask _
  | EvMongoFindOne _ | EvMongoCalls | EvMongoFind _ | EvEsSearch _ | EvJsonLoad _ => False
  | _ => True
  end.

(** The arguments of the calls of [pool.schedule], in order. *)
Definition schedule_calls (tr : list event) : list (Task * option path * Z) :=
  omap (fun e => match e with EvSchedule _ t cp tmo => Some (t, cp, tmo) | _ => None end) tr.

(** The files of the later state are among those of the earlier one, and
    the ones that are gone are origin copies, deleted under
    [delete_bin_copy]. *)
Definition deletes_origin_copies (cfg : config) : relation state :=
  fun s s' =>
    files s' ⊆ files s /\
    forall p, p ∈ files s -> p ∉ files s' ->
      delete_bin_copy cfg = true /\ exists smp, p = copy_origin_path cfg smp.

(** A pass with nothing to do, interrupted from the keyboard during its
    sleep. *)
Definition ex_iter_interrupt : iter_input :=
  mkIter [] (Ret (false, 100)) [] (Ret []) (fun _ => Some ex_sample) (Raise KeyboardInterrupt) [].
Definition ex_run_interrupt : run_input := mkRun "Darwin" None [ex_iter_interrupt] [] None.

(** The life of the pool as the trace shows it: creation, exit of the
    [with] block, [close] and [join]. *)
Definition pool_events (tr : list event) : list event :=
  omap (fun e => match e with
                 | EvPoolCreate _ _ | EvPoolExit | EvPoolClose | EvPoolJoin => Some e
                 | _ => None
                 end) tr.

Definition not_pool_event (e : event) : Prop :=
  match e with
  | EvPoolCreate _ _ | EvPoolExit | EvPoolClose | EvPoolJoin => False
  | _ => True
  end.

(** Report stores with MongoDB off and an ElasticSearch that fails the
    request. *)
Definition ex_stores_es_error : report_stores :=
  mkStores false (Ret None) (fun v => Ret v) (Ret VNone) true false (Raise ESRequestError).
(** A stored report, as [json.load] returns it. *)
Definition ex_report : value := VDict [("info", VDict [("id", VInt 1)])].
Definition ex_world_es_error : world :=
  mkWorld (3, 10) true (Ret tt) (fun _ => Some ex_task_A) ex_stores_es_error
          (fun _ => Ret ex_report) ex_run.
(** The job directory and its report.json exist. *)
Definition ex_state_report : state :=
  initial_state {[ analysis_dir ex_cfg "1"; report_json ex_cfg "1" ]} (-1, -1).
(** Replay with [--json-report /tmp/r.json]. *)
Definition ex_args_replay_jr : args :=
  mkArgs "1" false false false 1 false 7 false 300 true None (Some ["/tmp/r.json"]).
(** MongoDB is enabled and holds no document of the job. *)
Definition ex_stores_mongo_empty : report_stores :=
  mkStores true (Ret None) (fun v => Ret v) (Ret VNone) true false (Ret [ex_report]).
Definition ex_world_mongo_empty : world :=
  mkWorld (3, 10) true (Ret tt) (fun _ => Some ex_task_A) ex_stores_mongo_empty
          (fun _ => Ret ex_report) ex_run.

(** What a replay of signatures started in state [s] can append to the
    trace: a query of the store that is configured, the load of the
    job's report.json, which exists, and the run of the signatures. *)
Definition replay_event (cfg : config) (w : world) (a : args) (s : state) (e : event) : Prop :=
  match e with
  | EvMongoFindOne _ | EvMongoCalls | EvMongoFind _ => mongodb_enabled (stores w) = true
  | EvEsSearch _ => mongodb_enabled (stores w) = false
  | EvJsonLoad p => p = report_json cfg (arg_id a) /\ p ∈ files s
  | EvPrint _ | EvRunSignatures _ _ _ => True
  | _ => False
  end.

Ltac monad_head :=
  unfold call, gc_log, unlink, exists_path, sleep, pool_method, pool_schedule,
    del_pending_future, del_pending_task, emit.

(** * Properties *)

(** ** The relations are preorders, and computations compose *)

Lemma keeps_preorder {B} (proj : state -> B) : PreOrder (keeps proj).
Proof.
  split.
  - intros s. reflexivity.
  - intros s1 s2 s3 H12 H23. unfold keeps in *. congruence.
Qed.

Lemma emits_preorder (P : event -> Prop) : PreOrder (emits P).
Proof.
  split.
  - intros s. exists []. split; [by rewrite app_nil_r | constructor].
  - intros s1 s2 s3 (n1 & E1 & F1) (n2 & E2 & F2).
    exists (n1 ++ n2)%list. split.
    + by rewrite E2, E1, app_assoc.
    + by apply Forall_app.
Qed.

Lemma shrinks_preorder : PreOrder shrinks.
Proof.
  split.
  - intros s. split; [intros W; split; [exact W | lia] | split; reflexivity].
  - intros s1 s2 s3 (W12 & C12 & D12) (W23 & C23 & D23).
    split; [| split; congruence].
    intros W1. destruct (W12 W1) as [W2 L12].
    destruct (W23 W2) as [W3 L23]. split; [exact W3 | lia].
Qed.

Lemma maintains_preorder (I : state -> Prop) : PreOrder (maintains I).
Proof.
  split.
  - intros s H. exact H.
  - intros s1 s2 s3 H12 H23 H. auto.
Qed.

#[local] Existing Instances keeps_preorder emits_preorder shrinks_preorder maintains_preorder.

Section Steps.
Context (R : relation state) `{!PreOrder R}.

Lemma steps_ret {A} (a : A) : steps R (ret a).
Proof. intros s. reflexivity. Qed.

Lemma steps_raise {A} (e : exn) : steps R (@raise A e).
Proof. intros s. reflexivity. Qed.

Lemma steps_sys_exit {A} (x : exit_arg) : steps R (@sys_exit A x).
Proof. intros s. reflexivity. Qed.

Lemma steps_gets {A} (f : state -> A) : steps R (gets f).
Proof. intros s. reflexivity. Qed.

Lemma steps_modify (f : state -> state) : (forall s, R s (f s)) -> steps R (modify f).
Proof. intros H s. apply H. Qed.

Lemma steps_bind {A B} (m : M A) (k : A -> M B) :
  steps R m -> (forall a, steps R (k a)) -> steps R (bind m k).
Proof.
  intros Hm Hk s. unfold bind. specialize (Hm s).
  destruct (m s) as [[a|e|x|] s1]; simpl in *; auto.
  etransitivity; [exact Hm | apply Hk].
Qed.

Lemma steps_try_except {A} (body : M A) (h : exn -> M A) :
  steps R body -> (forall e, steps R (h e)) -> steps R (try_except body h).
Proof.
  intros Hb Hh s. unfold try_except. specialize (Hb s).
  destruct (body s) as [[a|e|x|] s1]; simpl in *; auto.
  etransitivity; [exact Hb | apply Hh].
Qed.

Lemma steps_try_finally {A} (body : M A) (fin : M unit) :
  steps R body -> steps R fin -> steps R (try_finally body fin).
Proof.
  intros Hb Hf s. unfold try_finally. specialize (Hb s).
  destruct (body s) as [[a|e|x|] s1]; simpl in *; auto;
    specialize (Hf s1); destruct (fin s1) as [[[]|e'|x'|] s2]; simpl in *;
    etransitivity; eauto.
Qed.

End Steps.

Ltac preorder_side := try (match goal with |- PreOrder _ => apply _ end).

Ltac steps_go leaf :=
  repeat first
    [ solve [leaf]
    | apply steps_ret; preorder_side; fail
    | apply steps_raise; preorder_side; fail
    | apply steps_sys_exit; preorder_side; fail
    | apply steps_gets; preorder_side; fail
    | apply steps_bind; preorder_side; [| intros ?]
    | apply steps_try_except; preorder_side; [| intros ?]
    | apply steps_try_finally; preorder_side
    | apply steps_modify; intros ?; solve [leaf]
    | match goal with
      | |- steps _ (if ?b then _ else _) => destruct b
      | |- steps _ (match ?x with _ => _ end) => destruct x
      end
    | progress monad_head ].

(** ** Leaves: what a single effect does to each relation *)

Lemma emits_emit (P : event -> Prop) (e : event) : P e -> steps (emits P) (emit e).
Proof.
  intros HP s. exists [e]. split; [reflexivity | by constructor].
Qed.

Lemma emits_silent (P : event -> Prop) (f : state -> state) :
  (forall s, trace (f s) = trace s) -> steps (emits P) (modify f).
Proof.
  intros H s. exists []. simpl. rewrite H, app_nil_r. by split.
Qed.

Lemma emits_weaken (P Q : event -> Prop) {A} (m : M A) :
  (forall e, P e -> Q e) -> steps (emits P) m -> steps (emits Q) m.
Proof.
  intros HPQ Hm s. destruct (Hm s) as (new & E & F).
  exists new. split; [exact E | eapply Forall_impl; eauto].
Qed.

Ltac emits_leaf :=
  first [ apply emits_emit; simpl; solve [auto | lia | congruence]
        | apply emits_silent; intros ?; reflexivity ].

Ltac keeps_leaf := reflexivity.

(** ** Observations distribute over the growth of the trace *)

Lemma scheduled_app (t1 t2 : list event) :
  scheduled (t1 ++ t2) = (scheduled t1 ++ scheduled t2)%list.
Proof. apply omap_app. Qed.

Lemma status_writes_app (t1 t2 : list event) :
  status_writes (t1 ++ t2) = (status_writes t1 ++ status_writes t2)%list.
Proof. apply omap_app. Qed.

Lemma store_queries_app (t1 t2 : list event) :
  store_queries (t1 ++ t2) = (store_queries t1 ++ store_queries t2)%list.
Proof. apply omap_app. Qed.

Lemma pipeline_app (t1 t2 : list event) :
  pipeline (t1 ++ t2) = (pipeline t1 ++ pipeline t2)%list.
Proof. apply omap_app. Qed.

Lemma scheduled_quiet (new : list event) :
  Forall quiet_event new -> scheduled new = [].
Proof.
  induction 1 as [| e new He _ IH]; [reflexivity |].
  unfold scheduled in *. simpl. destruct e; simpl in *; try exact IH. contradiction.
Qed.

Lemma scheduled_idle (new : list event) :
  Forall idle_event new -> scheduled new = [].
Proof.
  induction 1 as [| e new He _ IH]; [reflexivity |].
  unfold scheduled in *. simpl. destruct e; simpl in *; try exact IH. contradiction.
Qed.

Lemma store_queries_idle (new : list event) :
  Forall idle_event new -> store_queries new = [].
Proof.
  induction 1 as [| e new He _ IH]; [reflexivity |].
  unfold store_queries in *. simpl. destruct e; simpl in *; try exact IH. contradiction.
Qed.


Lemma in_flight_app (t1 t2 : list event) :
  in_flight (t1 ++ t2) = fold_left in_flight_step t2 (in_flight t1).
Proof. unfold in_flight. apply fold_left_app. Qed.

Lemma in_flight_quiet (new : list event) (acc : option (list (future * Z))) :
  Forall quiet_event new -> fold_left in_flight_step new acc = acc.
Proof.
  intros H. revert acc. induction H as [| e new He _ IH]; intros acc; [reflexivity |].
  simpl. rewrite IH. destruct acc as [l |]; [| reflexivity].
  destruct e; simpl in *; try reflexivity; contradiction.
Qed.

(** ** Quiet computations keep the invariants *)

Lemma WF_quiet (s s' : state) :
  keeps core s s' -> emits quiet_event s s' -> WF s -> WF s'.
Proof.
  unfold keeps, core. intros Hc (new & Htr & Hq) [Hb Hf (l & Hl & Hg)].
  injection Hc as Hpfm Hptm Hfc Hcnt.
  split.
  - intros f i. rewrite Hpfm, Hptm. apply Hb.
  - intros f i. rewrite Hpfm, Hfc. apply Hf.
  - exists l. split.
    + rewrite Htr, in_flight_app, in_flight_quiet; auto.
    + intros f i. rewrite Hpfm. apply Hg.
Qed.

Lemma shrinks_quiet (s s' : state) :
  keeps core s s' -> emits quiet_event s s' -> shrinks s s'.
Proof.
  intros Hc He. split; [| split].
  - intros W. split; [eapply WF_quiet; eauto |].
    unfold keeps, core in Hc. injection Hc as _ Hptm _ _. rewrite Hptm. lia.
  - unfold keeps, core in Hc. by injection Hc.
  - destruct He as (new & Htr & Hq).
    by rewrite Htr, scheduled_app, (scheduled_quiet new Hq), app_nil_r.
Qed.

(** ** Completions and dispatches *)

Lemma deliver1_run (fr : future * resolution) (s : state) :
  exists new,
    (deliver1 fr s).1 = Ok tt /\
    trace (deliver1 fr s).2 = (trace s ++ EvCallback fr.1 fr.2 :: new)%list /\
    Forall quiet_event new /\ Forall idle_event new /\
    status_writes new =
      match fr.2 with
      | ResSuccess => []
      | _ => [(pending_future_map s !! fr.1, TASK_FAILED_PROCESSING)]
      end /\
    futures_created (deliver1 fr s).2 = futures_created s /\
    count (deliver1 fr s).2 = count s /\
    pool (deliver1 fr s).2 = pool s /\
    files (deliver1 fr s).2 = files s /\
    rlimit_as (deliver1 fr s).2 = rlimit_as s /\
    match pending_future_map s !! fr.1 with
    | None =>
        pending_future_map (deliver1 fr s).2 = pending_future_map s /\
        pending_task_id_map (deliver1 fr s).2 = pending_task_id_map s
    | Some i =>
        pending_future_map (deliver1 fr s).2 = delete fr.1 (pending_future_map s) /\
        pending_task_id_map (deliver1 fr s).2 =
          match pending_task_id_map s !! i with
          | Some _ => delete i (pending_task_id_map s)
          | None => pending_task_id_map s
          end
    end.
Proof.
  destruct fr as [f r]. simpl.
  unfold deliver1, processing_finished, try_except, del_pending_future, del_pending_task,
    bind, emit, modify, gets, raise, ret. simpl.
  destruct (pending_future_map s !! f) as [i |] eqn:Ef.
  - destruct r; simpl; rewrite ?Ef; simpl;
      destruct (pending_task_id_map s !! i) eqn:Ei; simpl;
      (eexists; split; [reflexivity |];
       split; [simpl; rewrite <- ?app_assoc; simpl; reflexivity |];
       repeat split; simpl; auto; repeat constructor).
  - destruct r; simpl; rewrite ?Ef; simpl;
      (eexists; split; [reflexivity |];
       split; [simpl; rewrite <- ?app_assoc; simpl; reflexivity |];
       repeat split; simpl; auto; repeat constructor).
Qed.

Lemma in_flight_callback (tr new : list event) (l : list (future * Z)) (f : future) (r : resolution) :
  in_flight tr = Some l -> Forall quiet_event new ->
  in_flight (tr ++ EvCallback f r :: new) = Some (filter (fun p => p.1 ≠ f) l).
Proof.
  intros Hl Hq. rewrite in_flight_app, Hl. simpl. by rewrite in_flight_quiet.
Qed.

Lemma deliver1_shrinks (fr : future * resolution) : steps shrinks (deliver1 fr).
Proof.
  intros s.
  destruct (deliver1_run fr s) as (new & _ & Htr & Hq & _ & _ & Hfc & Hc & _ & _ & _ & Hmaps).
  destruct fr as [f r]. simpl in *.
  split; [| split; [exact Hc |]].
  - intros [Hb Hf (l & Hl & Hg)].
    destruct (pending_future_map s !! f) as [i |] eqn:Ef.
    + destruct Hmaps as [Hp Ht].
      assert (Ei : pending_task_id_map s !! i = Some f) by (by apply Hb).
      rewrite Ei in Ht. split; [split |].
      * intros f' i'. rewrite Hp, Ht, !lookup_delete_Some. split.
        -- intros [Hne Hl']. split; [| by apply Hb].
           intros ->. apply Hb in Hl'. congruence.
        -- intros [Hne Hl']. split; [| by apply Hb].
           intros ->. apply Hb in Hl'. congruence.
      * intros f' i'. rewrite Hp, Hfc, lookup_delete_Some. intros [_ H]. eauto.
      * exists (filter (fun p => p.1 ≠ f) l). split.
        -- rewrite Htr. by apply in_flight_callback.
        -- intros f' i'. rewrite list_elem_of_filter, Hp, lookup_delete_Some, Hg.
           simpl. split; intros [H1 H2]; (split; [congruence | exact H2]).
      * rewrite Ht, map_size_delete_Some by eauto. lia.
    + destruct Hmaps as [Hp Ht]. split; [split |].
      * intros f' i'. rewrite Hp, Ht. apply Hb.
      * intros f' i'. rewrite Hp, Hfc. apply Hf.
      * exists (filter (fun p => p.1 ≠ f) l). split.
        -- rewrite Htr. by apply in_flight_callback.
        -- intros f' i'. rewrite list_elem_of_filter, Hp, Hg. simpl.
           split; [by intros [_ H] |]. intros H. split; [congruence | done].
      * rewrite Ht. lia.
  - rewrite Htr, scheduled_app. simpl.
    change (scheduled (EvCallback f r :: new)) with (scheduled new).
    by rewrite (scheduled_quiet new Hq), app_nil_r.
Qed.

Lemma deliver_shrinks (l : list (future * resolution)) : steps shrinks (deliver l).
Proof.
  induction l as [| fr l IH]; simpl.
  - apply steps_ret, _.
  - apply steps_bind; [apply _ | apply deliver1_shrinks | intros _; exact IH].
Qed.

Section Emits.
Context (P : event -> Prop).
Hypothesis P_callback : forall f r, P (EvCallback f r).
Hypothesis P_info : forall m, P (EvLogInfo m).
Hypothesis P_error : forall m, P (EvLogError m).
Hypothesis P_status : forall i st, P (EvSetStatus i st).

Lemma deliver1_emits (fr : future * resolution) : steps (emits P) (deliver1 fr).
Proof.
  unfold deliver1, processing_finished.
  steps_go ltac:(first [ apply emits_emit; auto
                       | apply emits_silent; intros ?; reflexivity ]).
Qed.

Lemma deliver_emits (l : list (future * resolution)) : steps (emits P) (deliver l).
Proof.
  induction l as [| fr l IH]; simpl.
  - apply steps_ret, _.
  - apply steps_bind; [apply _ | apply deliver1_emits | intros _; exact IH].
Qed.

End Emits.

Lemma deliver_idle (l : list (future * resolution)) : steps (emits idle_event) (deliver l).
Proof. by apply deliver_emits. Qed.

Lemma emits_between (P : event -> Prop) (s s' : state) (new : list event) :
  trace s' = (trace s ++ new)%list -> emits P s s' -> Forall P new.
Proof.
  intros Htr (new' & Htr' & Hall). rewrite Htr in Htr'.
  apply app_inv_head in Htr'. by subst new'.
Qed.

Lemma callbacks_app (t1 t2 : list event) :
  callbacks (t1 ++ t2) = (callbacks t1 ++ callbacks t2)%list.
Proof. apply omap_app. Qed.

Lemma callbacks_quiet (new : list event) : Forall quiet_event new -> callbacks new = [].
Proof.
  induction 1 as [| e new He _ IH]; [reflexivity |].
  unfold callbacks in *. simpl. destruct e; simpl in *; try exact IH; contradiction.
Qed.

(** Delivering completions appends their callbacks, in order, and
    touches no file. *)
Lemma deliver_trace (l : list (future * resolution)) (s : state) :
  exists new,
    trace (deliver l s).2 = (trace s ++ new)%list /\
    callbacks new = l /\
    files (deliver l s).2 = files s.
Proof.
  revert s. induction l as [| [f r] l IH]; intros s.
  - exists []. cbn [deliver ret snd]. by rewrite app_nil_r.
  - destruct (deliver1_run (f, r) s)
      as (new1 & Hok & Htr & Hq & _ & _ & _ & _ & _ & Hfiles & _).
    destruct (IH (deliver1 (f, r) s).2) as (new2 & Htr2 & Hcb & Hf2).
    exists (EvCallback f r :: new1 ++ new2)%list.
    change (deliver ((f, r) :: l) s) with (bind (deliver1 (f, r)) (fun _ => deliver l) s).
    unfold bind. destruct (deliver1 (f, r) s) as [r1 s1]. cbn [fst snd] in *. subst r1.
    split; [| split].
    + rewrite Htr2, Htr. cbn [fst snd]. by rewrite <- app_assoc.
    + change (callbacks (EvCallback f r :: new1 ++ new2))
        with ((f, r) :: callbacks (new1 ++ new2)).
      by rewrite callbacks_app, (callbacks_quiet new1 Hq), Hcb.
    + by rewrite Hf2, Hfiles.
Qed.

Lemma deliver_ok (l : list (future * resolution)) (s : state) : (deliver l s).1 = Ok tt.
Proof.
  revert s. induction l as [| fr l IH]; intros s; [reflexivity |].
  simpl. unfold bind. destruct (deliver1_run fr s) as (new & Hr & _).
  destruct (deliver1 fr s) as [r s1]. simpl in Hr. subst r. apply IH.
Qed.

Lemma dispatch_run (cfg : config) (a : auto_args) (inp : iter_input) (t : Task)
    (sample : option Sample) (s : state) :
  sample_for inp t sample ->
  dispatch cfg a inp t s =
    (Ok tt,
     dispatch_tail_state cfg a t sample
       (deliver (it_resolved inp) (dispatch_head_state cfg a t sample s)).2).
Proof.
  unfold sample_for, dispatch, dispatch_head_state, dispatch_tail_state,
    dispatch_head_events, dispatch_tail_events.
  destruct (negb (String.eqb (category t) "url")) eqn:Hu.
  - intros (smp & Hv & ->).
    destruct s as [pfm ptm fc cnt pl fs rl tr].
    cbv [bind emit modify gets raise ret gc_log pool_schedule exists_path unlink
         set_pfm set_ptm set_files set_count set_futures_created add_event
         pending_future_map pending_task_id_map futures_created count pool files
         rlimit_as trace fmap option_fmap option_map].
    rewrite Hv.
    cbv beta iota.
    generalize (copy_origin_path cfg smp). intros origin.
    destruct (memory_debugging a); rewrite <- ?app_assoc; cbn [app];
      match goal with
      | |- context [deliver ?l ?st] =>
          pose proof (deliver_ok l st) as Hok;
          destruct (deliver l st) as [rd [pfm2 ptm2 fc2 cnt2 pl2 fs2 rl2 tr2]]
      end;
      cbn [fst] in Hok; subst rd; cbn [snd];
      destruct (delete_bin_copy cfg);
      cbv [andb]; try destruct (bool_decide (origin ∈ fs2));
      rewrite <- ?app_assoc; cbn [app]; rewrite ?app_nil_r; reflexivity.
  - intros ->.
    destruct s as [pfm ptm fc cnt pl fs rl tr].
    cbv [bind emit modify gets raise ret gc_log pool_schedule exists_path unlink
         set_pfm set_ptm set_files set_count set_futures_created add_event
         pending_future_map pending_task_id_map futures_created count pool files
         rlimit_as trace fmap option_fmap option_map].
    destruct (memory_debugging a); rewrite <- ?app_assoc; cbn [app];
      match goal with
      | |- context [deliver ?l ?st] =>
          pose proof (deliver_ok l st) as Hok;
          destruct (deliver l st) as [rd [pfm2 ptm2 fc2 cnt2 pl2 fs2 rl2 tr2]]
      end;
      cbn [fst] in Hok; subst rd; cbn [snd];
      rewrite <- ?app_assoc; cbn [app]; rewrite ?app_nil_r; reflexivity.
Qed.

(** The trace of a dispatch: what precedes the registration of the
    callback, the completions that arrived, the rest of the body. *)
Lemma dispatch_trace (cfg : config) (a : auto_args) (inp : iter_input) (t : Task)
    (sample : option Sample) (s : state) :
  sample_for inp t sample ->
  exists arrived,
    trace (deliver (it_resolved inp) (dispatch_head_state cfg a t sample s)).2 =
      (trace (dispatch_head_state cfg a t sample s) ++ arrived)%list /\
    trace (dispatch cfg a inp t s).2 =
      (trace s ++ dispatch_head_events cfg a t sample (futures_created s) ++ arrived ++
       dispatch_tail_events cfg a t sample (files s))%list /\
    callbacks arrived = it_resolved inp /\
    files (deliver (it_resolved inp) (dispatch_head_state cfg a t sample s)).2 = files s.
Proof.
  intros Hs.
  destruct (deliver_trace (it_resolved inp) (dispatch_head_state cfg a t sample s))
    as (arrived & Htr & Hcb & Hf).
  exists arrived. split; [exact Htr |]. split; [| split; [exact Hcb | exact Hf]].
  rewrite (dispatch_run cfg a inp t sample s Hs). cbn [snd].
  unfold dispatch_tail_state. cbn [trace]. rewrite Htr, Hf.
  unfold dispatch_head_state. cbn [trace files]. by rewrite <- !app_assoc.
Qed.

Lemma dispatch_emits (P : event -> Prop) (cfg : config) (a : auto_args) (inp : iter_input)
    (t : Task) (sample : option Sample) (s : state) :
  sample_for inp t sample ->
  Forall P (dispatch_head_events cfg a t sample (futures_created s)) ->
  Forall P (dispatch_tail_events cfg a t sample (files s)) ->
  steps (emits P) (deliver (it_resolved inp)) ->
  emits P s (dispatch cfg a inp t s).2.
Proof.
  intros Hs Hhead Htail Hdel.
  destruct (dispatch_trace cfg a inp t sample s Hs) as (arrived & Htr1 & Htr & _ & _).
  eexists. split; [exact Htr |].
  apply Forall_app. split; [exact Hhead |]. apply Forall_app. split; [| exact Htail].
  exact (emits_between P _ _ arrived Htr1 (Hdel _)).
Qed.

Lemma dispatch_head_events_split (cfg : config) (a : auto_args) (t : Task)
    (sample : option Sample) (f : future) :
  exists pre,
    dispatch_head_events cfg a t sample f =
      (pre ++ [EvSchedule f t (bin_copy_path cfg t <$> sample) (processing_timeout a);
               EvAddDoneCallback f])%list /\
    pre = ([EvLogInfo "Processing analysis data for Task #%d"] ++
           (if negb (String.eqb (category t) "url") then [EvViewSample (sample_id t)]
            else []) ++
           (if memory_debugging a then [EvGcLog (task_id t) "before"] else []))%list /\
    Forall quiet_event pre /\
    Forall not_status_write (dispatch_head_events cfg a t sample f) /\
    Forall not_callback (dispatch_head_events cfg a t sample f) /\
    Forall not_disk_backoff (dispatch_head_events cfg a t sample f).
Proof.
  eexists. split; [| split; [reflexivity |]].
  - unfold dispatch_head_events. by rewrite <- !app_assoc.
  - unfold dispatch_head_events.
    destruct (negb (String.eqb (category t) "url")), (memory_debugging a);
      repeat split; repeat constructor.
Qed.

Lemma dispatch_tail_events_quiet (cfg : config) (a : auto_args) (t : Task)
    (sample : option Sample) (fs : gset path) :
  Forall quiet_event (dispatch_tail_events cfg a t sample fs) /\
  Forall not_status_write (dispatch_tail_events cfg a t sample fs) /\
  Forall not_callback (dispatch_tail_events cfg a t sample fs) /\
  Forall not_disk_backoff (dispatch_tail_events cfg a t sample fs).
Proof.
  unfold dispatch_tail_events.
  destruct (memory_debugging a), sample as [smp |];
    try destruct (delete_bin_copy cfg && bool_decide (copy_origin_path cfg smp ∈ fs));
    repeat split; repeat constructor.
Qed.

Lemma scheduled_dispatch_head (cfg : config) (a : auto_args) (t : Task)
    (sample : option Sample) (f : future) :
  scheduled (dispatch_head_events cfg a t sample f) = [task_id t].
Proof.
  destruct (dispatch_head_events_split cfg a t sample f) as (pre & -> & _ & Hpre & _).
  rewrite scheduled_app, (scheduled_quiet pre Hpre). reflexivity.
Qed.

(** Registering the dispatch keeps the invariant and adds one entry. *)
Lemma dispatch_head_WF (cfg : config) (a : auto_args) (t : Task)
    (sample : option Sample) (s : state) :
  WF s -> pending_task_id_map s !! task_id t = None ->
  WF (dispatch_head_state cfg a t sample s) /\
  size (pending_task_id_map (dispatch_head_state cfg a t sample s)) =
    S (size (pending_task_id_map s)).
Proof.
  intros [Hb Hf (l & Hl & Hg)] Hnone.
  destruct (dispatch_head_events_split cfg a t sample (futures_created s))
    as (pre & Hev & _ & Hpre & _).
  assert (Hfresh : pending_future_map s !! futures_created s = None).
  { destruct (pending_future_map s !! futures_created s) as [i |] eqn:E; [| done].
    apply Hf in E. lia. }
  assert (Hnot : task_id t ∉ l.*2).
  { intros Hin. apply list_elem_of_fmap in Hin as ([f' i'] & Heq & Hin).
    apply Hg, Hb in Hin. simpl in Heq. congruence. }
  unfold dispatch_head_state. split; [split |]; cbn [pending_future_map pending_task_id_map
    futures_created trace].
  - intros f' i'. rewrite !lookup_insert_Some. split.
    + intros [[H1 H2] | [Hne Hl']]; [by left |]. right. split; [| by apply Hb].
      intros H. apply Hb in Hl'. congruence.
    + intros [[H1 H2] | [Hne Hl']]; [by left |]. right. split; [| by apply Hb].
      intros H. apply Hb in Hl'. congruence.
  - intros f' i'. rewrite lookup_insert_Some. intros [[H1 _] | [_ Hl']]; [lia |].
    apply Hf in Hl'. lia.
  - exists ((futures_created s, task_id t) :: l). split.
    + rewrite Hev, app_assoc, in_flight_app, in_flight_app, Hl.
      rewrite (in_flight_quiet pre _ Hpre). simpl.
      by rewrite bool_decide_eq_false_2 by exact Hnot.
    + intros f' i'. rewrite elem_of_cons, lookup_insert_Some, Hg. split.
      * intros [[= H1 H2] | H]; [left; by split |]. right. split; [congruence | done].
      * intros [[H1 H2] | [_ H]]; [left; congruence | by right].
  - by rewrite map_size_insert_None.
Qed.

(** The rest of the loop body keeps the invariant. *)
Lemma dispatch_tail_WF (cfg : config) (a : auto_args) (t : Task)
    (sample : option Sample) (s : state) :
  WF s -> WF (dispatch_tail_state cfg a t sample s).
Proof.
  intros [Hb Hf (l & Hl & Hg)].
  destruct (dispatch_tail_events_quiet cfg a t sample (files s)) as (Hq & _).
  unfold dispatch_tail_state. split; cbn [pending_future_map pending_task_id_map
    futures_created trace]; [exact Hb | exact Hf |].
  exists l. split; [| exact Hg]. by rewrite in_flight_app, Hl, in_flight_quiet.
Qed.

Lemma dispatch_advances (cfg : config) (a : auto_args) (inp : iter_input) (t : Task)
    (sample : option Sample) (s : state) :
  sample_for inp t sample -> WF s -> pending_task_id_map s !! task_id t = None ->
  advances s (dispatch cfg a inp t s).2 /\
  count (dispatch cfg a inp t s).2 = count s + 1.
Proof.
  intros Hs W Hnone.
  rewrite (dispatch_run cfg a inp t sample s Hs). cbn [snd].
  destruct (dispatch_head_WF cfg a t sample s W Hnone) as [W1 Hsz1].
  destruct (deliver_shrinks (it_resolved inp) (dispatch_head_state cfg a t sample s))
    as (Hw & Hc & Hsch).
  destruct (Hw W1) as [W2 Hsz2].
  set (s2 := (deliver (it_resolved inp) (dispatch_head_state cfg a t sample s)).2) in *.
  destruct (dispatch_tail_events_quiet cfg a t sample (files s2)) as (Hq & _).
  assert (Hcnt : count (dispatch_tail_state cfg a t sample s2) = count s + 1).
  { unfold dispatch_tail_state. cbn [count]. rewrite Hc. reflexivity. }
  split; [| exact Hcnt].
  split; [by apply dispatch_tail_WF |]. split.
  - unfold dispatch_tail_state. cbn [pending_task_id_map]. lia.
  - right. split; [exact Hcnt |]. exists (task_id t).
    unfold dispatch_tail_state. cbn [trace].
    rewrite scheduled_app, (scheduled_quiet _ Hq), app_nil_r, Hsch.
    unfold dispatch_head_state. cbn [trace].
    by rewrite scheduled_app, scheduled_dispatch_head.
Qed.

Lemma sample_cases (inp : iter_input) (t : Task) :
  (exists sample, sample_for inp t sample) \/
  (negb (String.eqb (category t) "url") = true /\ it_view_sample inp (sample_id t) = None).
Proof.
  unfold sample_for. destruct (negb (String.eqb (category t) "url")).
  - destruct (it_view_sample inp (sample_id t)) as [smp |] eqn:E; [left | by right].
    exists (Some smp). eauto.
  - left. by exists None.
Qed.

Lemma dispatch_raise (cfg : config) (a : auto_args) (inp : iter_input) (t : Task) (s : state) :
  negb (String.eqb (category t) "url") = true ->
  it_view_sample inp (sample_id t) = None ->
  dispatch cfg a inp t s =
    (Exc AttributeError,
     add_event (EvViewSample (sample_id t))
       (add_event (EvLogInfo "Processing analysis data for Task #%d") s)).
Proof.
  intros Hu Hv. unfold dispatch, bind, emit, modify, raise. simpl.
  rewrite Hu. simpl. by rewrite Hv.
Qed.

Lemma advances_refl (s : state) : WF s -> advances s s.
Proof. intros W. split; [exact W |]. split; [lia | by left]. Qed.

Lemma advances_quiet (s s' : state) :
  WF s -> keeps core s s' -> emits quiet_event s s' -> advances s s'.
Proof.
  intros W Hc He. destruct (shrinks_quiet s s' Hc He) as (Hw & Hcnt & Hsch).
  destruct (Hw W) as [W' Hsz]. split; [exact W' |]. split; [lia | by left].
Qed.

Lemma dispatch_step (cfg : config) (a : auto_args) (inp : iter_input) (t : Task) (s : state) :
  WF s -> pending_task_id_map s !! task_id t = None ->
  advances s (dispatch cfg a inp t s).2.
Proof.
  intros W Hnone. destruct (sample_cases inp t) as [[sample Hs] | [Hu Hv]].
  - by apply (dispatch_advances cfg a inp t sample s).
  - rewrite dispatch_raise by done. simpl. apply advances_quiet; [exact W | reflexivity |].
    exists [EvLogInfo "Processing analysis data for Task #%d"; EvViewSample (sample_id t)].
    split; [simpl; by rewrite <- app_assoc | repeat constructor].
Qed.

Lemma for_tasks_cons (cfg : config) (a : auto_args) (inp : iter_input)
    (t : Task) (tasks : list Task) (s : state) :
  for_tasks cfg a inp (t :: tasks) s =
    match pending_task_id_map s !! task_id t with
    | Some _ => for_tasks cfg a inp tasks s
    | None => (dispatch cfg a inp t ;; ret true) s
    end.
Proof.
  change (for_tasks cfg a inp (t :: tasks) s)
    with ((cur <- gets (fun s => pending_task_id_map s !! task_id t) ;;
           match cur with
           | Some _ => for_tasks cfg a inp tasks
           | None => dispatch cfg a inp t ;; ret true
           end) s).
  unfold bind at 1. unfold gets. simpl.
  by destruct (pending_task_id_map s !! task_id t).
Qed.

(** The [for] loop dispatches the first candidate that is not pending,
    and nothing when every candidate is pending. *)
Lemma for_tasks_run (cfg : config) (a : auto_args) (inp : iter_input)
    (tasks : list Task) (s : state) :
  (Forall (fun t => is_Some (pending_task_id_map s !! task_id t)) tasks /\
   for_tasks cfg a inp tasks s = (Ok false, s)) \/
  (exists skipped t rest,
     tasks = (skipped ++ t :: rest)%list /\
     Forall (fun t' => is_Some (pending_task_id_map s !! task_id t')) skipped /\
     pending_task_id_map s !! task_id t = None /\
     for_tasks cfg a inp tasks s = (dispatch cfg a inp t ;; ret true) s).
Proof.
  induction tasks as [| t tasks IH].
  - left. split; [constructor | reflexivity].
  - rewrite for_tasks_cons.
    destruct (pending_task_id_map s !! task_id t) as [f |] eqn:E.
    + destruct IH as [[Hall Hrun] | (skipped & t' & rest & -> & Hsk & Hnone & Hrun)].
      * left. split; [constructor; eauto | exact Hrun].
      * right. exists (t :: skipped), t', rest.
        split; [reflexivity |]. split; [constructor; eauto |]. by split.
    + right. exists [], t, tasks.
      split; [reflexivity |]. split; [constructor |]. by split.
Qed.

Lemma for_tasks_step (cfg : config) (a : auto_args) (inp : iter_input)
    (tasks : list Task) (s : state) :
  WF s -> advances s (for_tasks cfg a inp tasks s).2.
Proof.
  intros W.
  destruct (for_tasks_run cfg a inp tasks s)
    as [[_ ->] | (skipped & t & rest & _ & _ & Hnone & ->)].
  - by apply advances_refl.
  - pose proof (dispatch_step cfg a inp t s W Hnone) as H.
    unfold bind. destruct (dispatch cfg a inp t s) as [[[] | e | x |] s1]; exact H.
Qed.

(** ** The loop invariant *)

Lemma hoare_bind {A B} (P R Q : state -> Prop) (m : M A) (k : A -> M B) :
  hoare P m R -> (forall a, hoare R (k a) Q) -> (forall s, R s -> Q s) ->
  hoare P (bind m k) Q.
Proof.
  intros Hm Hk Hrq s HP. unfold bind. specialize (Hm s HP).
  destruct (m s) as [[a | e | x |] s1]; simpl in *; auto. by apply Hk.
Qed.

Lemma hoare_gets {A B} (P Q : state -> Prop) (f : state -> A) (k : A -> M B) :
  (forall v, hoare (fun s => P s /\ f s = v) (k v) Q) ->
  hoare P (bind (gets f) k) Q.
Proof. intros H s HP. unfold bind, gets. simpl. by apply (H (f s)). Qed.

Lemma sleep_core (n : Z) (inp : iter_input) : steps (keeps core) (sleep n inp).
Proof. steps_go keeps_leaf. Qed.

Lemma sleep_quiet (n : Z) (inp : iter_input) : steps (emits quiet_event) (sleep n inp).
Proof. steps_go emits_leaf. Qed.

Lemma call_core {A} (e : event) (r : call_result A) : steps (keeps core) (call e r).
Proof. steps_go keeps_leaf. Qed.

Lemma call_quiet {A} (e : event) (r : call_result A) :
  quiet_event e -> steps (emits quiet_event) (call e r).
Proof. intros H. steps_go emits_leaf. Qed.

Lemma disk_backpressure_core (cfg : config) (inp : iter_input) :
  steps (keeps core) (disk_backpressure cfg inp).
Proof. unfold disk_backpressure. steps_go keeps_leaf. Qed.

Lemma disk_backpressure_quiet (cfg : config) (inp : iter_input) :
  steps (emits quiet_event) (disk_backpressure cfg inp).
Proof. unfold disk_backpressure. steps_go emits_leaf. Qed.

Lemma Cnt_same (d0 : Z) (s s' : state) :
  count s' = count s -> scheduled (trace s') = scheduled (trace s) -> Cnt d0 s -> Cnt d0 s'.
Proof. unfold Cnt, dispatched. intros -> ->. auto. Qed.

Lemma J_shrinks (b c d0 : Z) (s s' : state) : shrinks s s' -> J b c d0 s -> J b c d0 s'.
Proof.
  intros (Hw & Hc & Hs) (W & Hsz & Hcnt & HC). destruct (Hw W) as [W' Hsz'].
  split; [exact W' |]. split; [lia |]. split; [lia |]. by apply (Cnt_same d0 s).
Qed.

Lemma J_quiet (b c d0 : Z) {A} (m : M A) :
  steps (keeps core) m -> steps (emits quiet_event) m -> hoare (J b c d0) m (J b c d0).
Proof.
  intros Hc Hq s. apply J_shrinks, shrinks_quiet; [apply Hc | apply Hq].
Qed.

Lemma J_mono (b c b' c' d0 : Z) (s : state) :
  b <= b' -> c <= c' -> J b c d0 s -> J b' c' d0 s.
Proof.
  intros Hb Hc (W & Hsz & Hcnt & HC).
  split; [exact W |]. split; [lia |]. split; [lia | exact HC].
Qed.

Lemma J_advances (b c d0 : Z) (s s' : state) :
  advances s s' -> J b c d0 s -> J (b + 1) (c + 1) d0 s'.
Proof.
  intros (W' & Hsz' & Halt) (W & Hsz & Hcnt & [H0 Hd]).
  split; [exact W' |]. split; [lia |].
  unfold Cnt, dispatched in *.
  destruct Halt as [[Hc Hs] | [Hc [i Hs]]]; rewrite Hc, Hs.
  - repeat split; lia.
  - rewrite length_app. simpl. repeat split; lia.
Qed.

Lemma deliver_J (b c d0 : Z) (l : list (future * resolution)) :
  hoare (J b c d0) (deliver l) (J b c d0).
Proof. intros s. apply J_shrinks, deliver_shrinks. Qed.

Lemma for_tasks_J (b c d0 : Z) (cfg : config) (a : auto_args) (inp : iter_input)
    (tasks : list Task) :
  hoare (J b c d0) (for_tasks cfg a inp tasks) (J (b + 1) (c + 1) d0).
Proof.
  intros s HJ. apply (J_advances b c d0 s); [| exact HJ].
  apply for_tasks_step, HJ.
Qed.

Lemma admit_one_J (b c d0 : Z) (cfg : config) (a : auto_args) (inp : iter_input) :
  hoare (J b c d0) (admit_one cfg a inp) (J (b + 1) (c + 1) d0).
Proof.
  assert (Hm : forall s, J b c d0 s -> J (b + 1) (c + 1) d0 s)
    by (intros s; apply J_mono; lia).
  unfold admit_one.
  apply (hoare_bind _ (J b c d0)); [apply deliver_J | intros _ | exact Hm].
  apply (hoare_bind _ (J b c d0)); [| intros tasks | exact Hm].
  { apply J_quiet; [apply call_core | by apply call_quiet]. }
  apply (hoare_bind _ (J (b + 1) (c + 1) d0)); [apply for_tasks_J | intros added | auto].
  destruct added; simpl.
  - intros s H. exact H.
  - apply J_quiet; [apply sleep_core | apply sleep_quiet].
Qed.

Lemma iteration_J (c d0 : Z) (cfg : config) (a : auto_args) (inp : iter_input) :
  hoare (J (Z.max 0 (parallel a)) c d0) (iteration cfg a inp)
        (J (Z.max 0 (parallel a)) (c + 1) d0).
Proof.
  set (b := Z.max 0 (parallel a)).
  assert (Hm : forall s, J b c d0 s -> J b (c + 1) d0 s)
    by (intros s; apply J_mono; lia).
  unfold iteration.
  apply (hoare_bind _ (J b c d0)); [apply deliver_J | intros _ | exact Hm].
  apply (hoare_bind _ (J b c d0)); [| intros blocked | exact Hm].
  { apply J_quiet; [apply disk_backpressure_core | apply disk_backpressure_quiet]. }
  destruct blocked; [intros s; apply Hm |].
  apply hoare_gets. intros n.
  destruct (Z.of_nat n >=? parallel a) eqn:Hn.
  - intros s [HJ _]. apply Hm. revert HJ.
    apply J_quiet; [apply sleep_core | apply sleep_quiet].
  - intros s [HJ Hsz].
    assert (HJ' : J (parallel a - 1) c d0 s).
    { destruct HJ as (W & _ & Hcnt & HC).
      rewrite Z.geb_leb in Hn. apply Z.leb_gt in Hn.
      split; [exact W |]. split; [lia |]. split; [exact Hcnt | exact HC]. }
    apply (J_mono (parallel a - 1 + 1) (c + 1)); [subst b; lia | lia |].
    by apply admit_one_J.
Qed.

Lemma LInv_J (cfg : config) (a : auto_args) (d0 : Z) (s : state) :
  LInv cfg a d0 s -> J (Z.max 0 (parallel a)) (count s) d0 s.
Proof.
  intros (W & Hsz & HC & _).
  split; [exact W |]. split; [exact Hsz |]. split; [lia | exact HC].
Qed.

Lemma while_loop_LInv (cfg : config) (a : auto_args) (d0 : Z) (inputs : list iter_input) :
  hoare (LInv cfg a d0) (while_loop cfg a inputs) (LInv cfg a d0).
Proof.
  induction inputs as [| inp rest IH]; intros s HL; simpl.
  - destruct (loop_cond cfg s); exact HL.
  - destruct (loop_cond cfg s) eqn:Hc; [| exact HL].
    assert (H1 : LInv cfg a d0 (iteration cfg a inp s).2).
    { pose proof (iteration_J (count s) d0 cfg a inp s (LInv_J cfg a d0 s HL))
        as (W & Hsz & Hcnt & HC).
      split; [exact W |]. split; [exact Hsz |]. split; [exact HC |].
      unfold loop_cond in Hc. destruct HL as (_ & _ & [H0 _] & _).
      apply orb_true_iff in Hc as [Hc | Hc]; [apply Z.ltb_lt in Hc | apply Z.eqb_eq in Hc];
        [right | left]; lia. }
    unfold bind. destruct (iteration cfg a inp s) as [[[] | e | x |] s1]; simpl in *; auto.
Qed.

Lemma LInv_shrinks (cfg : config) (a : auto_args) (d0 : Z) (s s' : state) :
  shrinks s s' -> LInv cfg a d0 s -> LInv cfg a d0 s'.
Proof.
  intros (Hw & Hc & Hs) (W & Hsz & HC & HM). destruct (Hw W) as [W' Hsz'].
  split; [exact W' |]. split; [lia |]. split; [by apply (Cnt_same d0 s) |].
  by rewrite Hc.
Qed.

Lemma LInv_quiet (cfg : config) (a : auto_args) (d0 : Z) {A} (m : M A) :
  steps (keeps core) m -> steps (emits quiet_event) m ->
  steps (maintains (LInv cfg a d0)) m.
Proof.
  intros Hc Hq s HL. apply (LInv_shrinks cfg a d0 s); [| exact HL].
  apply shrinks_quiet; [apply Hc | apply Hq].
Qed.

Lemma LInv_deliver (cfg : config) (a : auto_args) (d0 : Z) (l : list (future * resolution)) :
  steps (maintains (LInv cfg a d0)) (deliver l).
Proof. intros s HL. apply (LInv_shrinks cfg a d0 s); [apply deliver_shrinks | exact HL]. Qed.

Lemma LInv_while_loop (cfg : config) (a : auto_args) (d0 : Z) (inputs : list iter_input) :
  steps (maintains (LInv cfg a d0)) (while_loop cfg a inputs).
Proof. intros s HL. by apply while_loop_LInv. Qed.

Lemma LInv_emit (cfg : config) (a : auto_args) (d0 : Z) (e : event) :
  quiet_event e -> steps (maintains (LInv cfg a d0)) (emit e).
Proof.
  intros H. apply LInv_quiet; [steps_go keeps_leaf | by apply emits_emit].
Qed.

Lemma LInv_silent (cfg : config) (a : auto_args) (d0 : Z) (f : state -> state) :
  (forall s, core (f s) = core s) -> (forall s, trace (f s) = trace s) ->
  steps (maintains (LInv cfg a d0)) (modify f).
Proof.
  intros Hc Ht. apply LInv_quiet; [apply steps_modify, Hc | by apply emits_silent].
Qed.

Lemma memory_limit_core (pl : string) (mi : option (list string)) (q : Q) :
  steps (keeps core) (memory_limit pl mi q).
Proof. unfold memory_limit, get_memory. steps_go keeps_leaf. Qed.

Lemma memory_limit_quiet (pl : string) (mi : option (list string)) (q : Q) :
  steps (emits quiet_event) (memory_limit pl mi q).
Proof. unfold memory_limit, get_memory. steps_go emits_leaf. Qed.

Ltac LInv_leaf :=
  first [ apply LInv_emit; exact I
        | apply LInv_silent; intros ?; reflexivity
        | apply LInv_deliver
        | apply LInv_while_loop
        | apply LInv_quiet; [apply memory_limit_core | apply memory_limit_quiet] ].

Lemma autoprocess_rest_LInv (cfg : config) (a : auto_args) (d0 : Z) (inp : run_input) :
  steps (maintains (LInv cfg a d0))
    (try_finally
       (try_except (autoprocess_try cfg a inp) (autoprocess_except inp))
       (pool_method EvPoolClose ;; pool_method EvPoolJoin)).
Proof.
  unfold autoprocess_try, autoprocess_except, with_pool, get_memory.
  steps_go LInv_leaf.
Qed.

Lemma autoprocess_LInv (cfg : config) (a : auto_args) (inp : run_input) (s : state) :
  WF s -> Z.of_nat (size (pending_task_id_map s)) <= Z.max 0 (parallel a) ->
  LInv cfg a (Z.of_nat (dispatched (trace s))) (autoprocess cfg a inp s).2.
Proof.
  intros W Hsz. unfold autoprocess, bind at 1 2, modify at 1 2. simpl.
  apply autoprocess_rest_LInv.
  destruct W as [Hb Hf Hg]. split; [by split |]. split; [exact Hsz |].
  split; [split; simpl; lia | right; simpl; lia].
Qed.

Lemma initial_WF (fs : gset path) (rl : Z * Z) : WF (initial_state fs rl).
Proof.
  split; simpl.
  - intros f i. by rewrite !lookup_empty.
  - intros f i. by rewrite lookup_empty.
  - exists []. split; [reflexivity |]. intros f i. rewrite lookup_empty.
    split; [by intros ?%elem_of_nil | done].
Qed.

Lemma autoprocess_initial (cfg : config) (a : auto_args) (inp : run_input)
    (fs : gset path) (rl : Z * Z) :
  LInv cfg a 0 (autoprocess cfg a inp (initial_state fs rl)).2.
Proof.
  apply (autoprocess_LInv cfg a inp (initial_state fs rl)); [apply initial_WF |].
  simpl. rewrite map_size_empty. lia.
Qed.

(** ** C1: at most one in-flight execution per job *)

Lemma for_tasks_first (cfg : config) (a : auto_args) (inp : iter_input)
    (tasks : list Task) (s : state) :
  for_tasks cfg a inp tasks s =
    match first_not_in_flight (pending_task_id_map s) tasks with
    | None => (Ok false, s)
    | Some t => (dispatch cfg a inp t ;; ret true) s
    end.
Proof.
  unfold first_not_in_flight. induction tasks as [| t tasks IH]; [reflexivity |].
  rewrite for_tasks_cons. simpl.
  destruct (pending_task_id_map s !! task_id t) as [f |] eqn:E.
  - rewrite bool_decide_eq_false_2 by congruence. exact IH.
  - rewrite bool_decide_eq_true_2 by reflexivity. reflexivity.
Qed.

Lemma first_not_in_flight_None (table : gmap Z nat) (tasks : list Task) (t : Task) :
  first_not_in_flight table tasks = Some t -> table !! task_id t = None.
Proof.
  unfold first_not_in_flight. intros H. apply find_some in H as [_ H].
  by apply bool_decide_eq_true in H.
Qed.

(** C1.  The trace of every run of [autoprocess] from the module's
    initial state never dispatches a job whose earlier dispatch is still
    unresolved; and each run of the [for] loop dispatches at most one
    job, namely the first candidate whose id is not in the in-flight
    table (or none, when the sample lookup of that candidate fails), and
    never an id that is in the table. *)
Theorem at_most_one_in_flight_per_job (cfg : config) (a : auto_args) :
  (forall inp fs rl,
     at_most_one_in_flight (trace (autoprocess cfg a inp (initial_state fs rl)).2)) /\
  (forall inp tasks s,
     exists new,
       trace (for_tasks cfg a inp tasks s).2 = (trace s ++ new)%list /\
       (forall i, i ∈ scheduled new -> pending_task_id_map s !! i = None) /\
       match first_not_in_flight (pending_task_id_map s) tasks with
       | None => scheduled new = [] /\ (for_tasks cfg a inp tasks s).1 = Ok false
       | Some t =>
           (scheduled new = [task_id t] /\ (for_tasks cfg a inp tasks s).1 = Ok true) \/
           (scheduled new = [] /\ (for_tasks cfg a inp tasks s).1 = Exc AttributeError)
       end).
Proof.
  split.
  - intros inp fs rl.
    destruct (autoprocess_initial cfg a inp fs rl) as ([_ _ (l & Hl & _)] & _).
    unfold at_most_one_in_flight. rewrite Hl. eauto.
  - intros inp tasks s. rewrite for_tasks_first.
    destruct (first_not_in_flight (pending_task_id_map s) tasks) as [t |] eqn:Ef.
    + apply first_not_in_flight_None in Ef.
      destruct (sample_cases inp t) as [[sample Hs] | [Hu Hv]].
      * destruct (dispatch_trace cfg a inp t sample s Hs) as (arrived & Htr1 & Htr & _ & _).
        pose proof (emits_between idle_event _ _ arrived Htr1 (deliver_idle _ _)) as Hidle.
        destruct (dispatch_tail_events_quiet cfg a t sample (files s)) as (Hq & _).
        exists (dispatch_head_events cfg a t sample (futures_created s) ++ arrived ++
                dispatch_tail_events cfg a t sample (files s))%list.
        assert (Hsch : scheduled
                         (dispatch_head_events cfg a t sample (futures_created s) ++
                          arrived ++ dispatch_tail_events cfg a t sample (files s)) =
                       [task_id t]).
        { by rewrite !scheduled_app, scheduled_dispatch_head, (scheduled_idle _ Hidle),
            (scheduled_quiet _ Hq). }
        unfold bind. rewrite (dispatch_run cfg a inp t sample s Hs) in *.
        cbn [fst snd ret] in *. rewrite Hsch.
        split; [exact Htr |]. split; [| by left].
        intros i Hi. apply list_elem_of_singleton in Hi. by subst i.
      * exists [EvLogInfo "Processing analysis data for Task #%d"; EvViewSample (sample_id t)].
        unfold bind. rewrite (dispatch_raise cfg a inp t s Hu Hv).
        cbn [fst snd trace add_event].
        split; [by rewrite <- app_assoc |]. split; [| by right].
        intros i Hi. by apply elem_of_nil in Hi.
    + exists []. simpl. rewrite app_nil_r. split; [reflexivity |].
      split; [| by split]. intros i Hi. by apply elem_of_nil in Hi.
Qed.

(** ** C2: completion bookkeeping *)

Lemma processing_finished_pending (f : future) (i : Z) (r : resolution) (s : state) :
  pending_future_map s !! f = Some i ->
  is_Some (pending_task_id_map s !! i) ->
  processing_finished f r s =
    (Ok tt,
     mkState (delete f (pending_future_map s)) (delete i (pending_task_id_map s))
             (futures_created s) (count s) (pool s) (files s) (rlimit_as s)
             (trace s ++ completion_events r (Some i))).
Proof.
  intros Hf [f' Hi].
  unfold processing_finished, del_pending_future, del_pending_task,
    bind, emit, modify, gets, raise, ret, completion_events.
  simpl. rewrite Hf.
  destruct r; simpl; rewrite ?Hf; simpl; rewrite ?Hi; simpl;
    unfold set_pfm, set_ptm, add_event; simpl; rewrite <- ?app_assoc; reflexivity.
Qed.

Lemma processing_finished_unknown (f : future) (r : resolution) (s : state) :
  pending_future_map s !! f = None ->
  (processing_finished f r s).1 = Exc KeyError /\
  pending_future_map (processing_finished f r s).2 = pending_future_map s /\
  pending_task_id_map (processing_finished f r s).2 = pending_task_id_map s.
Proof.
  intros Hf.
  unfold processing_finished, del_pending_future, del_pending_task,
    bind, emit, modify, gets, raise, ret.
  simpl. rewrite Hf. destruct r; simpl; rewrite ?Hf; simpl; auto.
Qed.

(** C2.  In every state a run of [autoprocess] reaches, the callback of
    a pending future [f] of job [i] returns normally, removes exactly
    the entry of [f] from the future map and the entry of [i] from the
    task map (one entry less), and writes the task table once with
    "failed processing" for [i] on a timeout, an expired worker or any
    other exception, and not at all on success.  A second call for the
    same future removes nothing more. *)
Theorem completion_bookkeeping_exactly_once (cfg : config) (a : auto_args)
    (inp : run_input) (fs : gset path) (rl : Z * Z)
    (f : future) (i : Z) (r : resolution) :
  let s := (autoprocess cfg a inp (initial_state fs rl)).2 in
  pending_future_map s !! f = Some i ->
  let s' := (processing_finished f r s).2 in
  (processing_finished f r s).1 = Ok tt /\
  pending_future_map s' = delete f (pending_future_map s) /\
  pending_task_id_map s' = delete i (pending_task_id_map s) /\
  pending_task_id_map s !! i = Some f /\
  S (size (pending_task_id_map s')) = size (pending_task_id_map s) /\
  (exists new,
     trace s' = (trace s ++ new)%list /\
     status_writes new =
       match r with
       | ResSuccess => []
       | _ => [(Some i, TASK_FAILED_PROCESSING)]
       end) /\
  (forall r', (processing_finished f r' s').1 = Exc KeyError /\
              pending_future_map (processing_finished f r' s').2 = pending_future_map s' /\
              pending_task_id_map (processing_finished f r' s').2 = pending_task_id_map s').
Proof.
  intros s Hf s'.
  destruct (autoprocess_initial cfg a inp fs rl) as ([Hb _ _] & _). fold s in Hb.
  assert (Hi : pending_task_id_map s !! i = Some f) by (by apply Hb).
  subst s'. rewrite (processing_finished_pending f i r s Hf) by eauto. simpl.
  split; [reflexivity |]. split; [reflexivity |]. split; [reflexivity |].
  split; [exact Hi |]. split.
  { rewrite map_size_delete_Some by eauto.
    assert (size (pending_task_id_map s) <> 0%nat); [| lia].
    intros H0. apply map_size_empty_inv in H0. rewrite H0, lookup_empty in Hi. done. }
  split.
  { exists (completion_events r (Some i)). split; [reflexivity |]. by destruct r. }
  intros r'. apply processing_finished_unknown. simpl. apply lookup_delete_eq.
Qed.

Lemma completion_bookkeeping_witness :
  pending_future_map ex_state !! 0%nat = Some 1 /\
  (processing_finished 0%nat ResTimeout ex_state).1 = Ok tt /\
  pending_task_id_map (processing_finished 0%nat ResTimeout ex_state).2 =
    delete 1 (pending_task_id_map ex_state).
Proof.
  assert (H : pending_future_map ex_state !! 0%nat = Some 1) by (vm_compute; reflexivity).
  split; [exact H |].
  pose proof (completion_bookkeeping_exactly_once ex_cfg ex_args ex_run ex_files (-1, -1)
                0%nat 1 ResTimeout H) as (H1 & _ & H3 & _).
  split; [exact H1 | exact H3].
Defined.

(** ** What a pass emits *)

Lemma bind_ok {A B} (m : M A) (k : A -> M B) (s : state) (a : A) :
  (m s).1 = Ok a -> bind m k s = k a (m s).2.
Proof. unfold bind. destruct (m s) as [[a' | e | x |] s1]; simpl; congruence. Qed.

Lemma disk_backpressure_idle (cfg : config) (inp : iter_input) :
  steps (emits idle_event) (disk_backpressure cfg inp).
Proof. unfold disk_backpressure. steps_go emits_leaf. Qed.

Lemma idle_unchanged (s s' : state) :
  emits idle_event s s' ->
  store_queries (trace s') = store_queries (trace s) /\
  scheduled (trace s') = scheduled (trace s).
Proof.
  intros (new & -> & Hn).
  by rewrite store_queries_app, scheduled_app, (store_queries_idle new Hn),
    (scheduled_idle new Hn), !app_nil_r.
Qed.

Lemma core_table (s s' : state) :
  keeps core s s' -> pending_task_id_map s' = pending_task_id_map s.
Proof. unfold keeps, core. by intros [= _ H _ _]. Qed.

Lemma emits_snoc (P : event -> Prop) (s s' : state) (e : event) :
  emits P s s' -> P e -> emits P s (add_event e s').
Proof.
  intros (new & Htr & Hn) He. exists (new ++ [e])%list. simpl.
  split; [by rewrite Htr, app_assoc | apply Forall_app; split; [exact Hn | by constructor]].
Qed.

Lemma sleep_run (n : Z) (inp : iter_input) (s : state) :
  sleep n inp s =
    (match it_sleep inp with Ret _ => Ok tt | Raise e => Exc e end,
     add_event (EvSleep n) s).
Proof.
  unfold sleep, call, bind, emit, modify, ret, raise. simpl.
  by destruct (it_sleep inp) as [[] | e].
Qed.

(** ** C3: the concurrency ceiling *)

(** C3.  In any state a run of [autoprocess] reaches, the in-flight
    table never holds more entries than the concurrency limit [parallel]
    (for a negative [parallel], which bounds nothing, the table stays
    empty).  A pass that finds the table full (after the
    completions delivered before it) neither queries the task table nor
    dispatches and leaves the table as it is; when the free-space test
    lets it through, the only thing it adds is a sleep of 5 seconds, and
    it returns, so that the loop starts its next pass. *)
Theorem concurrency_ceiling_respected (cfg : config) (a : auto_args) :
  (forall inp fs rl,
     Z.of_nat (size (pending_task_id_map
                       (autoprocess cfg a inp (initial_state fs rl)).2))
       <= Z.max 0 (parallel a)) /\
  (0 <= parallel a ->
   forall inp fs rl,
     Z.of_nat (size (pending_task_id_map
                       (autoprocess cfg a inp (initial_state fs rl)).2)) <= parallel a) /\
  (forall inp s,
     let s1 := (deliver (it_before inp) s).2 in
     parallel a <= Z.of_nat (size (pending_task_id_map s1)) ->
     let s' := (iteration cfg a inp s).2 in
     store_queries (trace s') = store_queries (trace s) /\
     scheduled (trace s') = scheduled (trace s) /\
     pending_task_id_map s' = pending_task_id_map s1 /\
     ((disk_backpressure cfg inp s1).1 = Ok false ->
        trace s' = (trace (disk_backpressure cfg inp s1).2 ++ [EvSleep 5])%list /\
        (it_sleep inp = Ret tt -> (iteration cfg a inp s).1 = Ok tt))).
Proof.
  split; [| split].
  - intros inp fs rl.
    by destruct (autoprocess_initial cfg a inp fs rl) as (_ & Hsz & _).
  - intros Hp inp fs rl.
    destruct (autoprocess_initial cfg a inp fs rl) as (_ & Hsz & _). lia.
  - intros inp s s1 Hfull s'.
    pose proof (deliver_idle (it_before inp) s) as Hd. fold s1 in Hd.
    pose proof (disk_backpressure_idle cfg inp s1) as Hb.
    pose proof (core_table _ _ (disk_backpressure_core cfg inp s1)) as Hc.
    assert (Hrun : iteration cfg a inp s =
              match (disk_backpressure cfg inp s1).1 with
              | Ok true => (Ok tt, (disk_backpressure cfg inp s1).2)
              | Ok false => sleep 5 inp (disk_backpressure cfg inp s1).2
              | Exc e => (Exc e, (disk_backpressure cfg inp s1).2)
              | Exit x => (Exit x, (disk_backpressure cfg inp s1).2)
              | Pending => (Pending, (disk_backpressure cfg inp s1).2)
              end).
    { unfold iteration. rewrite (bind_ok _ _ s tt) by apply deliver_ok. fold s1.
      unfold bind at 1.
      destruct (disk_backpressure cfg inp s1) as [[[] | e | x |] s2]; simpl in *; auto.
      unfold bind, gets. simpl. rewrite Hc.
      destruct (Z.of_nat (size (pending_task_id_map s1)) >=? parallel a) eqn:Hn; [done |].
      rewrite Z.geb_leb in Hn. apply Z.leb_gt in Hn. lia. }
    subst s'. rewrite Hrun. clear Hrun.
    destruct (disk_backpressure cfg inp s1) as [rb s2]. simpl in *.
    destruct (idle_unchanged s s2) as [Hq Hs]; [by etransitivity |].
    destruct rb as [[] | e | x |]; simpl;
      try (split; [exact Hq |]; split; [exact Hs |]; split; [exact Hc |]; by intros [=]).
    rewrite sleep_run. simpl.
    rewrite store_queries_app, scheduled_app, Hq, Hs. simpl. rewrite !app_nil_r.
    split; [reflexivity |]. split; [reflexivity |]. split; [exact Hc |].
    intros _. split; [reflexivity |]. by intros ->.
Qed.

Lemma concurrency_ceiling_witness :
  0 <= parallel ex_args /\
  Z.of_nat (size (pending_task_id_map ex_state)) <= parallel ex_args.
Proof.
  assert (H : 0 <= parallel ex_args) by (simpl; lia).
  split; [exact H |].
  exact (proj1 (proj2 (concurrency_ceiling_respected ex_cfg ex_args)) H
           ex_run ex_files (-1, -1)).
Defined.

(** ** C4: disk backpressure *)

Lemma disk_backpressure_disabled (cfg : config) (inp : iter_input) (s : state) :
  freespace cfg = 0 -> disk_backpressure cfg inp s = (Ok false, s).
Proof. intros H. unfold disk_backpressure. by rewrite H. Qed.







(** ** C5: the limit on the number of dispatched jobs *)

Lemma while_loop_unbounded (cfg : config) (a : auto_args) (inputs : list iter_input)
    (s : state) :
  max_analysis_count cfg = 0 -> (while_loop cfg a inputs s).1 <> Ok tt.
Proof.
  intros H0. revert s. induction inputs as [| inp rest IH]; intros s; simpl;
    unfold loop_cond; rewrite H0, orb_true_r; [discriminate |].
  unfold bind. destruct (iteration cfg a inp s) as [[[] | e | x |] s1]; simpl;
    [apply IH | discriminate..].
Qed.

Lemma while_loop_done (cfg : config) (a : auto_args) (inputs : list iter_input)
    (s : state) :
  0 < max_analysis_count cfg -> max_analysis_count cfg <= count s ->
  while_loop cfg a inputs s = (Ok tt, s).
Proof.
  intros Hpos Hle.
  assert (Hc : loop_cond cfg s = false).
  { unfold loop_cond. apply orb_false_iff. split; [apply Z.ltb_ge | apply Z.eqb_neq]; lia. }
  destruct inputs; simpl; by rewrite Hc.
Qed.

(** C5.  With a maximum of zero the loop condition holds in every state
    and the loop never ends by it.  With a positive maximum [M] every
    run of [autoprocess] dispatches at most [M] jobs, and once [count]
    has reached [M] the loop ends without another pass. *)
Theorem dispatch_count_limit (cfg : config) (a : auto_args) :
  (max_analysis_count cfg = 0 ->
   forall s, loop_cond cfg s = true /\
             forall inputs, (while_loop cfg a inputs s).1 <> Ok tt) /\
  (0 < max_analysis_count cfg ->
   (forall inp fs rl,
      Z.of_nat (dispatched (trace (autoprocess cfg a inp (initial_state fs rl)).2))
        <= max_analysis_count cfg) /\
   (forall inputs s,
      max_analysis_count cfg <= count s -> while_loop cfg a inputs s = (Ok tt, s))).
Proof.
  split.
  - intros H0 s. split.
    + unfold loop_cond. by rewrite H0, orb_true_r.
    + intros inputs. by apply while_loop_unbounded.
  - intros Hpos. split.
    + intros inp fs rl.
      destruct (autoprocess_initial cfg a inp fs rl) as (_ & _ & [_ Hd] & [H0 | Hle]); lia.
    + intros inputs s. by apply while_loop_done.
Qed.

Lemma dispatch_count_limit_witness :
  (max_analysis_count ex_cfg_unbounded = 0 /\
   loop_cond ex_cfg_unbounded ex_state = true) /\
  (0 < max_analysis_count ex_cfg /\
   Z.of_nat (dispatched (trace (autoprocess ex_cfg ex_args_3 ex_run_3 ex_initial).2))
     <= max_analysis_count ex_cfg).
Proof.
  assert (H1 : max_analysis_count ex_cfg_unbounded = 0) by reflexivity.
  assert (H2 : 0 < max_analysis_count ex_cfg) by (simpl; lia).
  split.
  - split; [exact H1 |].
    exact (proj1 (proj1 (dispatch_count_limit ex_cfg_unbounded ex_args) H1 ex_state)).
  - split; [exact H2 |].
    exact (proj1 (proj2 (dispatch_count_limit ex_cfg ex_args_3) H2) ex_run_3 ex_files (-1, -1)).
Defined.

Example dispatch_count_limit_reached :
  scheduled (trace (autoprocess ex_cfg ex_args_3 ex_run_3 ex_initial).2) = [1; 2] /\
  (autoprocess ex_cfg ex_args_3 ex_run_3 ex_initial).1 = Ok tt.
Proof. vm_compute. split; reflexivity. Qed.

(** ** C6: the stages of process *)


Lemma gc_log_pipeline (md : bool) (tid : Z) (pt : string) (s : state) :
  (gc_log md tid pt s).1 = Ok tt /\
  pipeline (trace (gc_log md tid pt s).2) = pipeline (trace s) /\
  files (gc_log md tid pt s).2 = files s.
Proof.
  unfold gc_log. destruct md; simpl; [| by repeat split].
  rewrite pipeline_app. simpl. by rewrite app_nil_r.
Qed.

Lemma call_run {A} (e : event) (r : call_result A) (s : state) :
  call e r s = (match r with Ret v => Ok v | Raise x => Exc x end, add_event e s).
Proof. unfold call, bind, emit, modify, ret, raise. simpl. by destruct r. Qed.


(** The events of the cleanup at the end of [process] are not part of
    the pipeline. *)
Lemma cleanup_pipeline {A} (m : M A) (s : state) :
  steps (emits (fun e => pipeline [e] = [])) m ->
  pipeline (trace (m s).2) = pipeline (trace s).
Proof.
  intros H. destruct (H s) as (new & -> & Hn). rewrite pipeline_app.
  assert (pipeline new = []) as ->; [| by rewrite app_nil_r].
  induction Hn as [| e new He _ IH]; [reflexivity |].
  change (e :: new) with ([e] ++ new)%list. by rewrite pipeline_app, He, IH.
Qed.



(** ** C7: failing resource queries *)

(** C7 (the code departs from the claim).  On Linux, when /proc/meminfo
    cannot be opened, [memory_limit] raises inside the [try] block
    before the pool exists; the handler prints the traceback, and the
    [finally] clause then fails on the unbound name [pool]:
    [autoprocess] ends with [UnboundLocalError] instead of returning. *)
Theorem autoprocess_unreadable_meminfo_raises (cfg : config) (a : auto_args)
    (iters : list iter_input) (drain : list (future * resolution))
    (oom : option (list string)) (s : state) :
  (autoprocess cfg a (mkRun "Linux" None iters drain oom) s).1 = Exc UnboundLocalError /\
  trace (autoprocess cfg a (mkRun "Linux" None iters drain oom) s).2 =
    (trace s ++ [EvGetRlimit; EvTraceback OSError])%list.
Proof.
  destruct s as [pfm ptm fc cnt pl fs rl tr].
  split; [reflexivity |]. simpl. by rewrite <- app_assoc.
Qed.

(** A failure of the free-space monitor inside the loop, by contrast, is
    printed and [autoprocess] returns after closing the pool. *)
Example autoprocess_monitor_failure_returns :
  (autoprocess ex_cfg_space ex_args
     (mkRun "Linux" (Some ex_meminfo) [ex_iter_monitor_fails] [] None) ex_initial).1 = Ok tt /\
  trace (autoprocess ex_cfg_space ex_args
           (mkRun "Linux" (Some ex_meminfo) [ex_iter_monitor_fails] [] None) ex_initial).2 =
    [EvGetRlimit; EvSetRlimit 3276800000 (-1); EvLogInfo "Processing analysis data";
     EvPoolCreate 1 7; EvFreeSpaceMonitor (analyses_dir ex_cfg_space); EvPoolExit;
     EvTraceback OSError; EvPoolClose; EvPoolJoin].
Proof. vm_compute. split; reflexivity. Qed.

(** ** C8: the memory limit *)

Lemma get_memory_lines_absent (lines : list string) :
  forallb other_meminfo_line lines = true -> get_memory_lines lines = Ret 0.
Proof.
  induction lines as [| l lines IH]; [reflexivity |].
  simpl. unfold other_meminfo_line at 1. intros H. apply andb_true_iff in H as [Hl Hr].
  destruct (split l) as [| w0 tl]; [discriminate |].
  apply negb_true_iff in Hl. rewrite Hl. by apply IH.
Qed.

Lemma int_of_Q_zero (q : Q) : int_of_Q (inject_Z (0 * 1024) * q) = 0.
Proof. by destruct q. Qed.

(** Off Linux [memory_limit] prints a line and changes nothing else. *)
Lemma memory_limit_not_linux (pl : string) (mi : option (list string)) (q : Q) (s : state) :
  String.eqb pl "Linux" = false ->
  memory_limit pl mi q s = (Ok tt, add_event (EvPrint "Only works on linux!") s).
Proof. intros H. unfold memory_limit. by rewrite H. Qed.

(** On Linux, with [n] kB available, the soft limit becomes
    [int(n * 1024 * percentage)] and the hard limit stays. *)
Lemma memory_limit_linux (lines : list string) (n : Z) (q : Q) (s : state) :
  get_memory_lines lines = Ret n ->
  setrlimit (int_of_Q (inject_Z (n * 1024) * q)) (snd (rlimit_as s)) = Ret tt ->
  memory_limit "Linux" (Some lines) q s =
    (Ok tt,
     set_rlimit_as (int_of_Q (inject_Z (n * 1024) * q), snd (rlimit_as s))
       (add_event (EvSetRlimit (int_of_Q (inject_Z (n * 1024) * q)) (snd (rlimit_as s)))
          (add_event EvGetRlimit s))).
Proof.
  intros H Hset. unfold memory_limit, get_memory, call, bind, emit, modify, gets, ret.
  cbn [negb String.eqb Ascii.eqb Bool.eqb fst snd rlimit_as add_event]. rewrite H.
  cbn [fst snd rlimit_as add_event]. by rewrite Hset.
Qed.

(** A soft limit of 0 is accepted under every hard limit. *)
Lemma setrlimit_zero (hard : Z) : setrlimit 0 hard = Ret tt.
Proof.
  unfold setrlimit, rlim_t. cbn [orb Z.ltb Z.leb Z.compare Z.opp Z.pow Z.pow_pos].
  change ((0 <? - 2 ^ 63) || (2 ^ 63 <=? 0)) with false. cbv iota.
  rewrite Z.mod_0_l by lia.
  destruct (Z.leb_spec 0 (hard mod 2 ^ 64)) as [_ | Hlt]; [reflexivity |].
  pose proof (Z.mod_pos_bound hard (2 ^ 64)). lia.
Qed.

(** C8 (the code departs from the claim).  On Linux, when /proc/meminfo
    has no [MemAvailable] line, [get_memory] answers 0 and
    [memory_limit] sets the soft address-space limit to 0 bytes: a limit
    is applied, and it is the smallest one. *)
Theorem memory_limit_without_MemAvailable (lines : list string) (q : Q) (s : state) :
  forallb other_meminfo_line lines = true ->
  memory_limit "Linux" (Some lines) q s =
    (Ok tt,
     set_rlimit_as (0, snd (rlimit_as s))
       (add_event (EvSetRlimit 0 (snd (rlimit_as s))) (add_event EvGetRlimit s))).
Proof.
  intros H. pose proof (get_memory_lines_absent lines H) as H0.
  rewrite (memory_limit_linux lines 0 q s H0); rewrite int_of_Q_zero;
    [reflexivity | apply setrlimit_zero].
Qed.

Lemma memory_limit_without_MemAvailable_witness :
  forallb other_meminfo_line ex_meminfo_old = true /\
  rlimit_as (memory_limit "Linux" (Some ex_meminfo_old) default_percentage ex_initial).2 =
    (0, -1).
Proof.
  assert (H : forallb other_meminfo_line ex_meminfo_old = true) by (vm_compute; reflexivity).
  split; [exact H |].
  exact (f_equal (fun r => rlimit_as r.2)
           (memory_limit_without_MemAvailable ex_meminfo_old default_percentage ex_initial H)).
Defined.

Example memory_limit_linux_example :
  rlimit_as (memory_limit "Linux" (Some ex_meminfo) default_percentage ex_initial).2 =
    (3276800000, -1).
Proof. vm_compute. reflexivity. Qed.

(** ** C10: the origin copy of the binary *)

Lemma deliver1_future_map (fr : future * resolution) (s : state) :
  pending_future_map (deliver1 fr s).2 = delete fr.1 (pending_future_map s).
Proof.
  destruct (deliver1_run fr s) as (new & _ & _ & _ & _ & _ & _ & _ & _ & _ & _ & Hm).
  destruct (pending_future_map s !! fr.1) as [i |] eqn:E.
  - by destruct Hm as [-> _].
  - destruct Hm as [-> _]. apply map_eq. intros g.
    destruct (decide (g = fr.1)) as [-> | Hne].
    + by rewrite lookup_delete_eq.
    + by rewrite lookup_delete_ne.
Qed.

(** After a delivery, the futures it resolved have no entry and the
    others have the entry they had. *)
Lemma deliver_future_map (l : list (future * resolution)) (s : state) (g : future) :
  pending_future_map (deliver l s).2 !! g =
    if bool_decide (g ∈ l.*1) then None else pending_future_map s !! g.
Proof.
  revert s. induction l as [| [f r] l IH]; intros s.
  - cbn [deliver ret snd fmap list_fmap]. rewrite bool_decide_eq_false_2; [reflexivity |].
    by intros ?%elem_of_nil.
  - change (deliver ((f, r) :: l) s) with (bind (deliver1 (f, r)) (fun _ => deliver l) s).
    pose proof (deliver1_future_map (f, r) s) as H1.
    destruct (deliver1_run (f, r) s) as (new & Hok & _).
    unfold bind. destruct (deliver1 (f, r) s) as [r1 s1]. cbn [fst snd] in *. subst r1.
    rewrite IH, H1. cbn [fmap list_fmap fst].
    destruct (decide (g = f)) as [-> | Hne].
    + rewrite lookup_delete_eq.
      rewrite (bool_decide_eq_true_2 (f ∈ f :: l.*1)) by apply list_elem_of_here.
      by destruct (bool_decide (f ∈ l.*1)).
    + rewrite lookup_delete_ne by done.
      destruct (bool_decide (g ∈ l.*1)) eqn:Hb.
      * apply bool_decide_eq_true in Hb.
        by rewrite bool_decide_eq_true_2 by (by apply list_elem_of_further).
      * apply bool_decide_eq_false in Hb.
        rewrite bool_decide_eq_false_2; [reflexivity |].
        intros [Heq | Hin]%elem_of_cons; [congruence | contradiction].
Qed.

(** C10, as the claim states it, fails: the deletion need not come
    before the job resolves.  Here the job that is dispatched fails at
    once; its callback runs, marks the job as failed and removes its
    entries, and only then does the loop body delete the origin copy. *)
Lemma origin_copy_deleted_counterexample :
  trace (for_tasks ex_cfg ex_args ex_iter_resolved [ex_task_A; ex_task_B] ex_initial).2 =
    [EvLogInfo "Processing analysis data for Task #%d";
     EvViewSample (Some 10);
     EvSchedule 0 ex_task_A
       (Some ["/opt/CAPEv2"; "storage"; "binaries"; "1"; "9f86d081884c7d65"]) 300;
     EvAddDoneCallback 0;
     EvCallback 0 ResException;
     EvLogError "Exception when processing task %s: %s";
     EvSetStatus (Some 1) TASK_FAILED_PROCESSING;
     EvUnlink ["/opt/CAPEv2"; "storage"; "binaries"; "9f86d081884c7d65"]] /\
  pending_future_map
    (for_tasks ex_cfg ex_args ex_iter_resolved [ex_task_A; ex_task_B] ex_initial).2
    !! 0%nat = None.
Proof. split; vm_compute; reflexivity. Qed.

(** C10, amended.  When the [for] loop dispatches a job that is not a
    URL job, the configuration asks for the deletion of binary copies
    and the origin copy CUCKOO_ROOT/storage/binaries/<sha256> (a path
    made of the sample hash alone, not the per-job copy
    storage/binaries/<id>/<sha256> handed to the worker) exists, the
    loop body deletes exactly that path on the dispatch path: after
    [pool.schedule] and [add_done_callback], with nothing in between but
    the completions that arrive meanwhile and the optional GC log.  The
    deletion does not wait for the job and does not depend on it: it
    happens whether the job is still in flight or has already resolved
    by then, whatever the outcome, and no later completion brings the
    copy back. *)
Theorem origin_copy_deleted_at_dispatch (cfg : config) (a : auto_args)
    (inp : iter_input) (tasks : list Task) (t : Task) (smp : Sample) (s : state) :
  first_not_in_flight (pending_task_id_map s) tasks = Some t ->
  String.eqb (category t) "url" = false ->
  it_view_sample inp (sample_id t) = Some smp ->
  delete_bin_copy cfg = true ->
  [CUCKOO_ROOT cfg; "storage"; "binaries"; sha256 smp] ∈ files s ->
  let origin := [CUCKOO_ROOT cfg; "storage"; "binaries"; sha256 smp] in
  let copy := [CUCKOO_ROOT cfg; "storage"; "binaries"; pretty (task_id t); sha256 smp] in
  let run := for_tasks cfg a inp tasks s in
  let f := futures_created s in
  run.1 = Ok true /\
  (exists arrived,
     trace run.2 =
       (trace s ++
        [EvLogInfo "Processing analysis data for Task #%d"; EvViewSample (sample_id t)] ++
        (if memory_debugging a then [EvGcLog (task_id t) "before"] else []) ++
        [EvSchedule f t (Some copy) (processing_timeout a); EvAddDoneCallback f] ++
        arrived ++
        (if memory_debugging a then [EvGcLog (task_id t) "after"] else []) ++
        [EvUnlink origin])%list /\
     callbacks arrived = it_resolved inp /\
     Forall completion_event arrived) /\
  files run.2 = files s ∖ {[origin]} /\
  (origin ∉ files run.2) /\
  origin <> copy /\
  (f ∈ (it_resolved inp).*1 -> pending_future_map run.2 !! f = None) /\
  (f ∉ (it_resolved inp).*1 -> pending_future_map run.2 !! f = Some (task_id t)) /\
  (forall l, origin ∉ files (deliver l run.2).2).
Proof.
  intros Hfirst Hurl Hv Hdel Hin origin copy run f.
  assert (Hin' : copy_origin_path cfg smp ∈ files s) by exact Hin.
  assert (Hs : sample_for inp t (Some smp)).
  { unfold sample_for. rewrite Hurl. simpl. eauto. }
  destruct (dispatch_trace cfg a inp t (Some smp) s Hs) as (arrived & Htr1 & Htr & Hcb & Hf).
  set (s2 := (deliver (it_resolved inp) (dispatch_head_state cfg a t (Some smp) s)).2) in *.
  assert (Hrun : run = (Ok true, dispatch_tail_state cfg a t (Some smp) s2)).
  { subst run. rewrite for_tasks_first, Hfirst. unfold bind.
    by rewrite (dispatch_run cfg a inp t (Some smp) s Hs). }
  assert (Hfiles : files (dispatch_tail_state cfg a t (Some smp) s2) = files s ∖ {[origin]}).
  { unfold dispatch_tail_state. cbn [files].
    by rewrite Hf, Hdel, (bool_decide_eq_true_2 _ Hin'). }
  assert (Hgone : origin ∉ files s ∖ {[origin]}).
  { intros H. apply elem_of_difference in H as [_ H]. apply H. by apply elem_of_singleton. }
  assert (Hpfm : pending_future_map (dispatch_tail_state cfg a t (Some smp) s2) !! f =
                 if bool_decide (f ∈ (it_resolved inp).*1) then None
                 else Some (task_id t)).
  { unfold dispatch_tail_state. cbn [pending_future_map]. subst s2.
    rewrite deliver_future_map. unfold dispatch_head_state. cbn [pending_future_map].
    by rewrite lookup_insert_eq. }
  rewrite Hrun. cbn [fst snd].
  split; [reflexivity |]. split.
  { exists arrived. split; [| split; [exact Hcb |]].
    - rewrite (dispatch_run cfg a inp t (Some smp) s Hs) in Htr. cbn [snd] in Htr.
      fold s2 in Htr. rewrite Htr. unfold dispatch_head_events, dispatch_tail_events.
      rewrite Hurl, Hdel, (bool_decide_eq_true_2 _ Hin').
      cbn [negb andb fmap option_fmap option_map]. by rewrite <- !app_assoc.
    - apply (emits_between completion_event _ _ arrived Htr1).
      apply deliver_emits; intros; exact I. }
  split; [exact Hfiles |]. split; [by rewrite Hfiles |]. split; [discriminate |].
  split; [| split].
  - intros Hres. by rewrite Hpfm, (bool_decide_eq_true_2 _ Hres).
  - intros Hres. by rewrite Hpfm, (bool_decide_eq_false_2 _ Hres).
  - intros l. destruct (deliver_trace l (dispatch_tail_state cfg a t (Some smp) s2))
      as (new & _ & _ & Hfl).
    by rewrite Hfl, Hfiles.
Qed.

Lemma origin_copy_deleted_witness :
  first_not_in_flight (pending_task_id_map ex_initial) [ex_task_A; ex_task_B] = Some ex_task_A /\
  (["/opt/CAPEv2"; "storage"; "binaries"; "9f86d081884c7d65"] ∈ files ex_initial) /\
  files (for_tasks ex_cfg ex_args ex_iter [ex_task_A; ex_task_B] ex_initial).2 =
    files ex_initial ∖ {[ ["/opt/CAPEv2"; "storage"; "binaries"; "9f86d081884c7d65"] ]} /\
  files (for_tasks ex_cfg ex_args ex_iter_resolved [ex_task_A; ex_task_B] ex_initial).2 =
    files ex_initial ∖ {[ ["/opt/CAPEv2"; "storage"; "binaries"; "9f86d081884c7d65"] ]}.
Proof.
  assert (H1 : first_not_in_flight (pending_task_id_map ex_initial) [ex_task_A; ex_task_B]
               = Some ex_task_A) by reflexivity.
  assert (H2 : [CUCKOO_ROOT ex_cfg; "storage"; "binaries"; sha256 ex_sample] ∈
               files ex_initial)
    by (vm_compute; reflexivity).
  split; [exact H1 |]. split; [exact H2 |]. split.
  - exact (proj1 (proj2 (proj2 (origin_copy_deleted_at_dispatch ex_cfg ex_args ex_iter
                                  [ex_task_A; ex_task_B] ex_task_A ex_sample ex_initial
                                  H1 eq_refl eq_refl eq_refl H2)))).
  - exact (proj1 (proj2 (proj2 (origin_copy_deleted_at_dispatch ex_cfg ex_args
                                  ex_iter_resolved
                                  [ex_task_A; ex_task_B] ex_task_A ex_sample ex_initial
                                  H1 eq_refl eq_refl eq_refl H2)))).
Defined.

(** ** C9: exit codes *)

Section Exits.
Context (X : exit_arg -> Prop).

Lemma exits_ret {A} (a : A) : exits_in X (ret a).
Proof. intros s x [=]. Qed.

Lemma exits_raise {A} (e : exn) : exits_in X (@raise A e).
Proof. intros s x [=]. Qed.

Lemma exits_gets {A} (f : state -> A) : exits_in X (gets f).
Proof. intros s x [=]. Qed.

Lemma exits_modify (f : state -> state) : exits_in X (modify f).
Proof. intros s x [=]. Qed.

Lemma exits_sys_exit {A} (x : exit_arg) : X x -> exits_in X (@sys_exit A x).
Proof. intros H s x' [= <-]. exact H. Qed.

Lemma exits_bind {A B} (m : M A) (k : A -> M B) :
  exits_in X m -> (forall a, exits_in X (k a)) -> exits_in X (bind m k).
Proof.
  intros Hm Hk s x. unfold bind. specialize (Hm s).
  destruct (m s) as [[a | e | x' |] s1]; simpl in *; try discriminate.
  - apply Hk.
  - intros [= <-]. by apply Hm.
Qed.

Lemma exits_try_except {A} (body : M A) (h : exn -> M A) :
  exits_in X body -> (forall e, exits_in X (h e)) -> exits_in X (try_except body h).
Proof.
  intros Hb Hh s x. unfold try_except. specialize (Hb s).
  destruct (body s) as [[a | e | x' |] s1]; simpl in *; try discriminate.
  - apply Hh.
  - intros [= <-]. by apply Hb.
Qed.

Lemma exits_try_finally {A} (body : M A) (fin : M unit) :
  exits_in X body -> exits_in X fin -> exits_in X (try_finally body fin).
Proof.
  intros Hb Hf s x. unfold try_finally. specialize (Hb s).
  destruct (body s) as [[a | e | x' |] s1]; simpl in *; try discriminate;
    specialize (Hf s1); destruct (fin s1) as [[[] | e' | x'' |] s2]; simpl in *;
    try discriminate; intros [= <-]; auto.
Qed.

End Exits.

Ltac exits_go leaf :=
  repeat first
    [ solve [leaf]
    | apply exits_ret | apply exits_raise | apply exits_gets | apply exits_modify
    | apply exits_bind; [| intros ?]
    | apply exits_try_except; [| intros ?]
    | apply exits_try_finally
    | apply exits_sys_exit; solve [leaf]
    | match goal with
      | |- exits_in _ (if ?b then _ else _) => destruct b
      | |- exits_in _ (match ?x with _ => _ end) => destruct x
      end
    | progress monad_head ].

Lemma deliver_no_exit (X : exit_arg -> Prop) (l : list (future * resolution)) :
  exits_in X (deliver l).
Proof. intros s x H. by rewrite deliver_ok in H. Qed.

Lemma for_tasks_no_exit (X : exit_arg -> Prop) (cfg : config) (a : auto_args)
    (inp : iter_input) (tasks : list Task) :
  exits_in X (for_tasks cfg a inp tasks).
Proof.
  induction tasks as [| t tasks IH]; simpl; [apply exits_ret |].
  apply exits_bind; [apply exits_gets | intros cur].
  destruct cur; [exact IH |]. unfold dispatch.
  exits_go ltac:(apply deliver_no_exit).
Qed.

Lemma iteration_no_exit (X : exit_arg -> Prop) (cfg : config) (a : auto_args)
    (inp : iter_input) :
  exits_in X (iteration cfg a inp).
Proof.
  unfold iteration, admit_one, disk_backpressure.
  exits_go ltac:(first [apply deliver_no_exit | apply for_tasks_no_exit]).
Qed.

Lemma while_loop_no_exit (X : exit_arg -> Prop) (cfg : config) (a : auto_args)
    (inputs : list iter_input) :
  exits_in X (while_loop cfg a inputs).
Proof.
  induction inputs as [| inp rest IH]; intros s x; simpl;
    destruct (loop_cond cfg s); try discriminate.
  revert s x. apply exits_bind; [apply iteration_no_exit | intros _; exact IH].
Qed.

Lemma autoprocess_exits (cfg : config) (a : auto_args) (inp : run_input) :
  exits_in (fun x => x = ExitCode 1) (autoprocess cfg a inp).
Proof.
  unfold autoprocess, autoprocess_try, autoprocess_except, with_pool, memory_limit, get_memory.
  exits_go ltac:(first [ apply deliver_no_exit | apply while_loop_no_exit | reflexivity ]).
Qed.

Lemma process_no_exit (X : exit_arg -> Prop) (cfg : config) (st : stages)
    (target copy_path : option path) (task : option Task)
    (report auto capeproc md : bool) :
  exits_in X (process cfg st target copy_path task report auto capeproc md).
Proof. unfold process. exits_go fail. Qed.

Lemma load_report_no_exit (X : exit_arg -> Prop) (rs : report_stores) (tid : Z) (one : bool) :
  exits_in X (_load_report rs tid one).
Proof. unfold _load_report. exits_go fail. Qed.

Lemma exits_weaken (X Y : exit_arg -> Prop) {A} (m : M A) :
  (forall x, X x -> Y x) -> exits_in X m -> exits_in Y m.
Proof. intros H Hm s x Hx. apply H, (Hm s x Hx). Qed.

Ltac list_mem := repeat first [apply list_elem_of_here | apply list_elem_of_further].

Lemma load_report_files (rs : report_stores) (tid : Z) (one : bool) :
  steps (keeps files) (_load_report rs tid one).
Proof. unfold _load_report. steps_go keeps_leaf. Qed.

Lemma program_exits (cfg : config) (st : stages) (w : world) (p : parse_result) :
  exits_in (fun x => x ∈ [ExitMsg msg_python; ExitMsg msg_pebble; ExitCode 2; ExitCode 0;
                          ExitMsg msg_no_folder; ExitMsg msg_log_denied; ExitCode 1;
                          ExitMsg msg_no_file])
           (program cfg st w p).
Proof.
  unfold program, module_import, main, parse_args, main_body, main_signatures, init_logging,
    load_json_file.
  destruct (python_version w) as [major minor].
  exits_go ltac:(first [ apply process_no_exit | apply load_report_no_exit
                       | apply (exits_weaken (fun x => x = ExitCode 1));
                         [intros ? ->; list_mem | apply autoprocess_exits]
                       | list_mem ]).
Qed.





Lemma init_logging_run (auto : bool) (r : call_result unit) (s : state) :
  init_logging auto r s =
    (match r with
     | Ret _ => Ok tt
     | Raise PermissionError => Exit (ExitMsg msg_log_denied)
     | Raise e => Exc e
     end, add_event (EvOpenLog auto) s).
Proof.
  unfold init_logging, try_except. rewrite call_run. destruct r as [[] | e]; [reflexivity |].
  by destruct e.
Qed.



Lemma main_replay_no_file (cfg : config) (st : stages) (w : world) (a : args) (s : state) :
  arg_id a <> "auto" -> analysis_dir cfg (arg_id a) ∈ files s -> open_log w = Ret tt ->
  is_Some (py_int (arg_id a)) -> arg_signatures a = true -> no_report_store (stores w) ->
  report_json cfg (arg_id a) ∉ files s -> arg_json_report a = None ->
  (main_body cfg st w a s).1 = Exit (ExitMsg msg_no_file).
Proof.
  intros Hid Hdir Hlog [tid Htid] Hsig [Hmongo Hes] Hrep Hjr. unfold main_body.
  apply String.eqb_neq in Hid. rewrite Hid.
  unfold bind, emit, modify, exists_path, gets. cbn [fst snd files add_event].
  rewrite (bool_decide_eq_true_2 _ Hdir). cbn [negb].
  rewrite init_logging_run, Hlog, Htid, Hsig. cbn [ret fst snd files add_event].
  unfold main_signatures, _load_report, bind, exists_path, gets.
  rewrite Hmongo, Hes. cbn [ret fst snd files add_event truthy negb].
  by rewrite (bool_decide_eq_false_2 _ Hrep), Hjr.
Qed.

(** Nothing in the loop rebinds or unbinds [pool]. *)
Lemma deliver_pool (l : list (future * resolution)) : steps (keeps pool) (deliver l).
Proof.
  induction l as [| fr l IH]; simpl.
  - apply steps_ret, _.
  - apply steps_bind; [apply _ | | intros _; exact IH].
    unfold deliver1, processing_finished. steps_go keeps_leaf.
Qed.

Lemma for_tasks_pool (cfg : config) (a : auto_args) (inp : iter_input) (tasks : list Task) :
  steps (keeps pool) (for_tasks cfg a inp tasks).
Proof.
  induction tasks as [| t tasks IH]; simpl; [apply steps_ret, _ |].
  apply steps_bind; [apply _ | apply steps_gets, _ | intros cur].
  destruct cur; [exact IH |]. unfold dispatch.
  steps_go ltac:(first [apply deliver_pool | keeps_leaf]).
Qed.

Lemma iteration_pool (cfg : config) (a : auto_args) (inp : iter_input) :
  steps (keeps pool) (iteration cfg a inp).
Proof.
  unfold iteration, admit_one, disk_backpressure.
  steps_go ltac:(first [apply deliver_pool | apply for_tasks_pool | reflexivity]).
Qed.

Lemma while_loop_pool (cfg : config) (a : auto_args) (inputs : list iter_input) :
  steps (keeps pool) (while_loop cfg a inputs).
Proof.
  induction inputs as [| inp rest IH]; intros s; simpl;
    destruct (loop_cond cfg s); try reflexivity.
  revert s. apply steps_bind; [apply _ | apply iteration_pool | intros _; exact IH].
Qed.

Lemma get_memory_lines_raises (lines : list string) (e : exn) :
  get_memory_lines lines = Raise e -> e = IndexError \/ e = ValueError.
Proof.
  induction lines as [| l lines IH]; simpl; [discriminate |].
  destruct (split l) as [| w0 tl]; [intros [= <-]; by left |].
  destruct (String.eqb w0 "MemAvailable:"); [| exact IH].
  destruct tl as [| w1 tl]; [intros [= <-]; by left |].
  destruct (py_int w1); [discriminate | intros [= <-]; by right].
Qed.

Lemma memory_limit_result (pl : string) (mi : option (list string)) (q : Q) (s : state) :
  pool (memory_limit pl mi q s).2 = pool s /\
  ((memory_limit pl mi q s).1 = Ok tt \/
   exists e, (memory_limit pl mi q s).1 = Exc e /\ e <> MemoryError).
Proof.
  unfold memory_limit. destruct (negb (String.eqb pl "Linux")); [by split; [| left] |].
  unfold call, bind, emit, modify, gets, get_memory, raise, ret. cbn [fst snd].
  destruct mi as [lines |]; [| split; [reflexivity | right; by exists OSError]].
  destruct (get_memory_lines lines) as [n | e] eqn:E.
  - cbn [fst snd rlimit_as add_event]. unfold setrlimit.
    destruct ((_ <? _) || (_ <=? _)); [split; [reflexivity | right; by exists OverflowError] |].
    destruct (_ <=? _); [by split; [| left] |].
    split; [reflexivity | right; by exists ValueError].
  - split; [reflexivity |]. right. exists e. split; [reflexivity |].
    by destruct (get_memory_lines_raises lines e E) as [-> | ->].
Qed.











(** * Further properties of the module *)

(** ** get_memory and memory_limit *)

Lemma get_memory_lines_skip (pre rest : list string) :
  forallb other_meminfo_line pre = true ->
  get_memory_lines (pre ++ rest) = get_memory_lines rest.
Proof.
  induction pre as [| l pre IH]; [reflexivity |].
  simpl. unfold other_meminfo_line at 1. intros H. apply andb_true_iff in H as [Hl Hr].
  destruct (split l) as [| w0 tl]; [discriminate |].
  apply negb_true_iff in Hl. rewrite Hl. by apply IH.
Qed.

(** X1.  [get_memory] answers the figure of the first [MemAvailable]
    line and stops reading there: what follows that line, well formed or
    not, has no influence. *)
Theorem get_memory_first_MemAvailable (pre post : list string) (line tok : string)
    (more : list string) (n : Z) :
  forallb other_meminfo_line pre = true ->
  split line = "MemAvailable:" :: tok :: more ->
  py_int tok = Some n ->
  get_memory_lines (pre ++ line :: post) = Ret n.
Proof.
  intros Hpre Hline Htok. rewrite (get_memory_lines_skip pre _ Hpre).
  simpl. by rewrite Hline, Htok.
Qed.

Lemma get_memory_first_MemAvailable_witness :
  get_memory_lines
    (["MemTotal:       16384256 kB"; "MemFree:         8123456 kB"] ++
     "MemAvailable:    4000000 kB" :: ["MemAvailable: oops"; ""])%list = Ret 4000000.
Proof.
  apply (get_memory_first_MemAvailable _ _ _ "4000000" ["kB"]); vm_compute; reflexivity.
Defined.

(** X2.  A blank line met before any [MemAvailable] line makes
    [get_memory] raise [IndexError] (the first token of an empty split),
    and so does a [MemAvailable:] line without a figure; a figure that
    is not an integer raises [ValueError]. *)
Theorem get_memory_malformed_line (pre post : list string) (line : string) :
  forallb other_meminfo_line pre = true ->
  (split line = [] -> get_memory_lines (pre ++ line :: post) = Raise IndexError) /\
  (split line = ["MemAvailable:"] ->
   get_memory_lines (pre ++ line :: post) = Raise IndexError) /\
  (forall tok more,
     split line = "MemAvailable:" :: tok :: more -> py_int tok = None ->
     get_memory_lines (pre ++ line :: post) = Raise ValueError).
Proof.
  intros Hpre. rewrite (get_memory_lines_skip pre _ Hpre). simpl.
  split; [| split].
  - by intros ->.
  - by intros ->.
  - intros tok more -> Htok. simpl. by rewrite Htok.
Qed.

Lemma get_memory_malformed_line_witness :
  get_memory_lines (["MemTotal: 16384256 kB"] ++ "" :: ["MemAvailable: 1 kB"])%list
    = Raise IndexError /\
  get_memory_lines (["MemTotal: 16384256 kB"] ++ "MemAvailable: n/a" :: [])%list
    = Raise ValueError.
Proof.
  assert (H : forallb other_meminfo_line ["MemTotal: 16384256 kB"] = true)
    by (vm_compute; reflexivity).
  split.
  - apply (proj1 (get_memory_malformed_line _ ["MemAvailable: 1 kB"] "" H)).
    vm_compute. reflexivity.
  - apply (proj2 (proj2 (get_memory_malformed_line _ [] "MemAvailable: n/a" H)) "n/a" []);
      vm_compute; reflexivity.
Defined.

Lemma int_of_Q_scale_bounds (m : Z) (q : Q) :
  0 <= m -> (0 <= q)%Q -> (q <= 1)%Q ->
  0 <= int_of_Q (inject_Z m * q) <= m.
Proof.
  destruct q as [a b]. unfold Qle, int_of_Q. simpl. intros Hm H0 H1.
  assert (Ha : 0 <= a) by lia. assert (Hab : a <= Z.pos b) by lia.
  split.
  - apply Z.quot_pos; nia.
  - apply Z.quot_le_upper_bound; nia.
Qed.

(** What [setrlimit] answers, case by case. *)
Lemma setrlimit_cases (soft hard : Z) :
  (setrlimit soft hard = Ret tt /\ - 2 ^ 63 <= soft < 2 ^ 63 /\ rlim_t soft <= rlim_t hard) \/
  (setrlimit soft hard = Raise OverflowError /\ (soft < - 2 ^ 63 \/ 2 ^ 63 <= soft)) \/
  (setrlimit soft hard = Raise ValueError /\ - 2 ^ 63 <= soft < 2 ^ 63 /\
   rlim_t hard < rlim_t soft).
Proof.
  unfold setrlimit.
  destruct (Z.ltb_spec soft (- 2 ^ 63)) as [H1 | H1]; [right; left; split; [reflexivity | lia] |].
  destruct (Z.leb_spec (2 ^ 63) soft) as [H2 | H2]; [right; left; split; [reflexivity | lia] |].
  cbn [orb].
  destruct (Z.leb_spec (rlim_t soft) (rlim_t hard)) as [H3 | H3].
  - left. split; [reflexivity |]. split; [lia | exact H3].
  - right. right. split; [reflexivity |]. split; [lia | exact H3].
Qed.

Lemma rlim_t_small (v : Z) : 0 <= v < 2 ^ 63 -> rlim_t v = v.
Proof. intros H. unfold rlim_t. apply Z.mod_small. lia. Qed.

Lemma memory_limit_linux_refused (lines : list string) (n : Z) (q : Q) (s : state) (e : exn) :
  get_memory_lines lines = Ret n ->
  setrlimit (int_of_Q (inject_Z (n * 1024) * q)) (snd (rlimit_as s)) = Raise e ->
  memory_limit "Linux" (Some lines) q s =
    (Exc e,
     add_event (EvSetRlimit (int_of_Q (inject_Z (n * 1024) * q)) (snd (rlimit_as s)))
       (add_event EvGetRlimit s)).
Proof.
  intros H Hset. unfold memory_limit, get_memory, call, bind, emit, modify, gets, ret, raise.
  cbn [negb String.eqb Ascii.eqb Bool.eqb fst snd rlimit_as add_event]. rewrite H.
  cbn [fst snd rlimit_as add_event]. by rewrite Hset.
Qed.

(** X3.  On Linux, for a fraction between 0 and 1 and a figure of [n]
    kB that is not negative, the soft limit [int(n * 1024 * percentage)]
    that [memory_limit] hands to [setrlimit], together with the hard
    limit [getrlimit] answered, lies between 0 and the [n * 1024] bytes
    available.  When [setrlimit] accepts the pair, [memory_limit]
    returns with exactly this pair as the limit; it accepts whenever
    [n * 1024] fits a signed 64-bit integer and the hard limit is
    unlimited or at least [n * 1024].  When [setrlimit] refuses (a soft limit that
    does not fit: [OverflowError]; a soft limit above the hard limit:
    [ValueError]), [memory_limit] raises and the limit is as before. *)
Theorem memory_limit_soft_within_available (lines : list string) (n : Z) (q : Q)
    (s : state) :
  get_memory_lines lines = Ret n -> 0 <= n -> (0 <= q)%Q -> (q <= 1)%Q ->
  let soft := int_of_Q (inject_Z (n * 1024) * q) in
  let hard := (rlimit_as s).2 in
  let r := memory_limit "Linux" (Some lines) q s in
  0 <= soft <= n * 1024 /\
  trace r.2 = (trace s ++ [EvGetRlimit; EvSetRlimit soft hard])%list /\
  ((r.1 = Ok tt /\ rlimit_as r.2 = (soft, hard) /\ soft <= rlim_t hard) \/
   (r.1 = Exc OverflowError /\ rlimit_as r.2 = rlimit_as s /\ 2 ^ 63 <= soft) \/
   (r.1 = Exc ValueError /\ rlimit_as r.2 = rlimit_as s /\ rlim_t hard < soft)) /\
  (n * 1024 < 2 ^ 63 -> hard = -1 \/ n * 1024 <= hard < 2 ^ 63 -> r.1 = Ok tt).
Proof.
  intros Hn H0 Hq0 Hq1 soft hard r.
  assert (Hb : 0 <= soft <= n * 1024)
    by (apply int_of_Q_scale_bounds; [lia | exact Hq0 | exact Hq1]).
  assert (Hcases :
    (r = (Ok tt, set_rlimit_as (soft, hard)
                   (add_event (EvSetRlimit soft hard) (add_event EvGetRlimit s))) /\
     - 2 ^ 63 <= soft < 2 ^ 63 /\ rlim_t soft <= rlim_t hard) \/
    (r = (Exc OverflowError, add_event (EvSetRlimit soft hard) (add_event EvGetRlimit s)) /\
     (soft < - 2 ^ 63 \/ 2 ^ 63 <= soft)) \/
    (r = (Exc ValueError, add_event (EvSetRlimit soft hard) (add_event EvGetRlimit s)) /\
     - 2 ^ 63 <= soft < 2 ^ 63 /\ rlim_t hard < rlim_t soft)).
  { destruct (setrlimit_cases soft hard) as [(Hs & Hr) | [(Hs & Hr) | (Hs & Hr)]].
    - left. split; [by apply memory_limit_linux | exact Hr].
    - right. left. split; [by apply memory_limit_linux_refused | exact Hr].
    - right. right. split; [by apply memory_limit_linux_refused | exact Hr]. }
  split; [exact Hb |].
  split; [| split].
  - destruct Hcases as [(-> & _) | [(-> & _) | (-> & _)]];
      cbn [snd trace add_event set_rlimit_as]; by rewrite <- app_assoc.
  - destruct Hcases as [(-> & Hr & Hle) | [(-> & Hr) | (-> & Hr & Hlt)]];
      cbn [fst snd rlimit_as add_event set_rlimit_as].
    + left. split; [reflexivity |]. split; [reflexivity |].
      rewrite rlim_t_small in Hle by lia. exact Hle.
    + right. left. split; [reflexivity |]. split; [reflexivity | lia].
    + right. right. split; [reflexivity |]. split; [reflexivity |].
      rewrite (rlim_t_small soft) in Hlt by lia. exact Hlt.
  - intros Hfit Hhard.
    destruct Hcases as [(-> & _) | [(_ & Hr) | (_ & Hr & Hlt)]]; [reflexivity | lia |].
    exfalso. rewrite (rlim_t_small soft) in Hlt by lia.
    destruct Hhard as [Hinf | Hfin].
    + unfold rlim_t in Hlt. rewrite Hinf in Hlt.
      change ((-1) mod 2 ^ 64) with (2 ^ 64 - 1) in Hlt. lia.
    + rewrite rlim_t_small in Hlt by lia. lia.
Qed.

Lemma memory_limit_soft_within_available_witness :
  get_memory_lines ex_meminfo = Ret 4000000 /\
  (memory_limit "Linux" (Some ex_meminfo) default_percentage ex_initial).1 = Ok tt /\
  (memory_limit "Linux" (Some ex_meminfo) default_percentage
     (initial_state ex_files (-1, 1000000))).1 = Exc ValueError.
Proof.
  assert (Hn : get_memory_lines ex_meminfo = Ret 4000000) by (vm_compute; reflexivity).
  assert (H0 : 0 <= 4000000) by lia.
  assert (Hq0 : (0 <= default_percentage)%Q) by (unfold default_percentage, Qle; simpl; lia).
  assert (Hq1 : (default_percentage <= 1)%Q) by (unfold default_percentage, Qle; simpl; lia).
  split; [exact Hn |]. split.
  - apply (proj2 (proj2 (proj2
             (memory_limit_soft_within_available ex_meminfo 4000000 default_percentage
                ex_initial Hn H0 Hq0 Hq1)))); [lia | left; reflexivity].
  - destruct (proj1 (proj2 (proj2
                (memory_limit_soft_within_available ex_meminfo 4000000 default_percentage
                   (initial_state ex_files (-1, 1000000)) Hn H0 Hq0 Hq1))))
      as [(_ & _ & H) | [(_ & _ & H) | (H & _)]]; [exfalso | exfalso | exact H];
      vm_compute in H; exact (H eq_refl).
Defined.

(** X4.  When [memory_limit] raises, the address-space limit is as it
    was.  Either reading /proc/meminfo failed ([OSError] when it cannot
    be opened, [IndexError] or [ValueError] on a malformed line), after
    [getrlimit] and before any [setrlimit]; or /proc/meminfo was read
    and [setrlimit] itself refused the pair, with [OverflowError] or
    [ValueError]. *)
Theorem memory_limit_failure_leaves_limit (pl : string) (mi : option (list string))
    (q : Q) (s : state) (e : exn) :
  (memory_limit pl mi q s).1 = Exc e ->
  rlimit_as (memory_limit pl mi q s).2 = rlimit_as s /\
  ((e ∈ [OSError; IndexError; ValueError] /\
    (get_memory mi s).1 = Exc e /\
    trace (memory_limit pl mi q s).2 = (trace s ++ [EvGetRlimit])%list) \/
   (exists n,
      (get_memory mi s).1 = Ok n /\
      setrlimit (int_of_Q (inject_Z (n * 1024) * q)) (rlimit_as s).2 = Raise e /\
      e ∈ [OverflowError; ValueError] /\
      trace (memory_limit pl mi q s).2 =
        (trace s ++ [EvGetRlimit;
                     EvSetRlimit (int_of_Q (inject_Z (n * 1024) * q)) (rlimit_as s).2])%list)).
Proof.
  unfold memory_limit. destruct (negb (String.eqb pl "Linux")); [discriminate |].
  unfold call, bind, emit, modify, gets, get_memory, raise, ret. cbn [fst snd].
  destruct mi as [lines |].
  - destruct (get_memory_lines lines) as [n | e'] eqn:E.
    + cbn [fst snd rlimit_as add_event].
      destruct (setrlimit_cases (int_of_Q (inject_Z (n * 1024) * q)) (rlimit_as s).2)
        as [(Hs & _) | [(Hs & _) | (Hs & _)]]; rewrite Hs; cbn [fst snd rlimit_as add_event];
        [discriminate | |]; intros [= <-]; (split; [reflexivity |]); right; exists n;
        (split; [reflexivity |]); (split; [first [exact Hs | reflexivity] |]);
        (split; [list_mem | cbn [trace add_event]; by rewrite <- app_assoc]).
    + cbn [fst snd]. intros [= <-]. split; [reflexivity |]. left.
      split; [| by split].
      destruct (get_memory_lines_raises lines e' E) as [-> | ->]; list_mem.
  - cbn [fst snd]. intros [= <-]. split; [reflexivity |]. left. split; [list_mem | by split].
Qed.

Lemma memory_limit_failure_leaves_limit_witness :
  (memory_limit "Linux" None default_percentage ex_initial).1 = Exc OSError /\
  rlimit_as (memory_limit "Linux" None default_percentage ex_initial).2 = (-1, -1) /\
  (memory_limit "Linux" (Some ex_meminfo) default_percentage
     (initial_state ex_files (500, 1000))).1 = Exc ValueError /\
  rlimit_as (memory_limit "Linux" (Some ex_meminfo) default_percentage
               (initial_state ex_files (500, 1000))).2 = (500, 1000).
Proof.
  assert (H : (memory_limit "Linux" None default_percentage ex_initial).1 = Exc OSError)
    by reflexivity.
  assert (H' : (memory_limit "Linux" (Some ex_meminfo) default_percentage
                  (initial_state ex_files (500, 1000))).1 = Exc ValueError)
    by (vm_compute; reflexivity).
  split; [exact H |]. split.
  - exact (proj1 (memory_limit_failure_leaves_limit "Linux" None default_percentage
                    ex_initial OSError H)).
  - split; [exact H' |].
    exact (proj1 (memory_limit_failure_leaves_limit "Linux" (Some ex_meminfo)
                    default_percentage (initial_state ex_files (500, 1000)) ValueError H')).
Defined.

(** ** process *)

Ltac run_process :=
  cbv [process bind call emit modify gets ret raise gc_log add_event trace fst snd
       exists_path unlink set_files orb
       pending_future_map pending_task_id_map futures_created count pool files rlimit_as].

(** X5.  An exception raised by a stage leaves [process] as it is: the
    later stages are not run, the job is not marked as reported and no
    file is deleted. *)
Theorem process_stage_failure (cfg : config) (st : stages)
    (target copy_path : option path) (t : Task)
    (report auto capeproc md : bool) (s : state) (e : exn) :
  let tid := dict_id_or_0 t in
  let run := process cfg st target copy_path (Some t) report auto capeproc md s in
  (RunProcessing st seed_results = Raise e ->
   run.1 = Exc e /\ files run.2 = files s /\
   pipeline (trace run.2) = (pipeline (trace s) ++ [EvRunProcessing tid seed_results])%list) /\
  (forall r1,
     RunProcessing st seed_results = Ret r1 -> RunSignatures st None r1 = Raise e ->
     run.1 = Exc e /\ files run.2 = files s /\
     pipeline (trace run.2) =
       (pipeline (trace s) ++
        [EvRunProcessing tid seed_results; EvRunSignatures tid r1 None])%list) /\
  (forall r1 r2,
     RunProcessing st seed_results = Ret r1 -> RunSignatures st None r1 = Ret r2 ->
     report = true ->
     RunReporting st (reprocess_flag report auto capeproc) r2 = Raise e ->
     run.1 = Exc e /\ files run.2 = files s /\
     pipeline (trace run.2) =
       (pipeline (trace s) ++
        [EvRunProcessing tid seed_results; EvRunSignatures tid r1 None;
         EvRunReporting tid r2 (reprocess_flag report auto capeproc)])%list).
Proof.
  intros tid run. subst run tid. destruct s as [pfm ptm fc cnt pl fs rl tr].
  split; [| split].
  - intros H1. destruct md; run_process; rewrite H1; cbv beta iota;
      (split; [reflexivity |]); (split; [reflexivity |]);
      rewrite <- ?app_assoc, !pipeline_app; reflexivity.
  - intros r1 H1 H2. destruct md; run_process; rewrite H1; cbv beta iota; rewrite H2;
      cbv beta iota;
      (split; [reflexivity |]); (split; [reflexivity |]);
      rewrite <- ?app_assoc, !pipeline_app; reflexivity.
  - intros r1 r2 H1 H2 -> H3. unfold reprocess_flag in *.
    destruct md, auto, capeproc; cbv [orb] in H3 |- *; run_process;
      rewrite H1; cbv beta iota; rewrite H2; cbv beta iota; rewrite H3; cbv beta iota;
      (split; [reflexivity |]); (split; [reflexivity |]);
      rewrite <- ?app_assoc, !pipeline_app; reflexivity.
Qed.

Lemma process_stage_failure_witness :
  let st := mkStages (fun r => Ret r) (fun _ _ => Raise ValueError) (fun _ r => Ret r) in
  (process ex_cfg st (Some ["/tmp/a.exe"]) None (Some ex_task_A) true true false false
     ex_initial).1 = Exc ValueError /\
  status_writes (trace (process ex_cfg st (Some ["/tmp/a.exe"]) None (Some ex_task_A)
                          true true false false ex_initial).2) = [].
Proof.
  intros st.
  destruct (proj1 (proj2 (process_stage_failure ex_cfg st (Some ["/tmp/a.exe"]) None
                            ex_task_A true true false false ex_initial ValueError))
              seed_results eq_refl eq_refl) as (H1 & _ & _).
  split; [exact H1 | reflexivity].
Defined.

(** X6.  [process] deletes files only when called with both [report]
    and [auto]: without a report, or outside auto mode (as [main] calls
    it), the files are left as they were, whatever the stages answer and
    whatever the configuration says. *)
Theorem process_deletes_only_in_auto_report (cfg : config) (st : stages)
    (target copy_path : option path) (task : option Task)
    (report auto capeproc md : bool) (s : state) :
  report = false \/ auto = false ->
  files (process cfg st target copy_path task report auto capeproc md s).2 = files s.
Proof.
  intros H.
  assert (Hk : steps (keeps files)
                 (process cfg st target copy_path task report auto capeproc md)).
  { unfold process. destruct task as [t |]; [| apply steps_raise, _].
    destruct H as [-> | ->]; steps_go keeps_leaf. }
  apply Hk.
Qed.

Lemma process_deletes_only_in_auto_report_witness :
  files (process (mkConfig "/opt/CAPEv2" 0 0 true true) ex_stages
           (Some (copy_origin_path ex_cfg ex_sample)) (Some (copy_origin_path ex_cfg ex_sample))
           (Some ex_task_A) true false false false ex_initial).2 = files ex_initial.
Proof.
  apply process_deletes_only_in_auto_report. by right.
Defined.




(** ** The completion callback and the two dictionaries *)

Lemma deliver1_pending (f : future) (i : Z) (r : resolution) (s : state) :
  pending_future_map s !! f = Some i ->
  is_Some (pending_task_id_map s !! i) ->
  deliver1 (f, r) s =
    (Ok tt,
     mkState (delete f (pending_future_map s)) (delete i (pending_task_id_map s))
             (futures_created s) (count s) (pool s) (files s) (rlimit_as s)
             (trace s ++ EvCallback f r :: completion_events r (Some i))).
Proof.
  intros Hf Hi. unfold deliver1, try_except, bind, emit, modify. cbn [fst snd].
  rewrite (processing_finished_pending f i r (add_event (EvCallback f r) s)) by assumption.
  cbn [add_event pending_future_map pending_task_id_map futures_created count pool files
       rlimit_as trace].
  by rewrite <- app_assoc.
Qed.

Lemma deliver_cons (fr : future * resolution) (l : list (future * resolution)) (s : state) :
  deliver (fr :: l) s = deliver l (deliver1 fr s).2.
Proof.
  change (deliver (fr :: l) s) with ((deliver1 fr ;; deliver l) s).
  destruct (deliver1_run fr s) as (new & Hok & _). by rewrite (bind_ok _ _ s tt Hok).
Qed.

(** The failure writes of a resolution. *)
Lemma status_writes_completion (r : resolution) (i : option Z) :
  status_writes (completion_events r i) =
    match r with ResSuccess => [] | _ => [(i, TASK_FAILED_PROCESSING)] end.
Proof. by destruct r. Qed.

(** X8.  Completions commute: in a state that [autoprocess] reaches,
    two pending futures can resolve in either order; both orders remove
    the same two entries from both dictionaries and write the same
    failure states, each for its own job. *)
Theorem completions_commute (cfg : config) (a : auto_args) (inp : run_input)
    (fs : gset path) (rl : Z * Z) (f1 f2 : future) (i1 i2 : Z) (r1 r2 : resolution) :
  let s := (autoprocess cfg a inp (initial_state fs rl)).2 in
  pending_future_map s !! f1 = Some i1 ->
  pending_future_map s !! f2 = Some i2 ->
  f1 <> f2 ->
  let sa := (deliver [(f1, r1); (f2, r2)] s).2 in
  let sb := (deliver [(f2, r2); (f1, r1)] s).2 in
  let w1 := match r1 with ResSuccess => [] | _ => [(Some i1, TASK_FAILED_PROCESSING)] end in
  let w2 := match r2 with ResSuccess => [] | _ => [(Some i2, TASK_FAILED_PROCESSING)] end in
  pending_future_map sa = delete f2 (delete f1 (pending_future_map s)) /\
  pending_task_id_map sa = delete i2 (delete i1 (pending_task_id_map s)) /\
  pending_future_map sb = pending_future_map sa /\
  pending_task_id_map sb = pending_task_id_map sa /\
  status_writes (trace sa) = (status_writes (trace s) ++ w1 ++ w2)%list /\
  status_writes (trace sb) = (status_writes (trace s) ++ w2 ++ w1)%list.
Proof.
  intros s H1 H2 Hne sa sb w1 w2.
  destruct (autoprocess_initial cfg a inp fs rl) as ([Hb _ _] & _). fold s in Hb.
  assert (Hi1 : pending_task_id_map s !! i1 = Some f1) by (by apply Hb).
  assert (Hi2 : pending_task_id_map s !! i2 = Some f2) by (by apply Hb).
  assert (Hine : i1 <> i2) by congruence.
  subst sa sb. rewrite !deliver_cons. cbn [deliver ret snd].
  rewrite (deliver1_pending f1 i1 r1 s), (deliver1_pending f2 i2 r2 s) by eauto.
  cbn [snd].
  rewrite (deliver1_pending f2 i2 r2), (deliver1_pending f1 i1 r1);
    cbn [pending_future_map pending_task_id_map];
    rewrite ?lookup_delete_ne by congruence; eauto.
  cbn [snd pending_future_map pending_task_id_map trace].
  split; [reflexivity |]. split; [reflexivity |].
  split; [apply delete_delete |]. split; [apply delete_delete |].
  rewrite <- !app_assoc, !status_writes_app.
  change (?x :: ?l)%list with ([x] ++ l)%list.
  rewrite !status_writes_app, !status_writes_completion. simpl.
  rewrite ?app_nil_r. by split.
Qed.

Lemma completions_commute_witness :
  pending_future_map ex_state_2 !! 0%nat = Some 1 /\
  pending_future_map ex_state_2 !! 1%nat = Some 2 /\
  pending_task_id_map (deliver [(1%nat, ResSuccess); (0%nat, ResTimeout)] ex_state_2).2 =
    pending_task_id_map (deliver [(0%nat, ResTimeout); (1%nat, ResSuccess)] ex_state_2).2.
Proof.
  assert (H1 : pending_future_map ex_state_2 !! 0%nat = Some 1) by (vm_compute; reflexivity).
  assert (H2 : pending_future_map ex_state_2 !! 1%nat = Some 2) by (vm_compute; reflexivity).
  assert (H3 : 0%nat <> 1%nat) by discriminate.
  split; [exact H1 |]. split; [exact H2 |].
  exact (proj1 (proj2 (proj2 (proj2
           (completions_commute ex_cfg ex_args_3 ex_run_3 ex_files (-1, -1)
              0%nat 1%nat 1 2 ResTimeout ResSuccess H1 H2 H3))))).
Defined.

Lemma deliver1_WF (fr : future * resolution) (s : state) : WF s -> WF (deliver1 fr s).2.
Proof. intros W. by destruct (deliver1_shrinks fr s) as [H _]; destruct (H W). Qed.

Lemma deliver1_dom (f : future) (r : resolution) (s : state) :
  WF s ->
  dom (pending_future_map (deliver1 (f, r) s).2) = dom (pending_future_map s) ∖ {[f]}.
Proof.
  intros [Hb _ _].
  destruct (deliver1_run (f, r) s) as (new & _ & _ & _ & _ & _ & _ & _ & _ & _ & _ & Hm).
  simpl in Hm. destruct (pending_future_map s !! f) as [i |] eqn:Ef.
  - destruct Hm as [-> _]. apply dom_delete_L.
  - destruct Hm as [-> _]. symmetry. apply difference_disjoint_L, disjoint_singleton_r.
    by apply not_elem_of_dom.
Qed.

Lemma WF_tables_empty (s : state) :
  WF s -> pending_future_map s = ∅ -> pending_task_id_map s = ∅.
Proof.
  intros [Hb _ _] He. apply map_eq. intros i. rewrite lookup_empty.
  destruct (pending_task_id_map s !! i) as [f |] eqn:E; [| reflexivity].
  apply Hb in E. by rewrite He, lookup_empty in E.
Qed.

Lemma deliver_drains (l : list (future * resolution)) (s : state) :
  WF s -> dom (pending_future_map s) ⊆ list_to_set l.*1 ->
  pending_future_map (deliver l s).2 = ∅ /\ pending_task_id_map (deliver l s).2 = ∅.
Proof.
  revert s. induction l as [| [f r] l IH]; intros s W Hd.
  - assert (He : pending_future_map s = ∅).
    { apply dom_empty_inv_L. apply set_eq. intros g. split; [apply Hd | by intros ?%not_elem_of_empty]. }
    split; [exact He | by apply WF_tables_empty].
  - rewrite deliver_cons. apply IH; [by apply deliver1_WF |].
    rewrite (deliver1_dom f r s W). intros g Hg.
    apply elem_of_difference in Hg as [Hg Hne].
    apply Hd in Hg. simpl in Hg. apply elem_of_union in Hg as [Hg | Hg]; [contradiction | exact Hg].
Qed.

(** X9.  Draining: from a state that [autoprocess] reaches, once a
    completion has been delivered for every pending future (in any
    order, with any outcome, possibly among completions of futures that
    are not pending), both dictionaries are empty. *)
Theorem drain_empties_tables (cfg : config) (a : auto_args) (inp : run_input)
    (fs : gset path) (rl : Z * Z) (l : list (future * resolution)) :
  let s := (autoprocess cfg a inp (initial_state fs rl)).2 in
  dom (pending_future_map s) ⊆ list_to_set l.*1 ->
  pending_future_map (deliver l s).2 = ∅ /\ pending_task_id_map (deliver l s).2 = ∅.
Proof.
  intros s Hd. apply deliver_drains; [| exact Hd].
  by destruct (autoprocess_initial cfg a inp fs rl) as (W & _).
Qed.

Lemma drain_empties_tables_witness :
  dom (pending_future_map ex_state_2) ⊆
    list_to_set [(5%nat, ResSuccess); (1%nat, ResException); (0%nat, ResTimeout)].*1 /\
  pending_task_id_map
    (deliver [(5%nat, ResSuccess); (1%nat, ResException); (0%nat, ResTimeout)] ex_state_2).2 = ∅.
Proof.
  assert (H : dom (pending_future_map ex_state_2) ⊆
              list_to_set [(5%nat, ResSuccess); (1%nat, ResException); (0%nat, ResTimeout)].*1).
  { apply (bool_decide_unpack _). vm_compute. exact I. }
  split; [exact H |].
  exact (proj2 (drain_empties_tables ex_cfg ex_args_3 ex_run_3 ex_files (-1, -1) _ H)).
Defined.

(** X10.  A completion for a future that has no entry (a missing key)
    changes neither dictionary: the callback raises [KeyError] at the
    first [del], after having written, for a failure outcome, a failed
    state for the job id [None]; the pool logs the exception and the
    delivery returns. *)
Theorem completion_of_unknown_future (f : future) (r : resolution) (s : state) :
  pending_future_map s !! f = None ->
  (processing_finished f r s).1 = Exc KeyError /\
  (deliver1 (f, r) s).1 = Ok tt /\
  pending_future_map (deliver1 (f, r) s).2 = pending_future_map s /\
  pending_task_id_map (deliver1 (f, r) s).2 = pending_task_id_map s /\
  exists new,
    trace (deliver1 (f, r) s).2 = (trace s ++ EvCallback f r :: new)%list /\
    status_writes new =
      match r with ResSuccess => [] | _ => [(None, TASK_FAILED_PROCESSING)] end.
Proof.
  intros Hf. split; [by apply processing_finished_unknown |].
  destruct (deliver1_run (f, r) s) as (new & Hok & Htr & _ & _ & Hsw & _ & _ & _ & _ & _ & Hm).
  simpl in *. rewrite Hf in Hm, Hsw. destruct Hm as [Hp Ht].
  split; [exact Hok |]. split; [exact Hp |]. split; [exact Ht |].
  exists new. by split.
Qed.

Lemma completion_of_unknown_future_witness :
  pending_future_map ex_state_2 !! 7%nat = None /\
  pending_task_id_map (deliver1 (7%nat, ResTimeout) ex_state_2).2 =
    pending_task_id_map ex_state_2.
Proof.
  assert (H : pending_future_map ex_state_2 !! 7%nat = None) by (vm_compute; reflexivity).
  split; [exact H |].
  exact (proj1 (proj2 (proj2 (proj2
           (completion_of_unknown_future 7%nat ResTimeout ex_state_2 H))))).
Defined.

(** X11.  The two dictionaries stay in step: in every state that
    [autoprocess] reaches they are inverse to each other, so the job ids
    with an entry are exactly the values of the future map and the
    pending futures exactly the values of the task map, and every
    pending future is one the pool created. *)
Theorem tables_stay_in_step (cfg : config) (a : auto_args) (inp : run_input)
    (fs : gset path) (rl : Z * Z) :
  let s := (autoprocess cfg a inp (initial_state fs rl)).2 in
  (forall f i,
     pending_future_map s !! f = Some i <-> pending_task_id_map s !! i = Some f) /\
  dom (pending_task_id_map s) = map_img (pending_future_map s) /\
  dom (pending_future_map s) = map_img (pending_task_id_map s) /\
  (forall f, f ∈ dom (pending_future_map s) -> (f < futures_created s)%nat).
Proof.
  intros s. destruct (autoprocess_initial cfg a inp fs rl) as ([Hb Hf _] & _).
  fold s in Hb, Hf. split; [exact Hb |]. split; [| split].
  - apply set_eq. intros i. rewrite elem_of_dom, elem_of_map_img. split.
    + intros [f Hi]. exists f. by apply Hb.
    + intros [f Hi]. exists f. by apply Hb.
  - apply set_eq. intros f. rewrite elem_of_dom, elem_of_map_img. split.
    + intros [i Hi]. exists i. by apply Hb.
    + intros [i Hi]. exists i. by apply Hb.
  - intros f [i Hi]%elem_of_dom. by apply (Hf f i).
Qed.

Lemma Forall_omap {A B} (f : A -> option B) (P : A -> Prop) (Q : B -> Prop) (l : list A) :
  (forall x y, P x -> f x = Some y -> Q y) -> Forall P l -> Forall Q (omap f l).
Proof.
  intros H. induction 1 as [| x l Hx _ IH]; [constructor |].
  cbn [omap list_omap]. destruct (f x) as [y |] eqn:E; [| exact IH].
  constructor; [by apply (H x) | exact IH].
Qed.

Lemma dispatch_events_alphabet (cfg : config) (a : auto_args) (inp : iter_input) (t : Task)
    (sample : option Sample) (f : future) (fs : gset path) :
  sample_for inp t sample ->
  Forall (scheduler_event cfg a) (dispatch_head_events cfg a t sample f) /\
  Forall (scheduler_event cfg a) (dispatch_tail_events cfg a t sample fs).
Proof.
  unfold sample_for, dispatch_head_events, dispatch_tail_events.
  destruct (String.eqb (category t) "url") eqn:Hu; cbn [negb].
  - intros ->. rewrite !Forall_app. repeat split.
    + by repeat constructor.
    + constructor.
    + destruct (memory_debugging a); by repeat constructor.
    + constructor; [| by repeat constructor].
      cbn [scheduler_event]. rewrite Hu. by split.
    + destruct (memory_debugging a); by repeat constructor.
    + constructor.
  - intros (smp & _ & ->). rewrite !Forall_app. repeat split.
    + by repeat constructor.
    + by repeat constructor.
    + destruct (memory_debugging a); by repeat constructor.
    + constructor; [| by repeat constructor].
      cbn [scheduler_event]. rewrite Hu. split; [reflexivity | by exists smp].
    + destruct (memory_debugging a); by repeat constructor.
    + destruct (delete_bin_copy cfg) eqn:Hd; cbn [andb]; [| constructor].
      destruct (bool_decide (copy_origin_path cfg smp ∈ fs)); [| constructor].
      constructor; [| constructor]. cbn [scheduler_event]. split; [exact Hd | by exists smp].
Qed.

Ltac alphabet_leaf :=
  first [ apply emits_emit; cbn [scheduler_event]; solve [auto]
        | apply emits_silent; intros ?; reflexivity ].

Lemma deliver_alphabet (cfg : config) (a : auto_args) (l : list (future * resolution)) :
  steps (emits (scheduler_event cfg a)) (deliver l).
Proof.
  induction l as [| fr l IH]; simpl; [apply steps_ret, _ |].
  apply steps_bind; [apply _ | | intros _; exact IH].
  unfold deliver1, processing_finished. steps_go alphabet_leaf.
Qed.

Lemma dispatch_alphabet (cfg : config) (a : auto_args) (inp : iter_input) (t : Task) :
  steps (emits (scheduler_event cfg a)) (dispatch cfg a inp t).
Proof.
  intros s. destruct (sample_cases inp t) as [[sample Hs] | [Hu Hv]].
  - destruct (dispatch_events_alphabet cfg a inp t sample (futures_created s) (files s) Hs)
      as [Hh Ht].
    apply (dispatch_emits _ cfg a inp t sample s Hs Hh Ht). apply deliver_alphabet.
  - rewrite (dispatch_raise cfg a inp t s Hu Hv). cbn [snd].
    exists [EvLogInfo "Processing analysis data for Task #%d"; EvViewSample (sample_id t)].
    split; [simpl; by rewrite <- app_assoc | repeat constructor].
Qed.

Lemma for_tasks_alphabet (cfg : config) (a : auto_args) (inp : iter_input)
    (tasks : list Task) :
  steps (emits (scheduler_event cfg a)) (for_tasks cfg a inp tasks).
Proof.
  induction tasks as [| t tasks IH]; simpl; [apply steps_ret, _ |].
  apply steps_bind; [apply _ | apply steps_gets, _ | intros cur].
  destruct cur; [exact IH |].
  apply steps_bind; [apply _ | apply dispatch_alphabet | intros _; apply steps_ret, _].
Qed.

Lemma disk_backpressure_alphabet (cfg : config) (a : auto_args) (inp : iter_input) :
  steps (emits (scheduler_event cfg a)) (disk_backpressure cfg inp).
Proof.
  unfold disk_backpressure. destruct (Z.eqb_spec (freespace cfg) 0) as [H0 | Hne]; cbn [negb].
  - apply steps_ret, _.
  - steps_go alphabet_leaf.
Qed.

Lemma iteration_alphabet (cfg : config) (a : auto_args) (inp : iter_input) :
  steps (emits (scheduler_event cfg a)) (iteration cfg a inp).
Proof.
  unfold iteration, admit_one.
  steps_go ltac:(first [ apply deliver_alphabet
                       | apply disk_backpressure_alphabet
                       | apply for_tasks_alphabet
                       | alphabet_leaf ]).
Qed.

Lemma while_loop_alphabet (cfg : config) (a : auto_args) (inputs : list iter_input) :
  steps (emits (scheduler_event cfg a)) (while_loop cfg a inputs).
Proof.
  induction inputs as [| inp rest IH]; intros s; simpl;
    destruct (loop_cond cfg s);
    try apply (reflexivity (R := emits (scheduler_event cfg a))).
  revert s. apply steps_bind; [apply _ | apply iteration_alphabet | intros _; exact IH].
Qed.

Lemma autoprocess_alphabet (cfg : config) (a : auto_args) (inp : run_input) :
  steps (emits (scheduler_event cfg a)) (autoprocess cfg a inp).
Proof.
  unfold autoprocess, autoprocess_try, autoprocess_except, with_pool, memory_limit,
    get_memory.
  steps_go ltac:(first [ apply deliver_alphabet
                       | apply while_loop_alphabet
                       | alphabet_leaf ]).
Qed.

(** X12.  Every query of the task table that a run of [autoprocess]
    makes asks for the one status that [failed_processing] selects
    (failed jobs when set, completed jobs otherwise), with the limit
    [parallel]. *)
Theorem scheduler_queries_one_status (cfg : config) (a : auto_args) (inp : run_input)
    (s : state) :
  exists new,
    trace (autoprocess cfg a inp s).2 = (trace s ++ new)%list /\
    Forall (fun q => q = (if failed_processing a then TASK_FAILED_PROCESSING
                          else TASK_COMPLETED, parallel a))
           (store_queries new).
Proof.
  destruct (autoprocess_alphabet cfg a inp s) as (new & Htr & Hall).
  exists new. split; [exact Htr |].
  apply (Forall_omap _ (scheduler_event cfg a)); [| exact Hall].
  intros e [st n] He Hq. destruct e; try discriminate Hq.
  injection Hq as <- <-. cbn [scheduler_event] in He. destruct He as [-> ->].
  reflexivity.
Qed.

(** X13.  Every job that a run of [autoprocess] hands to the pool gets
    the configured processing timeout; a URL job gets no copy path, any
    other job the per-job path storage/binaries/<id>/<sha256> of a
    sample. *)
Theorem schedule_arguments (cfg : config) (a : auto_args) (inp : run_input) (s : state) :
  exists new,
    trace (autoprocess cfg a inp s).2 = (trace s ++ new)%list /\
    Forall (fun c : Task * option path * Z =>
              c.2 = processing_timeout a /\
              (category c.1.1 = "url" -> c.1.2 = None) /\
              (category c.1.1 <> "url" ->
               exists smp, c.1.2 = Some [CUCKOO_ROOT cfg; "storage"; "binaries";
                                         pretty (task_id c.1.1); sha256 smp]))
           (schedule_calls new).
Proof.
  destruct (autoprocess_alphabet cfg a inp s) as (new & Htr & Hall).
  exists new. split; [exact Htr |].
  apply (Forall_omap _ (scheduler_event cfg a)); [| exact Hall].
  intros e [[t cp] tmo] He Hq. destruct e; try discriminate Hq.
  injection Hq as <- <- <-. cbn [scheduler_event] in He. destruct He as [-> Hcp].
  cbn [fst snd]. split; [reflexivity |].
  destruct (String.eqb_spec (category t0) "url") as [Hu | Hu].
  - split; [by intros _ | by intros H].
  - split; [by intros H | intros _; exact Hcp].
Qed.

(** X14.  The scheduler itself runs no stage of the pipeline, and the
    only state it writes to the task table is the failed one. *)
Theorem scheduler_only_marks_failures (cfg : config) (a : auto_args) (inp : run_input)
    (s : state) :
  exists new,
    trace (autoprocess cfg a inp s).2 = (trace s ++ new)%list /\
    Forall (fun e => exists i, e = EvSetStatus i TASK_FAILED_PROCESSING) (pipeline new).
Proof.
  destruct (autoprocess_alphabet cfg a inp s) as (new & Htr & Hall).
  exists new. split; [exact Htr |].
  apply (Forall_omap _ (scheduler_event cfg a)); [| exact Hall].
  intros e e' He Hq. destruct e; try discriminate Hq; cbn [scheduler_event] in He;
    try contradiction.
  injection Hq as <-. subst st. by exists tid.
Qed.

(** ** Files *)

Lemma deletes_origin_copies_preorder (cfg : config) : PreOrder (deletes_origin_copies cfg).
Proof.
  split.
  - intros s. split; [reflexivity | intros p Hp Hn; contradiction].
  - intros s1 s2 s3 [S12 D12] [S23 D23]. split; [by etransitivity |].
    intros p Hp Hn. destruct (decide (p ∈ files s2)) as [H2 | H2].
    + by apply D23.
    + by apply D12.
Qed.

#[local] Existing Instance deletes_origin_copies_preorder.

Lemma deletes_origin_copies_same (cfg : config) (s s' : state) :
  files s' = files s -> deletes_origin_copies cfg s s'.
Proof. intros H. split; rewrite H; [reflexivity | intros p Hp Hn; contradiction]. Qed.

Ltac files_leaf := apply deletes_origin_copies_same; reflexivity.

Lemma dispatch_files (cfg : config) (a : auto_args) (inp : iter_input) (t : Task) :
  steps (deletes_origin_copies cfg) (dispatch cfg a inp t).
Proof.
  intros s. destruct (sample_cases inp t) as [[sample Hs] | [Hu Hv]].
  - destruct (dispatch_trace cfg a inp t sample s Hs) as (arrived & _ & _ & _ & Hf).
    rewrite (dispatch_run cfg a inp t sample s Hs). cbn [snd].
    unfold dispatch_tail_state.
    destruct sample as [smp |];
      [| apply deletes_origin_copies_same; cbn [files]; exact Hf].
    destruct (delete_bin_copy cfg) eqn:Hd; cbn [andb];
      [| apply deletes_origin_copies_same; cbn [files]; exact Hf].
    rewrite Hf.
    destruct (bool_decide (copy_origin_path cfg smp ∈ files s));
      [| by apply deletes_origin_copies_same].
    split; cbn [files].
    + intros p Hp. by apply elem_of_difference in Hp as [Hp _].
    + intros p Hp Hn. split; [exact Hd |]. exists smp.
      destruct (decide (p = copy_origin_path cfg smp)) as [He | He]; [exact He |].
      exfalso. apply Hn. apply elem_of_difference. split; [exact Hp |].
      by intros ?%elem_of_singleton.
  - rewrite (dispatch_raise cfg a inp t s Hu Hv). by apply deletes_origin_copies_same.
Qed.

Lemma for_tasks_files (cfg : config) (a : auto_args) (inp : iter_input) (tasks : list Task) :
  steps (deletes_origin_copies cfg) (for_tasks cfg a inp tasks).
Proof.
  induction tasks as [| t tasks IH]; simpl; [apply steps_ret, _ |].
  apply steps_bind; [apply _ | apply steps_gets, _ | intros cur].
  destruct cur; [exact IH |].
  apply steps_bind; [apply _ | apply dispatch_files | intros _; apply steps_ret, _].
Qed.

Lemma deliver_files (cfg : config) (l : list (future * resolution)) :
  steps (deletes_origin_copies cfg) (deliver l).
Proof.
  induction l as [| fr l IH]; simpl; [apply steps_ret, _ |].
  apply steps_bind; [apply _ | | intros _; exact IH].
  unfold deliver1, processing_finished. steps_go files_leaf.
Qed.

Lemma while_loop_files (cfg : config) (a : auto_args) (inputs : list iter_input) :
  steps (deletes_origin_copies cfg) (while_loop cfg a inputs).
Proof.
  induction inputs as [| inp rest IH]; intros s; simpl;
    destruct (loop_cond cfg s);
    try apply (reflexivity (R := deletes_origin_copies cfg)).
  revert s. apply steps_bind; [apply _ | | intros _; exact IH].
  unfold iteration, admit_one, disk_backpressure.
  steps_go ltac:(first [apply deliver_files | apply for_tasks_files | files_leaf]).
Qed.

(** X15.  By its own statements (what the jobs do in the workers is
    [process]), a run of [autoprocess] creates no file and deletes
    nothing but origin copies storage/binaries/<sha256>, and those only
    when [delete_bin_copy] is set: without the option the files are as
    they were, and in no case does it delete a per-job copy
    storage/binaries/<id>/<sha256>, the path it hands to the worker. *)
Theorem scheduler_deletes_only_origin_copies (cfg : config) (a : auto_args)
    (inp : run_input) (s : state) :
  let s' := (autoprocess cfg a inp s).2 in
  files s' ⊆ files s /\
  (forall p, p ∈ files s -> p ∉ files s' ->
     delete_bin_copy cfg = true /\
     exists smp, p = [CUCKOO_ROOT cfg; "storage"; "binaries"; sha256 smp]) /\
  (delete_bin_copy cfg = false -> files s' = files s) /\
  (forall t smp, bin_copy_path cfg t smp ∈ files s -> bin_copy_path cfg t smp ∈ files s').
Proof.
  intros s'.
  assert (H : deletes_origin_copies cfg s s').
  { subst s'. revert s.
    unfold autoprocess, autoprocess_try, autoprocess_except, with_pool, memory_limit,
      get_memory.
    steps_go ltac:(first [apply deliver_files | apply while_loop_files | files_leaf]). }
  destruct H as [Hsub Hdel].
  split; [exact Hsub |]. split; [exact Hdel |]. split.
  - intros Hd. apply set_eq. intros p. split; [apply Hsub |].
    intros Hp. destruct (decide (p ∈ files s')) as [H | H]; [exact H |].
    destruct (Hdel p Hp H) as [Hd' _]. congruence.
  - intros t smp Hp.
    destruct (decide (bin_copy_path cfg t smp ∈ files s')) as [H | H]; [exact H |].
    destruct (Hdel _ Hp H) as [_ [smp' Heq]]. discriminate Heq.
Qed.

(** ** One dispatch per pass *)

Lemma hoare_try_except {A} (P R Q : state -> Prop) (body : M A) (h : exn -> M A) :
  hoare P body R -> (forall e, hoare R (h e) Q) -> (forall s, R s -> Q s) ->
  hoare P (try_except body h) Q.
Proof.
  intros Hb Hh Hrq s HP. unfold try_except. specialize (Hb s HP).
  destruct (body s) as [[a | e | x |] s1]; simpl in *; auto. by apply Hh.
Qed.

Lemma hoare_try_finally {A} (P R Q : state -> Prop) (body : M A) (fin : M unit) :
  hoare P body R -> hoare R fin Q -> (forall s, R s -> Q s) ->
  hoare P (try_finally body fin) Q.
Proof.
  intros Hb Hf Hrq s HP. unfold try_finally. specialize (Hb s HP).
  destruct (body s) as [[a | e | x |] s1]; simpl in *; auto;
    specialize (Hf s1 Hb); destruct (fin s1) as [[[] | e' | x' |] s2]; simpl in *; auto.
Qed.

Lemma while_loop_passes (cfg : config) (a : auto_args) (d0 : Z) (inputs : list iter_input)
    (c : Z) :
  hoare (J (Z.max 0 (parallel a)) c d0) (while_loop cfg a inputs)
        (J (Z.max 0 (parallel a)) (c + Z.of_nat (length inputs)) d0).
Proof.
  revert c. induction inputs as [| inp rest IH]; intros c s HJ.
  - cbn [while_loop length]. destruct (loop_cond cfg s); cbn [snd];
      revert HJ; apply J_mono; lia.
  - cbn [while_loop]. destruct (loop_cond cfg s); cbn [snd];
      [| revert HJ; apply J_mono; cbn [length]; lia].
    pose proof (iteration_J c d0 cfg a inp s HJ) as H1.
    unfold bind. destruct (iteration cfg a inp s) as [[[] | e | x |] s1]; cbn [snd] in *.
    + apply (J_mono (Z.max 0 (parallel a)) (c + 1 + Z.of_nat (length rest)));
        [lia | cbn [length]; lia |]. by apply IH.
    + revert H1. apply J_mono; cbn [length]; lia.
    + revert H1. apply J_mono; cbn [length]; lia.
    + revert H1. apply J_mono; cbn [length]; lia.
Qed.

Lemma autoprocess_passes (cfg : config) (a : auto_args) (inp : run_input) (s : state) :
  WF s -> Z.of_nat (size (pending_task_id_map s)) <= Z.max 0 (parallel a) ->
  J (Z.max 0 (parallel a)) (Z.of_nat (length (run_iters inp)))
    (Z.of_nat (dispatched (trace s))) (autoprocess cfg a inp s).2.
Proof.
  intros W Hsz.
  set (b := Z.max 0 (parallel a)). set (n := Z.of_nat (length (run_iters inp))).
  set (d0 := Z.of_nat (dispatched (trace s))).
  assert (Hm : forall s', J b 0 d0 s' -> J b n d0 s')
    by (intros s'; apply J_mono; subst n; lia).
  assert (Hq : forall c {A} (m : M A),
            steps (keeps core) m -> steps (emits quiet_event) m ->
            hoare (J b c d0) m (J b c d0))
    by (intros c A m; apply J_quiet).
  unfold autoprocess, bind at 1 2, modify at 1 2. cbn [fst snd].
  assert (H0 : J b 0 d0 (set_pool false (set_count 0 s))).
  { destruct W as [Hb Hf Hg]. split; [by split |]. split; [exact Hsz |].
    split; [simpl; lia |]. split; simpl; subst d0; lia. }
  revert H0. generalize (set_pool false (set_count 0 s)). intros s0 H0.
  revert s0 H0.
  apply (hoare_try_finally _ (J b n d0)); [| | auto].
  - apply (hoare_try_except _ (J b n d0)); [| | auto].
    + unfold autoprocess_try.
      apply (hoare_bind _ (J b 0 d0)); [| intros _ | exact Hm].
      { apply Hq; [apply memory_limit_core | apply memory_limit_quiet]. }
      apply (hoare_bind _ (J b 0 d0)); [| intros _ | exact Hm].
      { apply Hq; [steps_go keeps_leaf | steps_go emits_leaf]. }
      unfold with_pool.
      apply (hoare_bind _ (J b 0 d0)); [| intros _ | exact Hm].
      { apply Hq; [steps_go keeps_leaf | steps_go emits_leaf]. }
      apply (hoare_bind _ (J b 0 d0)); [| intros _ | exact Hm].
      { apply Hq; [steps_go keeps_leaf | steps_go emits_leaf]. }
      apply (hoare_try_finally _ (J b n d0)); [| | auto].
      * intros s1 H1. apply (while_loop_passes cfg a d0 (run_iters inp) 0) in H1.
        exact H1.
      * apply (hoare_bind _ (J b n d0)); [| intros _; apply deliver_J | auto].
        apply Hq; [steps_go keeps_leaf | steps_go emits_leaf].
    + intros e. apply Hq; unfold autoprocess_except, get_memory;
        [steps_go keeps_leaf | steps_go emits_leaf].
  - apply Hq; [steps_go keeps_leaf | steps_go emits_leaf].
Qed.

(** X16.  The loop hands at most one job to the pool per pass: after a
    run of [autoprocess] over n passes at most n jobs were dispatched,
    and the local counter [count] is their number. *)
Theorem dispatches_bounded_by_passes (cfg : config) (a : auto_args) (inp : run_input)
    (fs : gset path) (rl : Z * Z) :
  let s := (autoprocess cfg a inp (initial_state fs rl)).2 in
  count s = Z.of_nat (dispatched (trace s)) /\
  (dispatched (trace s) <= length (run_iters inp))%nat.
Proof.
  intros s.
  assert (Hsz : Z.of_nat (size (pending_task_id_map (initial_state fs rl))) <=
                Z.max 0 (parallel a)).
  { cbn [pending_task_id_map initial_state]. rewrite map_size_empty. lia. }
  destruct (autoprocess_passes cfg a inp (initial_state fs rl) (initial_WF fs rl) Hsz)
    as (_ & _ & Hc & [_ Hd]).
  change (dispatched (trace (initial_state fs rl))) with 0%nat in Hd.
  fold s in Hc, Hd. split; lia.
Qed.

(** ** Exceptions that leave autoprocess *)

(** X17.  An exception that the loop raises never leaves [autoprocess],
    a keyboard interrupt apart: when [autoprocess] ends with an
    exception, either the [try] block raised [KeyboardInterrupt], or the
    [finally] clause found [pool] unbound, or the [try] block raised
    [MemoryError] and the handler's own reading of /proc/meminfo
    failed. *)
Theorem autoprocess_escaping_exception (cfg : config) (a : auto_args) (inp : run_input)
    (s : state) (e : exn) :
  (autoprocess cfg a inp s).1 = Exc e ->
  let t := autoprocess_try cfg a inp (set_pool false (set_count 0 s)) in
  (e = KeyboardInterrupt /\ t.1 = Exc KeyboardInterrupt /\ pool t.2 = true) \/
  (e = UnboundLocalError /\ pool t.2 = false) \/
  (t.1 = Exc MemoryError /\ pool t.2 = true /\
   forall s', (get_memory (run_meminfo_oom inp) s').1 = Exc e).
Proof.
  intros H t. subst t.
  unfold autoprocess, bind at 1 2, modify at 1 2 in H. cbn [fst snd] in H.
  unfold try_finally, try_except in H.
  destruct (autoprocess_try cfg a inp (set_pool false (set_count 0 s))) as [r1 s1].
  cbn [fst snd].
  destruct s1 as [pfm ptm fc cnt pl fls rl tr].
  unfold autoprocess_except, get_memory, pool_method, bind, gets, emit, modify, raise,
    ret, sys_exit in *.
  destruct r1 as [[] | e1 | x |].
  - destruct pl; simpl in H; [discriminate |]. injection H as <-. right. left. by split.
  - destruct e1;
      try solve [destruct pl; simpl in H;
                 [discriminate | injection H as <-; right; left; by split]].
    + destruct pl; simpl in H; injection H as <-;
        [left; by repeat split | right; left; by split].
    + destruct (run_meminfo_oom inp) as [lines |].
      * destruct (get_memory_lines lines) as [kb | e2].
        -- destruct pl; simpl in H; [discriminate |].
           injection H as <-. right. left. by split.
        -- destruct pl; simpl in H; injection H as <-.
           ++ right. right. split; [reflexivity |]. split; [reflexivity |].
              intros s'. reflexivity.
           ++ right. left. by split.
      * destruct pl; simpl in H; injection H as <-.
        -- right. right. split; [reflexivity |]. split; [reflexivity |].
           intros s'. reflexivity.
        -- right. left. by split.
  - destruct pl; simpl in H; [discriminate |]. injection H as <-. right. left. by split.
  - discriminate.
Qed.

Lemma autoprocess_escaping_exception_witness :
  (autoprocess ex_cfg ex_args ex_run_interrupt ex_initial).1 = Exc KeyboardInterrupt /\
  ((KeyboardInterrupt = KeyboardInterrupt /\
    (autoprocess_try ex_cfg ex_args ex_run_interrupt
       (set_pool false (set_count 0 ex_initial))).1 = Exc KeyboardInterrupt /\
    pool (autoprocess_try ex_cfg ex_args ex_run_interrupt
            (set_pool false (set_count 0 ex_initial))).2 = true) \/
   (KeyboardInterrupt = UnboundLocalError /\
    pool (autoprocess_try ex_cfg ex_args ex_run_interrupt
            (set_pool false (set_count 0 ex_initial))).2 = false) \/
   ((autoprocess_try ex_cfg ex_args ex_run_interrupt
       (set_pool false (set_count 0 ex_initial))).1 = Exc MemoryError /\
    pool (autoprocess_try ex_cfg ex_args ex_run_interrupt
            (set_pool false (set_count 0 ex_initial))).2 = true /\
    forall s', (get_memory (run_meminfo_oom ex_run_interrupt) s').1 = Exc KeyboardInterrupt)).
Proof.
  assert (H : (autoprocess ex_cfg ex_args ex_run_interrupt ex_initial).1 =
              Exc KeyboardInterrupt) by (vm_compute; reflexivity).
  split; [exact H |].
  exact (autoprocess_escaping_exception ex_cfg ex_args ex_run_interrupt ex_initial
           KeyboardInterrupt H).
Defined.

(** ** The life of the pool *)

Lemma pool_events_app (t1 t2 : list event) :
  pool_events (t1 ++ t2) = (pool_events t1 ++ pool_events t2)%list.
Proof. apply omap_app. Qed.

Lemma pool_events_none (new : list event) :
  Forall not_pool_event new -> pool_events new = [].
Proof.
  induction 1 as [| e new He _ IH]; [reflexivity |].
  unfold pool_events in *. simpl. destruct e; simpl in *; try exact IH; contradiction.
Qed.

Lemma for_tasks_no_pool_event (cfg : config) (a : auto_args) (inp : iter_input)
    (tasks : list Task) :
  steps (emits not_pool_event) (for_tasks cfg a inp tasks).
Proof.
  induction tasks as [| t tasks IH]; simpl; [apply steps_ret, _ |].
  apply steps_bind; [apply _ | apply steps_gets, _ | intros cur].
  destruct cur; [exact IH |]. unfold dispatch.
  steps_go ltac:(first [apply deliver_emits; intros; exact I | emits_leaf]).
Qed.

Lemma while_loop_no_pool_event (cfg : config) (a : auto_args) (inputs : list iter_input) :
  steps (emits not_pool_event) (while_loop cfg a inputs).
Proof.
  induction inputs as [| inp rest IH]; intros s; simpl;
    destruct (loop_cond cfg s);
    try apply (reflexivity (R := emits not_pool_event)).
  revert s. apply steps_bind; [apply _ | | intros _; exact IH].
  unfold iteration, admit_one, disk_backpressure.
  steps_go ltac:(first [ apply deliver_emits; intros; exact I
                       | apply for_tasks_no_pool_event
                       | emits_leaf ]).
Qed.

Lemma autoprocess_except_run (inp : run_input) (e : exn) (s : state) :
  (autoprocess_except inp e s).1 <> Pending /\
  pool (autoprocess_except inp e s).2 = pool s /\
  emits not_pool_event s (autoprocess_except inp e s).2.
Proof.
  split; [| split].
  - unfold autoprocess_except, get_memory, bind, emit, modify, raise, ret, sys_exit.
    destruct e; try discriminate.
    destruct (run_meminfo_oom inp) as [lines |]; [| discriminate].
    destruct (get_memory_lines lines); discriminate.
  - revert s. change (steps (keeps pool) (autoprocess_except inp e)).
    unfold autoprocess_except, get_memory. steps_go keeps_leaf.
  - revert s. change (steps (emits not_pool_event) (autoprocess_except inp e)).
    unfold autoprocess_except, get_memory. steps_go emits_leaf.
Qed.

Lemma bind_exc {A B} (m : M A) (k : A -> M B) (s : state) (e : exn) :
  (m s).1 = Exc e -> bind m k s = (Exc e, (m s).2).
Proof. unfold bind. destruct (m s) as [[a' | e' | x |] s1]; simpl; congruence. Qed.

Lemma finally_unbound (s : state) :
  pool s = false ->
  (pool_method EvPoolClose ;; pool_method EvPoolJoin) s = (Exc UnboundLocalError, s).
Proof. intros H. unfold pool_method, bind, gets, raise. cbn [fst snd]. by rewrite H. Qed.

Lemma finally_bound (s : state) :
  pool s = true ->
  (pool_method EvPoolClose ;; pool_method EvPoolJoin) s =
    (Ok tt, add_event EvPoolJoin (add_event EvPoolClose s)).
Proof.
  intros H. unfold pool_method, bind, gets, emit, modify. cbn [fst snd pool add_event].
  rewrite H. cbn [fst snd pool add_event]. by rewrite H.
Qed.

(** The [try] block: the set-up fails before the pool exists, or the
    inputs run out inside the [with] block, or the block is left. *)
Lemma autoprocess_try_run (cfg : config) (a : auto_args) (inp : run_input) (s : state) :
  exists new,
    trace (autoprocess_try cfg a inp s).2 = (trace s ++ new)%list /\
    ((pool (autoprocess_try cfg a inp s).2 = pool s /\
      (exists e, (autoprocess_try cfg a inp s).1 = Exc e /\ e <> MemoryError) /\
      pool_events new = []) \/
     (pool (autoprocess_try cfg a inp s).2 = true /\
      (autoprocess_try cfg a inp s).1 = Pending /\
      pool_events new = [EvPoolCreate (parallel a) (maxtasksperchild a)]) \/
     (pool (autoprocess_try cfg a inp s).2 = true /\
      (autoprocess_try cfg a inp s).1 <> Pending /\
      pool_events new = [EvPoolCreate (parallel a) (maxtasksperchild a); EvPoolExit])).
Proof.
  assert (Hml : steps (emits not_pool_event)
                  (memory_limit (run_platform inp) (run_meminfo inp) default_percentage)).
  { unfold memory_limit, get_memory. steps_go emits_leaf. }
  destruct (Hml s) as (n1 & Ht1 & Hn1).
  destruct (memory_limit_result (run_platform inp) (run_meminfo inp) default_percentage s)
    as [Hp1 [Hok | (e1 & He1 & Hne)]].
  - unfold autoprocess_try. rewrite (bind_ok _ _ s tt Hok).
    set (s1 := (memory_limit (run_platform inp) (run_meminfo inp) default_percentage s).2)
      in *.
    rewrite (bind_ok _ _ s1 tt) by reflexivity.
    unfold with_pool. rewrite (bind_ok _ _ _ tt) by reflexivity.
    rewrite (bind_ok _ _ _ tt) by reflexivity.
    cbn [emit modify fst snd].
    set (s2 := set_pool true
                 (add_event (EvPoolCreate (parallel a) (maxtasksperchild a))
                    (add_event (EvLogInfo "Processing analysis data") s1))).
    assert (Ht2 : trace s2 =
              (trace s ++ n1 ++ [EvLogInfo "Processing analysis data";
                                 EvPoolCreate (parallel a) (maxtasksperchild a)])%list).
    { subst s2. cbn [trace set_pool add_event]. rewrite Ht1, <- !app_assoc. reflexivity. }
    assert (Hp2 : pool s2 = true) by reflexivity.
    clearbody s2.
    destruct (while_loop_no_pool_event cfg a (run_iters inp) s2) as (n3 & Ht3 & Hn3).
    pose proof (while_loop_pool cfg a (run_iters inp) s2) as Hp3. unfold keeps in Hp3.
    unfold try_finally.
    destruct (while_loop cfg a (run_iters inp) s2) as [rw s3]. cbn [fst snd] in *.
    assert (Hpe : pool_events
                    (n1 ++ [EvLogInfo "Processing analysis data";
                            EvPoolCreate (parallel a) (maxtasksperchild a)] ++ n3) =
                  [EvPoolCreate (parallel a) (maxtasksperchild a)]).
    { rewrite !pool_events_app, (pool_events_none n1 Hn1), (pool_events_none n3 Hn3).
      reflexivity. }
    assert (Hfin : exists n4,
              (bind (emit EvPoolExit) (fun _ => deliver (run_drain inp)) s3).1 = Ok tt /\
              pool (bind (emit EvPoolExit) (fun _ => deliver (run_drain inp)) s3).2 = true /\
              trace (bind (emit EvPoolExit) (fun _ => deliver (run_drain inp)) s3).2 =
                (trace s3 ++ EvPoolExit :: n4)%list /\
              Forall not_pool_event n4).
    { rewrite (bind_ok _ _ s3 tt) by reflexivity. cbn [emit modify snd].
      destruct (deliver_emits not_pool_event (fun _ _ => I) (fun _ => I) (fun _ => I)
                  (fun _ _ => I) (run_drain inp) (add_event EvPoolExit s3))
        as (n4 & Ht4 & Hn4).
      exists n4. split; [apply deliver_ok |]. split.
      - rewrite (deliver_pool (run_drain inp) (add_event EvPoolExit s3)).
        cbn [pool add_event]. congruence.
      - split; [| exact Hn4]. rewrite Ht4. cbn [trace add_event].
        by rewrite <- app_assoc. }
    destruct Hfin as (n4 & Hr4 & Hp4 & Ht4 & Hn4).
    destruct (bind (emit EvPoolExit) (fun _ => deliver (run_drain inp)) s3) as [rf s4].
    cbn [fst snd] in *. subst rf.
    assert (Hpe4 : pool_events
                     ((n1 ++ [EvLogInfo "Processing analysis data";
                              EvPoolCreate (parallel a) (maxtasksperchild a)] ++ n3) ++
                      EvPoolExit :: n4) =
                   [EvPoolCreate (parallel a) (maxtasksperchild a); EvPoolExit]).
    { rewrite pool_events_app, Hpe.
      change (pool_events (EvPoolExit :: n4)) with (EvPoolExit :: pool_events n4).
      by rewrite (pool_events_none n4 Hn4). }
    destruct rw as [[] | ew | xw |]; cbn [fst snd].
    + exists ((n1 ++ [EvLogInfo "Processing analysis data";
                      EvPoolCreate (parallel a) (maxtasksperchild a)] ++ n3) ++
              EvPoolExit :: n4)%list.
      split; [rewrite Ht4, Ht3, Ht2; by rewrite <- !app_assoc |].
      right. right. split; [exact Hp4 |]. split; [discriminate | exact Hpe4].
    + exists ((n1 ++ [EvLogInfo "Processing analysis data";
                      EvPoolCreate (parallel a) (maxtasksperchild a)] ++ n3) ++
              EvPoolExit :: n4)%list.
      split; [rewrite Ht4, Ht3, Ht2; by rewrite <- !app_assoc |].
      right. right. split; [exact Hp4 |]. split; [discriminate | exact Hpe4].
    + exists ((n1 ++ [EvLogInfo "Processing analysis data";
                      EvPoolCreate (parallel a) (maxtasksperchild a)] ++ n3) ++
              EvPoolExit :: n4)%list.
      split; [rewrite Ht4, Ht3, Ht2; by rewrite <- !app_assoc |].
      right. right. split; [exact Hp4 |]. split; [discriminate | exact Hpe4].
    + exists (n1 ++ [EvLogInfo "Processing analysis data";
                     EvPoolCreate (parallel a) (maxtasksperchild a)] ++ n3)%list.
      split; [rewrite Ht3, Ht2; by rewrite <- !app_assoc |].
      right. left. split; [congruence |]. split; [reflexivity | exact Hpe].
  - unfold autoprocess_try. rewrite (bind_exc _ _ s e1 He1). cbn [fst snd].
    exists n1. split; [exact Ht1 |]. left.
    split; [exact Hp1 |]. split; [by exists e1 | by apply pool_events_none].
Qed.

(** X18.  The pool is released whenever it was created: a run of
    [autoprocess] that ends after the pool was created, however the loop
    ended, has exited the [with] block and then closed and joined the
    pool, once each and in this order, and these are the last things it
    did; the pool is created at most once.  The other runs are those in
    which the set-up failed before the pool existed, which end in
    [UnboundLocalError] without any pool operation, and those still
    inside the loop. *)
Theorem pool_lifecycle (cfg : config) (a : auto_args) (inp : run_input) (s : state) :
  exists new,
    trace (autoprocess cfg a inp s).2 = (trace s ++ new)%list /\
    ((pool (autoprocess cfg a inp s).2 = false /\
      (autoprocess cfg a inp s).1 = Exc UnboundLocalError /\
      pool_events new = []) \/
     (pool (autoprocess cfg a inp s).2 = true /\
      (autoprocess cfg a inp s).1 = Pending /\
      pool_events new = [EvPoolCreate (parallel a) (maxtasksperchild a)]) \/
     (pool (autoprocess cfg a inp s).2 = true /\
      (autoprocess cfg a inp s).1 <> Pending /\
      pool_events new =
        [EvPoolCreate (parallel a) (maxtasksperchild a); EvPoolExit;
         EvPoolClose; EvPoolJoin] /\
      exists before, new = (before ++ [EvPoolClose; EvPoolJoin])%list)).
Proof.
  assert (Heq : autoprocess cfg a inp s =
            try_finally
              (try_except (autoprocess_try cfg a inp) (autoprocess_except inp))
              (pool_method EvPoolClose ;; pool_method EvPoolJoin)
              (set_pool false (set_count 0 s))) by reflexivity.
  rewrite Heq. clear Heq.
  set (s0 := set_pool false (set_count 0 s)).
  assert (Ht0 : trace s0 = trace s) by reflexivity.
  assert (Hp0 : pool s0 = false) by reflexivity.
  clearbody s0.
  destruct (autoprocess_try_run cfg a inp s0) as (n & Ht & Hcases).
  unfold try_finally, try_except.
  destruct (autoprocess_try cfg a inp s0) as [r1 s1]. cbn [fst snd] in *.
  destruct Hcases as [(Hp & (e & -> & Hne) & Hpe) | [(Hp & -> & Hpe) | (Hp & Hnp & Hpe)]].
  - destruct (autoprocess_except_run inp e s1) as (Hnp & Hph & (nh & Hth & Hnh)).
    destruct (autoprocess_except inp e s1) as [rh s2]. cbn [fst snd] in *.
    assert (Hp2 : pool s2 = false) by congruence.
    exists (n ++ nh)%list.
    destruct rh as [[] | eh | xh |]; try contradiction;
      rewrite (finally_unbound s2 Hp2); cbn [fst snd];
      (split; [rewrite Hth, Ht, Ht0; by rewrite <- app_assoc |]);
      left; (split; [exact Hp2 |]); (split; [reflexivity |]);
      by rewrite pool_events_app, Hpe, (pool_events_none nh Hnh).
  - cbn [fst snd]. exists n. split; [by rewrite Ht, Ht0 |]. right. left. by repeat split.
  - destruct r1 as [[] | e | x |]; try contradiction.
    + rewrite (finally_bound s1 Hp). cbn [fst snd trace pool add_event].
      exists (n ++ [EvPoolClose; EvPoolJoin])%list.
      split; [rewrite Ht, Ht0; by rewrite <- !app_assoc |].
      right. right. split; [exact Hp |]. split; [discriminate |].
      split; [by rewrite pool_events_app, Hpe | by exists n].
    + destruct (autoprocess_except_run inp e s1) as (Hnph & Hph & (nh & Hth & Hnh)).
      destruct (autoprocess_except inp e s1) as [rh s2]. cbn [fst snd] in *.
      assert (Hp2 : pool s2 = true) by congruence.
      exists ((n ++ nh) ++ [EvPoolClose; EvPoolJoin])%list.
      destruct rh as [[] | eh | xh |]; try contradiction;
        rewrite (finally_bound s2 Hp2); cbn [fst snd trace pool add_event];
        (split; [rewrite Hth, Ht, Ht0; by rewrite <- !app_assoc |]);
        right; right; (split; [exact Hp2 |]); (split; [discriminate |]);
        (split; [| by exists (n ++ nh)%list]);
        by rewrite !pool_events_app, Hpe, (pool_events_none nh Hnh).
    + rewrite (finally_bound s1 Hp). cbn [fst snd trace pool add_event].
      exists (n ++ [EvPoolClose; EvPoolJoin])%list.
      split; [rewrite Ht, Ht0; by rewrite <- !app_assoc |].
      right. right. split; [exact Hp |]. split; [discriminate |].
      split; [by rewrite pool_events_app, Hpe | by exists n].
Qed.

(** ** Replaying signatures: where the report comes from *)

(** With MongoDB off, [_load_report] gives [False] when ElasticSearch is
    not to be used, fails the request or has no hit. *)
Lemma load_report_false (rs : report_stores) (tid : Z) (one : bool) (s : state) :
  mongodb_enabled rs = false ->
  (elasticsearchdb_enabled rs && negb (elasticsearchdb_searchonly rs)) = false \/
  es_search rs = Raise ESRequestError \/ es_search rs = Ret [] ->
  exists pre,
    _load_report rs tid one s = (Ok (VBool false), mkState (pending_future_map s)
      (pending_task_id_map s) (futures_created s) (count s) (pool s) (files s)
      (rlimit_as s) (trace s ++ pre)) /\
    Forall (fun e => e = EvEsSearch tid \/ e = EvPrint "RequestError") pre.
Proof.
  intros Hm Hes. unfold _load_report. rewrite Hm. destruct s as [pfm ptm fc cnt pl fs rl tr].
  destruct (elasticsearchdb_enabled rs && negb (elasticsearchdb_searchonly rs)) eqn:Hu.
  - destruct Hes as [H | [H | H]]; [discriminate | |];
      unfold try_except, call, bind, emit, modify, ret, raise; rewrite H;
      cbn [fst snd]; unfold add_event;
      cbn [pending_future_map pending_task_id_map futures_created
           count pool files rlimit_as trace].
    + exists [EvEsSearch tid; EvPrint "RequestError"].
      split; [by rewrite <- app_assoc |].
      constructor; [by left |]. constructor; [by right |]. constructor.
    + exists [EvEsSearch tid]. split; [reflexivity |].
      constructor; [by left |]. constructor.
  - exists []. cbn [pending_future_map pending_task_id_map futures_created
                    count pool files rlimit_as trace].
    rewrite app_nil_r. split; [reflexivity | constructor].
Qed.

(** X19.  Replaying signatures with MongoDB off: when ElasticSearch is
    not to be used, fails the request or has no hit for the job, the
    replay falls back to the job's reports/report.json; when that file
    exists it is loaded and, unless it holds [null], the signatures run
    on its content, and the outcome of the replay is theirs. *)
Theorem replay_falls_back_to_report_file (cfg : config) (st : stages) (w : world)
    (a : args) (tid : Z) (t : Task) (s : state) (v : value) :
  mongodb_enabled (stores w) = false ->
  (elasticsearchdb_enabled (stores w) && negb (elasticsearchdb_searchonly (stores w))) = false \/
  es_search (stores w) = Raise ESRequestError \/ es_search (stores w) = Ret [] ->
  report_json cfg (arg_id a) ∈ files s ->
  json_load w (report_json cfg (arg_id a)) = Ret v ->
  exists pre,
    Forall (fun e => e = EvEsSearch tid \/ e = EvPrint "RequestError") pre /\
    trace (main_signatures cfg st w a tid (Some t) s).2 =
      (trace s ++ pre ++ EvJsonLoad (report_json cfg (arg_id a)) ::
       match v with
       | VNone => []
       | _ => [EvRunSignatures (task_id t) v (arg_signature_name a)]
       end)%list /\
    (main_signatures cfg st w a tid (Some t) s).1 =
      match v with
      | VNone => Ok tt
      | _ => match RunSignatures st (arg_signature_name a) v with
             | Ret _ => Ok tt
             | Raise e => Exc e
             end
      end.
Proof.
  intros Hm Hes Hrep Hload.
  destruct (load_report_false (stores w) tid true s Hm Hes) as (pre & Hrun & Hpre).
  exists pre. split; [exact Hpre |].
  unfold main_signatures. rewrite (bind_ok _ _ s (VBool false)) by (by rewrite Hrun).
  rewrite Hrun. cbn [snd truthy negb].
  unfold load_json_file, exists_path, call, bind, gets, emit, modify, ret, raise.
  cbn [fst snd files add_event].
  rewrite (bool_decide_eq_true_2 _ Hrep). cbn [negb fst snd files add_event].
  rewrite (bool_decide_eq_true_2 _ Hrep). cbn [negb fst snd files add_event].
  rewrite Hload.
  destruct v; cbn [fst snd trace add_event];
    try (destruct (RunSignatures st (arg_signature_name a) _);
         cbn [fst snd trace add_event]);
    (split; [by rewrite <- !app_assoc | reflexivity]).
Qed.

Lemma replay_falls_back_to_report_file_witness :
  report_json ex_cfg (arg_id ex_args_replay) ∈ files ex_state_report /\
  (main_signatures ex_cfg ex_stages ex_world_es_error ex_args_replay 1
     (Some ex_task_A) ex_state_report).1 = Ok tt.
Proof.
  assert (H1 : mongodb_enabled (stores ex_world_es_error) = false) by reflexivity.
  assert (H2 : (elasticsearchdb_enabled (stores ex_world_es_error) &&
                negb (elasticsearchdb_searchonly (stores ex_world_es_error))) = false \/
               es_search (stores ex_world_es_error) = Raise ESRequestError \/
               es_search (stores ex_world_es_error) = Ret [])
    by (right; left; reflexivity).
  assert (H3 : report_json ex_cfg (arg_id ex_args_replay) ∈ files ex_state_report)
    by (apply (bool_decide_unpack _); vm_compute; exact I).
  assert (H4 : json_load ex_world_es_error (report_json ex_cfg (arg_id ex_args_replay)) =
               Ret ex_report) by reflexivity.
  split; [exact H3 |].
  destruct (replay_falls_back_to_report_file ex_cfg ex_stages ex_world_es_error
              ex_args_replay 1 ex_task_A ex_state_report ex_report H1 H2 H3 H4)
    as (pre & _ & _ & Hr).
  exact Hr.
Defined.

(** X20.  The file named by [--json-report] is never read.  When the
    stores give no report and the job's report.json is missing, the
    replay ends in [sys.exit] if the option is absent or names an
    existing file, and in the [OSError] of [open] if it names a missing
    one; in neither case is a report loaded or a signature run. *)
Theorem json_report_option_never_read (cfg : config) (st : stages) (w : world)
    (a : args) (tid : Z) (task : option Task) (s : state) :
  mongodb_enabled (stores w) = false ->
  (elasticsearchdb_enabled (stores w) && negb (elasticsearchdb_searchonly (stores w))) = false \/
  es_search (stores w) = Raise ESRequestError \/ es_search (stores w) = Ret [] ->
  report_json cfg (arg_id a) ∉ files s ->
  (main_signatures cfg st w a tid task s).1 =
    match arg_json_report a with
    | Some jr => if bool_decide (jr ∈ files s) then Exit (ExitMsg msg_no_file)
                 else Exc OSError
    | None => Exit (ExitMsg msg_no_file)
    end /\
  exists pre,
    trace (main_signatures cfg st w a tid task s).2 = (trace s ++ pre)%list /\
    Forall (fun e => e = EvEsSearch tid \/ e = EvPrint "RequestError") pre.
Proof.
  intros Hm Hes Hrep.
  destruct (load_report_false (stores w) tid true s Hm Hes) as (pre & Hrun & Hpre).
  unfold main_signatures. rewrite (bind_ok _ _ s (VBool false)) by (by rewrite Hrun).
  rewrite Hrun. cbn [snd truthy negb].
  unfold load_json_file, exists_path, call, bind, gets, emit, modify, ret, raise, sys_exit.
  cbn [fst snd files add_event].
  rewrite (bool_decide_eq_false_2 _ Hrep). cbn [negb fst snd files add_event].
  destruct (arg_json_report a) as [jr |]; cbn [fst snd files trace].
  - destruct (bool_decide (jr ∈ files s)) eqn:Hjr; cbn [negb fst snd files trace];
      rewrite ?Hjr; cbn [negb fst snd files trace];
      (split; [reflexivity | by exists pre]).
  - split; [reflexivity | by exists pre].
Qed.

Lemma json_report_option_never_read_witness :
  (report_json ex_cfg (arg_id ex_args_replay_jr) ∉ files ex_state_replay) /\
  (main_signatures ex_cfg ex_stages ex_world_es_error ex_args_replay_jr 1
     (Some ex_task_A) ex_state_replay).1 = Exc OSError.
Proof.
  assert (H1 : mongodb_enabled (stores ex_world_es_error) = false) by reflexivity.
  assert (H2 : (elasticsearchdb_enabled (stores ex_world_es_error) &&
                negb (elasticsearchdb_searchonly (stores ex_world_es_error))) = false \/
               es_search (stores ex_world_es_error) = Raise ESRequestError \/
               es_search (stores ex_world_es_error) = Ret [])
    by (right; left; reflexivity).
  assert (H3 : report_json ex_cfg (arg_id ex_args_replay_jr) ∉ files ex_state_replay)
    by (apply (bool_decide_unpack _); vm_compute; exact I).
  split; [exact H3 |].
  exact (proj1 (json_report_option_never_read ex_cfg ex_stages ex_world_es_error
                  ex_args_replay_jr 1 (Some ex_task_A) ex_state_replay H1 H2 H3)).
Defined.

(** X21.  With MongoDB enabled there is no fallback: a job without a
    document there ends the replay with [AttributeError], after the one
    query, and neither ElasticSearch nor report.json is consulted. *)
Theorem replay_mongo_no_fallback (cfg : config) (st : stages) (w : world)
    (a : args) (tid : Z) (task : option Task) (s : state) :
  mongodb_enabled (stores w) = true ->
  mongo_find_one (stores w) = Ret None ->
  main_signatures cfg st w a tid task s =
    (Exc AttributeError, add_event (EvMongoFindOne tid) s).
Proof.
  intros Hm Hnone. unfold main_signatures, _load_report. rewrite Hm.
  unfold call, bind, emit, modify, raise, ret. cbn [fst snd]. by rewrite Hnone.
Qed.

Lemma replay_mongo_no_fallback_witness :
  mongodb_enabled (stores ex_world_mongo_empty) = true /\
  (report_json ex_cfg (arg_id ex_args_replay) ∈ files ex_state_report) /\
  (main_signatures ex_cfg ex_stages ex_world_mongo_empty ex_args_replay 1
     (Some ex_task_A) ex_state_report).1 = Exc AttributeError.
Proof.
  assert (H1 : mongodb_enabled (stores ex_world_mongo_empty) = true) by reflexivity.
  assert (H2 : mongo_find_one (stores ex_world_mongo_empty) = Ret None) by reflexivity.
  split; [exact H1 |].
  split; [apply (bool_decide_unpack _); vm_compute; exact I |].
  exact (f_equal fst (replay_mongo_no_fallback ex_cfg ex_stages ex_world_mongo_empty
                        ex_args_replay 1 (Some ex_task_A) ex_state_report H1 H2)).
Defined.

Lemma load_report_events (cfg : config) (w : world) (a : args) (s0 : state)
    (tid : Z) (one : bool) :
  steps (emits (replay_event cfg w a s0)) (_load_report (stores w) tid one).
Proof.
  unfold _load_report. destruct (mongodb_enabled (stores w)) eqn:Hm.
  - steps_go ltac:(first [ apply emits_emit; cbn [replay_event]; solve [auto]
                         | apply emits_silent; intros ?; reflexivity ]).
  - steps_go ltac:(first [ apply emits_emit; cbn [replay_event]; solve [auto]
                         | apply emits_silent; intros ?; reflexivity ]).
Qed.

(** X22.  A replay of signatures reads a report from one place at a
    time: it queries MongoDB only when MongoDB is enabled and
    ElasticSearch only when it is not; the only file it ever loads is
    the job's reports/report.json, and only when that file exists; the
    file named by [--json-report] is not among them. *)
Theorem replay_report_sources (cfg : config) (st : stages) (w : world)
    (a : args) (tid : Z) (task : option Task) (s : state) :
  exists new,
    trace (main_signatures cfg st w a tid task s).2 = (trace s ++ new)%list /\
    Forall (fun e =>
              match e with
              | EvMongoFindOne _ | EvMongoCalls | EvMongoFind _ =>
                  mongodb_enabled (stores w) = true
              | EvEsSearch _ => mongodb_enabled (stores w) = false
              | EvJsonLoad p =>
                  p = (analyses_dir cfg ++ [arg_id a; "reports"; "report.json"])%list /\
                  p ∈ files s
              | EvPrint _ | EvRunSignatures _ _ _ => True
              | _ => False
              end) new.
Proof.
  change (emits (replay_event cfg w a s) s (main_signatures cfg st w a tid task s).2).
  pose proof (load_report_events cfg w a s tid true s) as H1.
  pose proof (load_report_files (stores w) tid true s) as Hf1. unfold keeps in Hf1.
  unfold main_signatures, bind at 1.
  destruct (_load_report (stores w) tid true s) as [[results | e | x |] s1];
    cbn [fst snd] in *; try exact H1.
  etransitivity; [exact H1 |]. clear H1.
  assert (Hrefl : forall s', emits (replay_event cfg w a s) s' s')
    by (intros s'; reflexivity).
  assert (Htail : forall v s2, files s2 = files s -> emits (replay_event cfg w a s) s1 s2 ->
            emits (replay_event cfg w a s) s1
              (match v with
               | VNone => ret tt
               | _ => match task with
                      | None => raise AttributeError
                      | Some t =>
                          call (EvRunSignatures (task_id t) v (arg_signature_name a))
                               (RunSignatures st (arg_signature_name a) v) ;; ret tt
                      end
               end s2).2).
  { intros v s2 Hf2 H2.
    assert (Hrun : emits (replay_event cfg w a s) s1
              (match task with
               | None => raise AttributeError
               | Some t =>
                   call (EvRunSignatures (task_id t) v (arg_signature_name a))
                        (RunSignatures st (arg_signature_name a) v) ;; ret tt
               end s2).2).
    { destruct task as [t |]; [| exact H2].
      unfold call, bind, emit, modify, ret, raise. cbn [fst snd].
      destruct (RunSignatures st (arg_signature_name a) v); cbn [fst snd];
        by apply emits_snoc. }
    destruct v; try exact Hrun. exact H2. }
  unfold bind at 1.
  destruct (truthy results); cbn [negb].
  - cbn [ret fst snd]. by apply Htail.
  - unfold exists_path at 1. unfold bind at 1, gets at 1. cbn [fst snd].
    rewrite Hf1.
    destruct (bool_decide (report_json cfg (arg_id a) ∈ files s)) eqn:Hex; cbn [negb].
    + apply bool_decide_eq_true in Hex.
      unfold bind at 1, ret at 1. cbn [fst snd].
      unfold load_json_file, exists_path, bind, gets, call, emit, modify, ret, raise.
      cbn [fst snd]. rewrite Hf1, (bool_decide_eq_true_2 _ Hex). cbn [fst snd].
      destruct (json_load w (report_json cfg (arg_id a))) as [v | e]; cbn [fst snd].
      * apply (Htail v); [by rewrite <- Hf1 |]. apply emits_snoc; [apply Hrefl |].
        cbn [replay_event]. by split.
      * apply emits_snoc; [apply Hrefl |]. cbn [replay_event]. by split.
    + destruct (arg_json_report a) as [jr |].
      * unfold load_json_file, exists_path, bind, gets, sys_exit, ret, raise.
        cbn [fst snd]. rewrite Hf1.
        destruct (bool_decide (jr ∈ files s)) eqn:Hjr; cbn [negb fst snd];
          rewrite ?Hf1, ?Hjr; cbn [negb fst snd]; apply Hrefl.
      * unfold bind, sys_exit. cbn [fst snd]. apply Hrefl.
Qed.

(** ** Processing one job by id touches no file *)

Lemma main_signatures_files (cfg : config) (st : stages) (w : world) (a : args)
    (tid : Z) (task : option Task) :
  steps (keeps files) (main_signatures cfg st w a tid task).
Proof.
  unfold main_signatures, load_json_file.
  steps_go ltac:(first [apply load_report_files | keeps_leaf]).
Qed.

Lemma process_manual_files (cfg : config) (st : stages) (task : option Task)
    (report capeproc md : bool) :
  steps (keeps files) (process cfg st None None task report false capeproc md).
Proof.
  unfold process. cbn [orb]. steps_go keeps_leaf.
Qed.

(** X23.  Run for one job id (anything but "auto"), the program deletes
    no file, whatever the options and whatever the stages answer, and
    leaves the scheduler's dictionaries and the pool alone: deletion of
    originals and copies belongs to the scheduler's jobs only. *)
Theorem main_single_job_keeps_files (cfg : config) (st : stages) (w : world)
    (a : args) (s : state) :
  arg_id a <> "auto" ->
  files (main cfg st w (Parsed a) s).2 = files s /\
  pending_future_map (main cfg st w (Parsed a) s).2 = pending_future_map s /\
  pending_task_id_map (main cfg st w (Parsed a) s).2 = pending_task_id_map s /\
  pool (main cfg st w (Parsed a) s).2 = pool s.
Proof.
  intros Hid. apply String.eqb_neq in Hid.
  assert (Hf : steps (keeps files) (main cfg st w (Parsed a))).
  { change (main cfg st w (Parsed a)) with (main_body cfg st w a).
    unfold main_body, init_logging. rewrite Hid.
    steps_go ltac:(first [ apply main_signatures_files | apply process_manual_files
                         | keeps_leaf ]). }
  assert (Hc : steps (keeps (fun s => (pending_future_map s, pending_task_id_map s, pool s)))
                 (main cfg st w (Parsed a))).
  { change (main cfg st w (Parsed a)) with (main_body cfg st w a).
    unfold main_body, init_logging, main_signatures, load_json_file, _load_report, process.
    rewrite Hid. cbn [orb].
    steps_go keeps_leaf. }
  split; [apply Hf |]. specialize (Hc s). unfold keeps in Hc.
  injection Hc as H1 H2 H3. by repeat split.
Qed.

Lemma main_single_job_keeps_files_witness :
  arg_id ex_args_replay <> "auto" /\
  files (main ex_cfg ex_stages ex_world_es_error (Parsed ex_args_replay) ex_state_report).2 =
    files ex_state_report.
Proof.
  assert (H : arg_id ex_args_replay <> "auto") by discriminate.
  split; [exact H |].
  exact (proj1 (main_single_job_keeps_files ex_cfg ex_stages ex_world_es_error
                  ex_args_replay ex_state_report H)).
Defined.
